(** * PageLayout: the ebook page layout engine (src/ebooktest2/PageLayout.cpp)

    A shallow embedding of the font cache, the word iterator, the layout
    state machine and the drawing of a page, followed by the properties
    of the layout that the specification states and by further
    properties of the code.

    Numbers.  [REAL] is GDI+'s [float].  It is modelled here by exact
    rational arithmetic ([Q]): comparisons and the four operations are the
    mathematical ones, rounding is not modelled.  Where rounding decides
    a property of the specification, the statements of the code it
    depends on are given over any arithmetic as well and run in IEEE 754
    binary32.  [size_t] counters are [nat], the [int] newline counter is
    a [Z] that wraps around at 32 bits, the [FontStyle] bit mask is a
    [Z]. *)

From Stdlib Require Import ZArith QArith Qminmax Ascii String List Bool Lia Lqa.
From Stdlib Require Import Floats.SpecFloat.
Import ListNotations.

Local Open Scope Q_scope.

(** ** Numbers *)

Definition REAL := Q.

(** [a < b] on [REAL] as the boolean the C++ comparison yields. *)
Definition Qltb (a b : REAL) : bool :=
  match a ?= b with Lt => true | _ => false end.

(** [int]: 32 bits in two's complement.  An increment past [INT_MAX] is
    undefined in C++; on the machines the program runs on it wraps
    around. *)
Definition INT_MAX : Z := 2147483647%Z.

Definition wrapInt (z : Z) : Z :=
  ((z + 2147483648) mod 4294967296 - 2147483648)%Z.

(** ** Characters and text spans *)

(** A [const char *] span [[s, s+len)] is the list of its characters. *)
Definition chars := list ascii.

Definition chars_of (s : string) : chars := list_ascii_of_string s.

Definition ch_space : ascii := " "%char.
Definition ch_tab : ascii := ascii_of_nat 9.
Definition ch_lf : ascii := ascii_of_nat 10.
Definition ch_cr : ascii := ascii_of_nat 13.

(** C's [isspace] in the "C" locale: space, \t, \n, \v, \f, \r. *)
Definition isspace (c : ascii) : bool :=
  let n := nat_of_ascii c in
  (n =? 32)%nat || ((9 <=? n)%nat && (n <=? 13)%nat).

(** ** Fonts and the font cache *)

Definition FontStyle := Z.
Definition FontStyleRegular : FontStyle := 0%Z.
Definition FontStyleBold : FontStyle := 1%Z.
Definition FontStyleItalic : FontStyle := 2%Z.
Definition FontStyleUnderline : FontStyle := 4%Z.
Definition FontStyleStrikeout : FontStyle := 8%Z.

(** GDI+ status of a constructed object. *)
Inductive Status := Ok | FontFamilyNotFound.

(** Modelled from the spec: the GDI+ [Font] object behind a font handle
    (its class is not part of the sources).  A handle records the
    descriptor it was constructed from and the status the constructor
    left in it; a handle whose status is not [Ok] is invalid.  Two
    objects constructed from one descriptor are not told apart: no
    property below is about which of them a handle points to. *)
Record Font := mkFont {
  family : chars;
  emSize : REAL;
  fontStyle : FontStyle;
  lastResult : Status
}.

Definition IsAvailable (f : Font) : bool :=
  match lastResult f with Ok => true | _ => false end.

Module FontCache.

(** Modelled from the spec: [FontCache::Entry] and its [operator==]
    (declared in PageLayout.h, which is not part of the sources): an
    entry is found when its (name, size, style) triple is identical. *)
Record Entry := mkEntry {
  name : chars;
  size : REAL;
  style : FontStyle;
  font : Font
}.

Definition chars_eqb (a b : chars) : bool :=
  if list_eq_dec ascii_dec a b then true else false.

Definition Entry_eqb (f e : Entry) : bool :=
  Qeq_bool (size f) (size e) && (style f =? style e)%Z
    && chars_eqb (name f) (name e).

Section GetFont.
(** [::new Font(name, size, style)]: the status the GDI+ constructor
    leaves in the new object depends on the fonts of the system. *)
Variable FontCtorStatus : chars -> REAL -> FontStyle -> Status.

Definition newFont (nm : chars) (sz : REAL) (fs : FontStyle) : Font :=
  mkFont nm sz fs (FontCtorStatus nm sz fs).

(** [FontCache::GetFont]: the cache is threaded through. *)
Definition GetFont (cache : list Entry) (nm : chars) (sz : REAL)
    (fs : FontStyle) : Font * list Entry :=
  let f := mkEntry nm sz fs (newFont nm sz fs) in
  match find (Entry_eqb f) cache with
  | Some e => (font e, cache)
  | None => (font f, cache ++ [f])
  end.
End GetFont.

End FontCache.

(** ** The word iterator *)

(** [WordInfo]: the span [[s, s+len)]. *)
Definition WordInfo := chars.

Definition IsNewline (wi : WordInfo) : bool :=
  (length wi =? 1)%nat
  && match wi with c :: _ => Ascii.eqb c ch_lf | [] => false end.

Module WordsIter.

(** The iterator state is the span [[curr, end)] that is left. *)
Definition t := chars.

(** [IsNewlineSkip]: the boolean result and the advanced [s]. *)
Definition IsNewlineSkip (s : chars) : bool * chars :=
  let s1 := match s with
            | c :: r => if Ascii.eqb ch_cr c then r else s
            | [] => s
            end in
  let s2 := match s1 with
            | c :: r => if Ascii.eqb ch_lf c then r else s1
            | [] => s1
            end in
  (negb (length s2 =? length s)%nat, s2).

(** [while (curr < end && *curr == ' ') curr++] *)
Fixpoint skipSpaces (curr : chars) : chars :=
  match curr with
  | c :: r => if Ascii.eqb c ch_space then skipSpaces r else curr
  | [] => []
  end.

(** [while (curr < end && !isspace( *curr)) curr++]: the characters
    passed over and the span left. *)
Fixpoint skipWord (curr : chars) : chars * chars :=
  match curr with
  | c :: r =>
      if isspace c then ([], curr)
      else let (w, rest) := skipWord r in (c :: w, rest)
  | [] => ([], [])
  end.

(** [WordsIter::Next]: [None] is the NULL result. *)
Definition Next (curr : t) : option WordInfo * t :=
  let c1 := skipSpaces curr in
  match c1 with
  | [] => (None, c1)
  | _ :: _ =>
      let (nl, c2) := IsNewlineSkip c1 in
      if nl then (Some [ch_lf], c2)
      else let (w, c3) := skipWord c2 in (Some w, c3)
  end.

(** Calling [Next] until it returns NULL, at most [fuel] times: the
    tokens returned, or [None] when NULL was not reached. *)
Fixpoint tokens (fuel : nat) (curr : t) : option (list WordInfo) :=
  match fuel with
  | O => None
  | S k =>
      match Next curr with
      | (None, _) => Some []
      | (Some w, c') =>
          match tokens k c' with
          | Some ws => Some (w :: ws)
          | None => None
          end
      end
  end.

(** The white space the iterator handles: the space, which it skips,
    and \r and \n, which it turns into newline tokens. *)
Definition handled (c : ascii) : bool :=
  negb (isspace c) || Ascii.eqb c ch_space || Ascii.eqb c ch_cr
    || Ascii.eqb c ch_lf.

(** A token [Next] is meant to return: the newline token, or a word of
    at least one character, none of them white space. *)
Definition goodToken (w : WordInfo) : Prop :=
  w = [ch_lf] \/ (w <> [] /\ forallb (fun c => negb (isspace c)) w = true).

End WordsIter.

(** ** Draw instructions and pages *)

(** GDI+'s [RectF]. *)
Record RectF := mkRectF { X : REAL; Y : REAL; Width : REAL; Height : REAL }.

(** [RectF()] *)
Definition RectF0 : RectF := mkRectF 0 0 0 0.

Definition ImageData2 := chars.

Inductive InstrType :=
  InstrTypeString | InstrTypeLine | InstrTypeSetFont | InstrTypeImage.

(** Modelled from the spec: [DrawInstr] (declared in PageLayout.h, which
    is not part of the sources) is a tagged variant, [SetFont(handle)],
    [Text(content, bounding box)], [Rule(bounding box)] and
    [Image(image, bounding box)].  The code reads and writes [bbox] of an
    instruction of any type, so the box is a field of every instruction. *)
Inductive InstrData :=
| DStr (s : chars)
| DLine
| DSetFont (f : Font)
| DImage (d : ImageData2).

Record DrawInstr := mkInstr { data : InstrData; bbox : RectF }.

Definition type (i : DrawInstr) : InstrType :=
  match data i with
  | DStr _ => InstrTypeString
  | DLine => InstrTypeLine
  | DSetFont _ => InstrTypeSetFont
  | DImage _ => InstrTypeImage
  end.

Definition isString (i : DrawInstr) : bool :=
  match data i with DStr _ => true | _ => false end.

Module Instr.
Definition Str (s : chars) (bb : RectF) : DrawInstr := mkInstr (DStr s) bb.
Definition SetFont (f : Font) : DrawInstr := mkInstr (DSetFont f) RectF0.
Definition Line (bb : RectF) : DrawInstr := mkInstr DLine bb.
Definition Image (d : ImageData2) (bb : RectF) : DrawInstr :=
  mkInstr (DImage d) bb.
End Instr.

(** [PageData]: the vector [drawInstructions]; [Count] is its length and
    [Append] adds at the end. *)
Definition PageData := list DrawInstr.

(** ** The token source *)

(** Modelled from the spec: the alignments (left, right, center, justify)
    of HtmlPullParser.h, which is not part of the sources, under the names
    the code uses; [Align_NotFound] stands for any other value of the
    attribute. *)
Inductive AlignAttr :=
  Align_NotFound | Align_Center | Align_Justify | Align_Left | Align_Right.

(** Modelled from the spec: the tags of HtmlPullParser.h that the engine
    tells apart, under the names the code uses; [Tag_NotFound] stands for
    every other tag. *)
Inductive HtmlTag :=
  Tag_NotFound | Tag_B | Tag_Em | Tag_Hr | Tag_I | Tag_Img
| Tag_Mbp_Pagebreak | Tag_P | Tag_Pagebreak | Tag_Strike | Tag_Strong
| Tag_Style | Tag_U.

Definition HtmlTag_eqb (a b : HtmlTag) : bool :=
  match a, b with
  | Tag_NotFound, Tag_NotFound | Tag_B, Tag_B | Tag_Em, Tag_Em
  | Tag_Hr, Tag_Hr | Tag_I, Tag_I | Tag_Img, Tag_Img
  | Tag_Mbp_Pagebreak, Tag_Mbp_Pagebreak | Tag_P, Tag_P
  | Tag_Pagebreak, Tag_Pagebreak | Tag_Strike, Tag_Strike
  | Tag_Strong, Tag_Strong | Tag_Style, Tag_Style | Tag_U, Tag_U => true
  | _, _ => false
  end.

Inductive TokenType := StartTag | EndTag | EmptyElementTag | Text | Error.

Record AttrInfo := mkAttr { attrName : chars; val : chars }.

(** Modelled from the spec: a token of the pull parser (HtmlPullParser.h
    is not part of the sources): a tag, with the tag [FindTag] gives for
    its name, its start/end flag and its attributes, or a text span, or
    the parser's error. *)
Record HtmlToken := mkToken {
  tokType : TokenType;
  tokTag : HtmlTag;
  tokAttrs : list AttrInfo;
  tokText : chars
}.

Definition IsStartTag (t : HtmlToken) : bool :=
  match tokType t with StartTag => true | _ => false end.
Definition IsEndTag (t : HtmlToken) : bool :=
  match tokType t with EndTag => true | _ => false end.
Definition IsEmptyElementEndTag (t : HtmlToken) : bool :=
  match tokType t with EmptyElementTag => true | _ => false end.
Definition IsTag (t : HtmlToken) : bool :=
  IsStartTag t || IsEndTag t || IsEmptyElementEndTag t.
Definition IsError (t : HtmlToken) : bool :=
  match tokType t with Error => true | _ => false end.

(** ** What the engine calls and the sources do not define *)

Record Backend := mkBackend {
  (** the status [::new Font(name, size, style)] leaves in the object *)
  FontCtorStatus : chars -> REAL -> FontStyle -> Status;
  (** [font->GetHeight(&gfx)] *)
  GetHeight : Font -> REAL;
  (** [MeasureText(&gfx, font, buf, strLen)] of the word converted by
      [str::Utf8ToWcharBuf] *)
  MeasureText : Font -> chars -> RectF;
  (** [BitmapFromData]: NULL, or a bitmap's [GetWidth()], [GetHeight()] *)
  BitmapFromData : ImageData2 -> option (Z * Z);
  (** [attrInfo->HasName(s)] *)
  HasName : AttrInfo -> string -> bool;
  FindAlignAttr : chars -> AlignAttr;
  RecordStartTag : list HtmlTag -> HtmlTag -> list HtmlTag;
  RecordEndTag : list HtmlTag -> HtmlTag -> list HtmlTag;
  (** the characters [SkipWs] skips and [SkipNonWs] stops at *)
  IsWs : ascii -> bool
}.

(** [BaseEbookDoc *doc]: NULL, or the document's [GetImageData]. *)
Definition BaseEbookDoc := option (chars -> option ImageData2).

(** Modelled from the spec: the configuration of a layout (PageLayout.h
    is not part of the sources): page width and height, in whole pixels,
    font name and font size.  The text and the document come with the
    tokens and with [doc]. *)
Record LayoutInfo := mkLayoutInfo {
  li_pageSize_dx : Z;
  li_pageSize_dy : Z;
  li_fontName : chars;
  li_fontSize : REAL
}.

(** ** The layout state *)

Record PageLayout := mkPageLayout {
  (** [INewPageObserver *]: NULL, or the observer, which is the list of
      the pages [NewPage] has handed to it, oldest first *)
  pageObserver : option (list PageData);
  fontCache : list FontCache.Entry;
  pageSize_dx : REAL;
  pageSize_dy : REAL;
  lineSpacing : REAL;
  spaceDx : REAL;
  fontName : chars;
  fontSize : REAL;
  currFontStyle : FontStyle;
  currFont : Font;
  currJustification : AlignAttr;
  curr_x : REAL;
  curr_y : REAL;
  newLinesCount : Z;
  (** NULL before [StartLayout] *)
  currPage : option PageData;
  tagNesting : list HtmlTag;
  currLineInstrOffset : nat
}.

Definition set_pageObserver (o : option (list PageData)) (st : PageLayout) :=
  mkPageLayout o (fontCache st) (pageSize_dx st) (pageSize_dy st)
    (lineSpacing st) (spaceDx st) (fontName st) (fontSize st)
    (currFontStyle st) (currFont st) (currJustification st)
    (curr_x st) (curr_y st) (newLinesCount st) (currPage st)
    (tagNesting st) (currLineInstrOffset st).

Definition set_font (c : list FontCache.Entry) (fs : FontStyle) (f : Font)
    (st : PageLayout) :=
  mkPageLayout (pageObserver st) c (pageSize_dx st) (pageSize_dy st)
    (lineSpacing st) (spaceDx st) (fontName st) (fontSize st)
    fs f (currJustification st)
    (curr_x st) (curr_y st) (newLinesCount st) (currPage st)
    (tagNesting st) (currLineInstrOffset st).

Definition set_currJustification (a : AlignAttr) (st : PageLayout) :=
  mkPageLayout (pageObserver st) (fontCache st) (pageSize_dx st)
    (pageSize_dy st) (lineSpacing st) (spaceDx st) (fontName st)
    (fontSize st) (currFontStyle st) (currFont st) a
    (curr_x st) (curr_y st) (newLinesCount st) (currPage st)
    (tagNesting st) (currLineInstrOffset st).

Definition set_curr_x (x : REAL) (st : PageLayout) :=
  mkPageLayout (pageObserver st) (fontCache st) (pageSize_dx st)
    (pageSize_dy st) (lineSpacing st) (spaceDx st) (fontName st)
    (fontSize st) (currFontStyle st) (currFont st) (currJustification st)
    x (curr_y st) (newLinesCount st) (currPage st)
    (tagNesting st) (currLineInstrOffset st).

Definition set_curr_y (y : REAL) (st : PageLayout) :=
  mkPageLayout (pageObserver st) (fontCache st) (pageSize_dx st)
    (pageSize_dy st) (lineSpacing st) (spaceDx st) (fontName st)
    (fontSize st) (currFontStyle st) (currFont st) (currJustification st)
    (curr_x st) y (newLinesCount st) (currPage st)
    (tagNesting st) (currLineInstrOffset st).

Definition set_newLinesCount (n : Z) (st : PageLayout) :=
  mkPageLayout (pageObserver st) (fontCache st) (pageSize_dx st)
    (pageSize_dy st) (lineSpacing st) (spaceDx st) (fontName st)
    (fontSize st) (currFontStyle st) (currFont st) (currJustification st)
    (curr_x st) (curr_y st) n (currPage st)
    (tagNesting st) (currLineInstrOffset st).

Definition set_currPage (p : option PageData) (st : PageLayout) :=
  mkPageLayout (pageObserver st) (fontCache st) (pageSize_dx st)
    (pageSize_dy st) (lineSpacing st) (spaceDx st) (fontName st)
    (fontSize st) (currFontStyle st) (currFont st) (currJustification st)
    (curr_x st) (curr_y st) (newLinesCount st) p
    (tagNesting st) (currLineInstrOffset st).

Definition set_tagNesting (l : list HtmlTag) (st : PageLayout) :=
  mkPageLayout (pageObserver st) (fontCache st) (pageSize_dx st)
    (pageSize_dy st) (lineSpacing st) (spaceDx st) (fontName st)
    (fontSize st) (currFontStyle st) (currFont st) (currJustification st)
    (curr_x st) (curr_y st) (newLinesCount st) (currPage st)
    l (currLineInstrOffset st).

Definition set_currLineInstrOffset (n : nat) (st : PageLayout) :=
  mkPageLayout (pageObserver st) (fontCache st) (pageSize_dx st)
    (pageSize_dy st) (lineSpacing st) (spaceDx st) (fontName st)
    (fontSize st) (currFontStyle st) (currFont st) (currJustification st)
    (curr_x st) (curr_y st) (newLinesCount st) (currPage st)
    (tagNesting st) n.

(** The instructions of the current page.  Every function below runs
    after [StartLayout], which leaves [currPage] non-NULL, and none sets
    it back to NULL; a NULL page reads as an empty vector here. *)
Definition page (st : PageLayout) : PageData :=
  match currPage st with Some p => p | None => [] end.

(** [currPage->Count()] *)
Definition Count (st : PageLayout) : nat := length (page st).

(** [currPage->Append(i)] *)
Definition Append (i : DrawInstr) (st : PageLayout) : PageLayout :=
  match currPage st with
  | Some p => set_currPage (Some (p ++ [i])) st
  | None => st
  end.

(** [GetInstructionsForCurrentLine]: the instructions from
    [currLineInstrOffset] to the end of the page. *)
Definition GetInstructionsForCurrentLine (st : PageLayout) : list DrawInstr :=
  skipn (currLineInstrOffset st) (page st).

(** Writing the instructions of the current line back in place. *)
Definition setInstructionsForCurrentLine (l : list DrawInstr)
    (st : PageLayout) : PageLayout :=
  match currPage st with
  | Some p => set_currPage (Some (firstn (currLineInstrOffset st) p ++ l)) st
  | None => st
  end.

Definition IsCurrentLineEmpty (st : PageLayout) : bool :=
  (currLineInstrOffset st =? Count st)%nat.

(** ** The layout engine *)

Definition setXY (x y : REAL) (i : DrawInstr) : DrawInstr :=
  mkInstr (data i)
    (mkRectF x y (Width (bbox i)) (Height (bbox i))).

Definition addX (d : REAL) (i : DrawInstr) : DrawInstr :=
  mkInstr (data i)
    (mkRectF (X (bbox i) + d) (Y (bbox i)) (Width (bbox i)) (Height (bbox i))).

Definition setY (y : REAL) (r : RectF) : RectF :=
  mkRectF (X r) y (Width r) (Height r).

(** The [min] macro: [(a < b) ? a : b]. *)
Definition minREAL (a b : REAL) : REAL := if Qltb a b then a else b.

Definition AddSetFontInstr (f : Font) (st : PageLayout) : PageLayout :=
  Append (Instr.SetFont f) st.

(** [StartNewPage]: the page goes to the observer when there is one and is
    deleted otherwise; then a new page with its leading [SetFont]. *)
Definition StartNewPage (st : PageLayout) : PageLayout :=
  let obs := match currPage st, pageObserver st with
             | Some p, Some seen => Some (seen ++ [p])
             | _, o => o
             end in
  let st := set_pageObserver obs st in
  let st := set_currPage (Some []) st in
  let st := set_curr_y 0 (set_curr_x 0 st) in
  let st := set_newLinesCount 0 st in
  let st := AddSetFontInstr (currFont st) st in
  set_currLineInstrOffset (Count st) st.

(** The loop of [GetCurrentLineDx] over the instructions of the line. *)
Fixpoint lineDx (sp : REAL) (l : list DrawInstr) (dx : REAL) : REAL :=
  match l with
  | [] => dx
  | i :: r => lineDx sp r (if isString i then dx + Width (bbox i) + sp else dx)
  end.

Definition GetCurrentLineDx (st : PageLayout) : REAL :=
  let dx := lineDx (spaceDx st) (GetInstructionsForCurrentLine st)
              (- spaceDx st) in
  if Qltb dx 0 then 0 else dx.

(** The loop of [LayoutLeftStartingAt]: the instructions with their
    positions set, and the final [curr.x]. *)
Fixpoint layoutLeft (sp y : REAL) (l : list DrawInstr) (x : REAL)
    : list DrawInstr * REAL :=
  match l with
  | [] => ([], x)
  | i :: r =>
      if isString i then
        let (r', x') := layoutLeft sp y r (x + (Width (bbox i) + sp)) in
        (setXY x y i :: r', x')
      else
        let (r', x') := layoutLeft sp y r x in (i :: r', x')
  end.

Definition LayoutLeftStartingAt (offX : REAL) (st : PageLayout) : PageLayout :=
  let (l, x) := layoutLeft (spaceDx st) (curr_y st)
                  (GetInstructionsForCurrentLine st) offX in
  set_curr_x x (setInstructionsForCurrentLine l st).

(** The loop of [JustifyLineBoth], [for (n = 1; ++c < end; n++)], from the
    instruction numbered [n] on. *)
Fixpoint shiftFrom (extraSpaceDx : REAL) (n : nat) (l : list DrawInstr)
    : list DrawInstr :=
  match l with
  | [] => []
  | c :: r =>
      addX (inject_Z (Z.of_nat n) * extraSpaceDx) c
        :: shiftFrom extraSpaceDx (S n) r
  end.

Definition JustifyLineBoth (st : PageLayout) : PageLayout :=
  let margin := pageSize_dx st - GetCurrentLineDx st in
  let st := LayoutLeftStartingAt 0 st in
  let l := GetInstructionsForCurrentLine st in
  let count := length l in
  let extraSpaceDx :=
    if (1 <? count)%nat then margin / inject_Z (Z.of_nat (count - 1))
    else margin in
  match l with
  | [] => st
  | c :: r => setInstructionsForCurrentLine (c :: shiftFrom extraSpaceDx 1 r) st
  end.

(** [JustifyLine]; the [default:] case is [assert(0)], which lays out
    nothing in a release build. *)
Definition JustifyLine (mode : AlignAttr) (st : PageLayout) : PageLayout :=
  if IsCurrentLineEmpty st then st
  else
    let st :=
      match mode with
      | Align_Left => LayoutLeftStartingAt 0 st
      | Align_Right =>
          LayoutLeftStartingAt (pageSize_dx st - GetCurrentLineDx st) st
      | Align_Center =>
          LayoutLeftStartingAt ((pageSize_dx st - GetCurrentLineDx st) / 2) st
      | Align_Justify => JustifyLineBoth st
      | Align_NotFound => st
      end in
    set_currLineInstrOffset (Count st) st.

Definition isJustify (a : AlignAttr) : bool :=
  match a with Align_Justify => true | _ => false end.

Definition StartNewLine (isParagraphBreak : bool) (st : PageLayout)
    : PageLayout :=
  if Qeq_bool 0 (curr_y st) && IsCurrentLineEmpty st then st
  else
    let st :=
      if isParagraphBreak && isJustify (currJustification st)
      then JustifyLine Align_Left st
      else JustifyLine (currJustification st) st in
    let st := set_curr_x 0 st in
    let st := set_curr_y (curr_y st + lineSpacing st) st in
    let st := set_currLineInstrOffset (Count st) st in
    if Qltb (pageSize_dy st) (curr_y st + lineSpacing st)
    then StartNewPage st else st.

Definition AddHr (st : PageLayout) : PageLayout :=
  let st := StartNewLine true st in
  let st := set_curr_x 0 st in
  let st :=
    if Qltb (pageSize_dy st) (curr_y st + lineSpacing st)
    then StartNewPage st else st in
  let bb := mkRectF (curr_x st) (curr_y st) (pageSize_dx st) (lineSpacing st) in
  let st := Append (Instr.Line bb) st in
  StartNewLine true st.

(** The block of [AddImage] that resizes an image still too large, in
    the exact arithmetic of the embedding; [fitImage] below is the same
    block over any arithmetic. *)
Definition resizeToFit (st : PageLayout) (img : RectF) : RectF :=
  if Qltb (pageSize_dx st) (Width img)
     || Qltb (pageSize_dy st - curr_y st) (Height img)
  then
    let factor := minREAL (pageSize_dx st / Width img)
                    ((pageSize_dy st - curr_y st) / Height img) in
    mkRectF (X img) (Y img) (Width img * factor) (Height img * factor)
  else img.

(** [AddImage] between its two calls of [StartNewLine], for a bitmap of
    [w] by [h] pixels. *)
Definition placeImage (d : ImageData2) (w h : Z) (st : PageLayout)
    : PageLayout :=
  let img := mkRectF 0 0 (inject_Z w) (inject_Z h) in
  let st :=
    if Qltb (pageSize_dy st - curr_y st) (Height img / 2)
    then StartNewPage st else st in
  let img := resizeToFit st img in
  let st := set_curr_x (curr_x st + (pageSize_dx st - Width img) / 2) st in
  let img := mkRectF (curr_x st) (curr_y st) (Width img) (Height img) in
  let st := Append (Instr.Image d img) st in
  set_curr_y (curr_y st + Height img) st.

Section Engine.

Variable B : Backend.

Definition SetCurrentFont (fs : FontStyle) (st : PageLayout) : PageLayout :=
  let (f, c) := FontCache.GetFont (FontCtorStatus B) (fontCache st)
                  (fontName st) (fontSize st) fs in
  set_font c fs f st.

Definition ChangeFont (fs : FontStyle) (addStyle : bool) (st : PageLayout)
    : PageLayout :=
  let newFontStyle :=
    if addStyle then Z.lor (currFontStyle st) fs
    else Z.land (currFontStyle st) (Z.lnot fs) in
  if (newFontStyle =? currFontStyle st)%Z then st
  else
    let st := SetCurrentFont newFontStyle st in
    AddSetFontInstr (currFont st) st.

Definition StartLayout (cache : list FontCache.Entry) (li : LayoutInfo)
    : PageLayout :=
  let (f, c) := FontCache.GetFont (FontCtorStatus B) cache
                  (li_fontName li) (li_fontSize li) FontStyleRegular in
  (* the cursor, the counter and the offset are not initialized before
     [StartNewPage] sets them *)
  StartNewPage
    (mkPageLayout None c
       (inject_Z (li_pageSize_dx li)) (inject_Z (li_pageSize_dy li))
       (GetHeight B f) (li_fontSize li / (5 # 2))
       (li_fontName li) (li_fontSize li)
       FontStyleRegular f Align_Justify 0 0 0%Z None [] 0%nat).

Definition AddWord (wi : WordInfo) (st : PageLayout) : PageLayout :=
  if IsNewline wi then
    let st := set_newLinesCount (wrapInt (newLinesCount st + 1)) st in
    if (2 =? newLinesCount st)%Z then
      let needsTwo := negb (Qeq_bool (curr_x st) 0) in
      let st := StartNewLine true st in
      if needsTwo then StartNewLine true st else st
    else st
  else
    let st := set_newLinesCount 0%Z st in
    let bb := MeasureText B (currFont st) wi in
    let dx := Width bb in
    let st :=
      if Qltb (pageSize_dx st) (curr_x st + dx)
      then StartNewLine false st else st in
    let bb := setY (curr_y st) bb in
    let st := Append (Instr.Str wi bb) st in
    set_curr_x (curr_x st + (dx + spaceDx st)) st.

Definition AddImage (d : ImageData2) (st : PageLayout) : PageLayout :=
  match BitmapFromData B d with
  | None => st
  | Some (w, h) =>
      StartNewLine false (placeImage d w h (StartNewLine false st))
  end.

Definition attrLoop (f : AttrInfo -> PageLayout -> PageLayout)
    (t : HtmlToken) (st : PageLayout) : PageLayout :=
  fold_left (fun s a => f a s) (tokAttrs t) st.

Definition HandleHtmlTag (t : HtmlToken) (doc : BaseEbookDoc)
    (st : PageLayout) : PageLayout :=
  let tag := tokTag t in
  let st :=
    if IsStartTag t
    then set_tagNesting (RecordStartTag B (tagNesting st) tag) st
    else if IsEndTag t
    then set_tagNesting (RecordEndTag B (tagNesting st) tag) st
    else st in
  match tag with
  | Tag_P =>
      let st := StartNewLine true st in
      let st := set_currJustification Align_Justify st in
      if IsStartTag t then
        attrLoop (fun a s =>
          if HasName B a "align"
          then set_currJustification (FindAlignAttr B (val a)) s
          else s) t st
      else st
  | Tag_Hr => AddHr st
  | Tag_B | Tag_Strong => ChangeFont FontStyleBold (IsStartTag t) st
  | Tag_I | Tag_Em => ChangeFont FontStyleItalic (IsStartTag t) st
  | Tag_U => ChangeFont FontStyleUnderline (IsStartTag t) st
  | Tag_Strike => ChangeFont FontStyleStrikeout (IsStartTag t) st
  | Tag_Pagebreak | Tag_Mbp_Pagebreak =>
      StartNewPage (JustifyLine (currJustification st) st)
  | Tag_Img =>
      if IsEndTag t then st
      else
        match doc with
        | Some GetImageData =>
            attrLoop (fun a s =>
              if HasName B a "src" || HasName B a "recindex" then
                match GetImageData (val a) with
                | Some d => AddImage d s
                | None => s
                end
              else s) t st
        | None => st
        end
  | _ => st
  end.

Fixpoint SkipWs (s : chars) : chars :=
  match s with
  | c :: r => if IsWs B c then SkipWs r else s
  | [] => []
  end.

(** [SkipNonWs]: the characters passed over and the span left. *)
Fixpoint SkipNonWs (s : chars) : chars * chars :=
  match s with
  | c :: r =>
      if IsWs B c then ([], s)
      else let (w, rest) := SkipNonWs r in (c :: w, rest)
  | [] => ([], [])
  end.

(** The loop [while (curr < end)] of [EmitText], run at most [fuel]
    times. *)
Fixpoint emitWords (fuel : nat) (curr : chars) (st : PageLayout)
    : PageLayout :=
  match fuel with
  | O => st
  | S k =>
      match curr with
      | [] => st
      | _ :: _ =>
          let (w, c1) := SkipNonWs curr in
          let st := if (0 <? length w)%nat then AddWord w st else st in
          emitWords k (SkipWs c1) st
      end
  end.

(** [EmitText]: every pass of the loop moves [curr] forward, so the
    length of the text bounds the number of passes. *)
Definition EmitText (t : HtmlToken) (st : PageLayout) : PageLayout :=
  if existsb (HtmlTag_eqb Tag_Style) (tagNesting st) then st
  else emitWords (length (tokText t)) (SkipWs (tokText t)) st.

(** The loop of [Process] over the tokens [htmlParser->Next()] returns,
    up to NULL or the first error. *)
Fixpoint processTokens (toks : list HtmlToken) (doc : BaseEbookDoc)
    (st : PageLayout) : PageLayout :=
  match toks with
  | [] => st
  | t :: r =>
      if IsError t then st
      else processTokens r doc
             (if IsTag t then HandleHtmlTag t doc st else EmitText t st)
  end.

(** The state [Process] is in when the tokens are used up and the last
    line has been flushed. *)
Definition flushed (observer : option (list PageData)) (doc : BaseEbookDoc)
    (toks : list HtmlToken) (st : PageLayout) : PageLayout :=
  StartNewLine true
    (processTokens toks doc (set_pageObserver observer st)).

Definition Process (observer : option (list PageData)) (doc : BaseEbookDoc)
    (toks : list HtmlToken) (st : PageLayout) : PageLayout :=
  let st := set_pageObserver observer st in
  let st := processTokens toks doc st in
  let st := StartNewLine true st in
  match currPage st with
  | Some p => if (0 <? length p)%nat then StartNewPage st else st
  | None => st
  end.

Definition LayoutHtml (li : LayoutInfo) (doc : BaseEbookDoc)
    (toks : list HtmlToken) (cache : list FontCache.Entry)
    (observer : option (list PageData)) : PageLayout :=
  Process observer doc toks (StartLayout cache li).

End Engine.

(** ** A backend to run the engine on *)

(** The one font family of the system is Georgia. *)
Definition demoFonts (nm : chars) (sz : REAL) (fs : FontStyle) : Status :=
  if FontCache.chars_eqb nm (chars_of "Georgia") then Ok
  else FontFamilyNotFound.

(** Every word is ten units wide per character and ten high; every font is
    twelve high; an image's first two bytes are its width and height. *)
Definition demoBackend : Backend :=
  mkBackend
    demoFonts
    (fun _ => 12)
    (fun _ w => mkRectF 0 0 (inject_Z (10 * Z.of_nat (length w))) 10)
    (fun d => match d with
              | a :: b :: _ =>
                  Some (Z.of_nat (nat_of_ascii a), Z.of_nat (nat_of_ascii b))
              | _ => None
              end)
    (fun a s => FontCache.chars_eqb (attrName a) (chars_of s))
    (fun _ => Align_Left)
    (fun l t => t :: l)
    (fun l _ => tl l)
    (fun c => isspace c).

Definition demoInfo : LayoutInfo := mkLayoutInfo 100 36 (chars_of "Georgia") 10.

(** The demo page after the word "foo". *)
Definition demoLine : PageLayout :=
  AddWord demoBackend (chars_of "foo") (StartLayout demoBackend [] demoInfo).

(** An image of 200 by 50 pixels. *)
Definition demoImage : ImageData2 := [ascii_of_nat 200; ascii_of_nat 50].

Definition textToken (s : string) : HtmlToken :=
  mkToken Text Tag_NotFound [] (chars_of s).

Definition tagToken (ty : TokenType) (tg : HtmlTag) : HtmlToken :=
  mkToken ty tg [] [].

(** ** Predicates the properties are stated with *)

(** The first instruction of a page is a [SetFont]. *)
Definition startsWithSetFont (p : PageData) : bool :=
  match p with
  | i :: _ => match data i with DSetFont _ => true | _ => false end
  | [] => false
  end.

(** The pages the observer has been handed (none without an observer). *)
Definition emitted (st : PageLayout) : list PageData :=
  match pageObserver st with Some seen => seen | None => [] end.

(** Whether an observer is registered. *)
Definition hasObserver (st : PageLayout) : bool :=
  match pageObserver st with Some _ => true | None => false end.

(** The state of the current line that three fields carry: the position,
    the page and the offset of the line in it. *)
Definition touch (x : REAL) (p : PageData) (n : nat) (st : PageLayout)
    : PageLayout :=
  set_currLineInstrOffset n (set_curr_x x (set_currPage (Some p) st)).

(** What holds of the layout state between any two calls: the page
    exists and starts with a [SetFont]; the current line starts after it
    and inside the page; a line without instructions has the cursor at
    its left end; the pages handed over start with a [SetFont]. *)
Record wf (st : PageLayout) : Prop := mkWf {
  wf_head : startsWithSetFont (page st) = true;
  wf_offset : (1 <= currLineInstrOffset st <= Count st)%nat;
  wf_x : IsCurrentLineEmpty st = true -> curr_x st == 0;
  wf_emitted : Forall (fun p => startsWithSetFont p = true) (emitted st)
}.

(** An empty line at the top of a page: where [StartNewLine] does
    nothing. *)
Definition atPageTop (st : PageLayout) : bool :=
  Qeq_bool 0 (curr_y st) && IsCurrentLineEmpty st.

(** The states in which one more newline token changes the counter
    only: the counter is past two, or the line is empty at the top of a
    page. *)
Definition pastBreak (st : PageLayout) : Prop :=
  (2 <= newLinesCount st)%Z
  \/ ((0 <= newLinesCount st)%Z /\ atPageTop st = true).

(** What line and page breaks leave as it is. *)
Record sameSetup (st st' : PageLayout) : Prop := mkSameSetup {
  same_dx : pageSize_dx st' = pageSize_dx st;
  same_dy : pageSize_dy st' = pageSize_dy st;
  same_lineSpacing : lineSpacing st' = lineSpacing st;
  same_spaceDx : spaceDx st' = spaceDx st;
  same_fontName : fontName st' = fontName st;
  same_fontSize : fontSize st' = fontSize st;
  same_style : currFontStyle st' = currFontStyle st;
  same_font : currFont st' = currFont st;
  same_justification : currJustification st' = currJustification st;
  same_cache : fontCache st' = fontCache st;
  same_nesting : tagNesting st' = tagNesting st
}.

(** The width the words of a line take, each with the space after it. *)
Fixpoint sumWidths (sp : REAL) (l : list DrawInstr) : REAL :=
  match l with
  | [] => 0
  | i :: r => (Width (bbox i) + sp) + sumWidths sp r
  end.

(** The number of [Rule] instructions of a page. *)
Definition isLine (i : DrawInstr) : bool :=
  match data i with DLine => true | _ => false end.

Definition countRules (p : PageData) : nat := length (filter isLine p).

(** The [Rule] instructions of the layout so far: those of the pages
    handed to the observer and of the page being filled. *)
Definition totalRules (st : PageLayout) : nat :=
  list_sum (map countRules (emitted st ++ [page st])).

(** ** Further definitions: the keys of the font cache *)

(** No two entries of the cache have the same (name, size, style). *)
Fixpoint distinctKeys (c : list FontCache.Entry) : Prop :=
  match c with
  | [] => True
  | e :: r => Forall (fun e' => FontCache.Entry_eqb e e' = false) r
              /\ distinctKeys r
  end.

(** ** Further definitions: the characters of the tokens *)

(** The characters of the words among the tokens, in order. *)
Definition wordChars (ws : list WordInfo) : chars :=
  flat_map (fun w => if IsNewline w then [] else w) ws.

(** The characters of a span that are not white space. *)
Definition nonSpaces (s : chars) : chars :=
  filter (fun c => negb (isspace c)) s.

(** ** Further definitions: the words of a line *)

(** The width the words among the instructions of a line take, each with
    the space after it. *)
Fixpoint wordsWidth (sp : REAL) (l : list DrawInstr) : REAL :=
  match l with
  | [] => 0
  | i :: r =>
      if isString i then (Width (bbox i) + sp) + wordsWidth sp r
      else wordsWidth sp r
  end.

(** No instruction of the list is a word. *)
Definition noWords (l : list DrawInstr) : bool :=
  forallb (fun i => negb (isString i)) l.

(** Left, right and center: the modes laid out by
    [LayoutLeftStartingAt]. *)
Definition plainMode (mode : AlignAttr) : bool :=
  match mode with
  | Align_Left | Align_Right | Align_Center => true
  | _ => false
  end.

(** Where [JustifyLine] starts the line in these modes. *)
Definition lineStart (mode : AlignAttr) (st : PageLayout) : REAL :=
  match mode with
  | Align_Right => pageSize_dx st - GetCurrentLineDx st
  | Align_Center => (pageSize_dx st - GetCurrentLineDx st) / 2
  | _ => 0
  end.

(** What justification leaves of an instruction: its contents and the
    size of its box. *)
Definition shape (i : DrawInstr) : InstrData * REAL * REAL :=
  (data i, Width (bbox i), Height (bbox i)).

(** The demo page after the words "foo" and "bar", and its two words. *)
Definition demoTwoWords : PageLayout :=
  AddWord demoBackend (chars_of "bar") demoLine.

Definition demoFoo : DrawInstr :=
  Instr.Str (chars_of "foo") (mkRectF 0 0 (inject_Z 30) 10).

Definition demoBar : DrawInstr :=
  Instr.Str (chars_of "bar") (mkRectF 0 0 (inject_Z 30) 10).

(** ** Further definitions: the steps the engine is made of *)

Definition isSetFont (d : InstrData) : bool :=
  match d with DSetFont _ => true | _ => false end.

(** The contents of pages, without the font changes: words, rules and
    images in their order. *)
Definition visibleOf (pages : list PageData) : list InstrData :=
  filter (fun d => negb (isSetFont d)) (flat_map (map data) pages).

(** The contents of the layout so far: of the pages handed to the
    observer and of the page being filled. *)
Definition visible (st : PageLayout) : list InstrData :=
  visibleOf (emitted st ++ [page st]).

(** What [AddWord] is to add for a word: nothing for the newline token. *)
Definition wordOut (w : WordInfo) : list InstrData :=
  if IsNewline w then [] else [DStr w].

(** What breaks, cursor moves and font changes leave as it is: the
    fields marked "constant during layout process" in the class. *)
Record sameConfig (st st' : PageLayout) : Prop := mkSameConfig {
  cfg_dx : pageSize_dx st' = pageSize_dx st;
  cfg_dy : pageSize_dy st' = pageSize_dy st;
  cfg_lineSpacing : lineSpacing st' = lineSpacing st;
  cfg_spaceDx : spaceDx st' = spaceDx st;
  cfg_fontName : fontName st' = fontName st;
  cfg_fontSize : fontSize st' = fontSize st
}.

(** The observer is the one it was, and has the pages it had, with more
    pages after them. *)
Definition handedOn (st st' : PageLayout) : Prop :=
  hasObserver st' = hasObserver st
  /\ exists more, emitted st' = emitted st ++ more.

(** The cache holds the current font and every font a page refers to. *)
Definition fontsOwned (st : PageLayout) : Prop :=
  (exists e, In e (fontCache st) /\ FontCache.font e = currFont st)
  /\ forall f,
       In (DSetFont f) (flat_map (map data) (emitted st ++ [page st])) ->
       exists e, In e (fontCache st) /\ FontCache.font e = f.

(** There is a page and there is an observer. *)
Definition observed (st : PageLayout) : Prop :=
  currPage st <> None /\ hasObserver st = true.

Section Steps.

Variable B : Backend.

(** The current font is the handle of the cache for the font name, the
    font size and the current style. *)
Definition fontCurrent (st : PageLayout) : Prop :=
  exists e,
    find (FontCache.Entry_eqb
            (FontCache.mkEntry (fontName st) (fontSize st) (currFontStyle st)
               (FontCache.newFont (FontCtorStatus B) (fontName st)
                  (fontSize st) (currFontStyle st))))
      (fontCache st) = Some e
    /\ FontCache.font e = currFont st.

(** The steps line breaks, words, rules, images and font changes are made
    of, each with the contents it adds to the page. *)
Inductive prim : PageLayout -> list InstrData -> PageLayout -> Prop :=
| prim_page st : prim st [] (StartNewPage st)
| prim_boxes st p p' x n :
    currPage st = Some p -> map data p' = map data p ->
    prim st [] (touch x p' n st)
| prim_x st x : prim st [] (set_curr_x x st)
| prim_y st y : prim st [] (set_curr_y y st)
| prim_count st c : prim st [] (set_newLinesCount c st)
| prim_font st fs :
    prim st []
      (AddSetFontInstr (currFont (SetCurrentFont B fs st))
         (SetCurrentFont B fs st))
| prim_append st i :
    isSetFont (data i) = false -> prim st [data i] (Append i st).

(** The steps of a tag: those, and the records of nesting and
    alignment. *)
Inductive step : PageLayout -> list InstrData -> PageLayout -> Prop :=
| step_prim st o st' : prim st o st' -> step st o st'
| step_justification st a : step st [] (set_currJustification a st)
| step_nesting st l : step st [] (set_tagNesting l st).

(** Steps one after the other, with what they add. *)
Inductive chain (R : PageLayout -> list InstrData -> PageLayout -> Prop)
    : PageLayout -> list InstrData -> PageLayout -> Prop :=
| chain_nil st : chain R st [] st
| chain_cons st o st1 os st2 :
    R st o st1 -> chain R st1 os st2 -> chain R st (o ++ os) st2.

(** The words the loop of [EmitText] passes to [AddWord], run at most
    [fuel] times. *)
Fixpoint textWords (fuel : nat) (curr : chars) : list WordInfo :=
  match fuel with
  | O => []
  | S k =>
      match curr with
      | [] => []
      | _ :: _ =>
          let (w, c1) := SkipNonWs B curr in
          (if (0 <? length w)%nat then [w] else [])
            ++ textWords k (SkipWs B c1)
      end
  end.

(** What a text token is to add, by the open tags. *)
Definition textOut (nesting : list HtmlTag) (text : chars)
    : list InstrData :=
  if existsb (HtmlTag_eqb Tag_Style) nesting then []
  else flat_map wordOut (textWords (length text) (SkipWs B text)).

(** What an image is to add: nothing when its bitmap is not decoded. *)
Definition imageOut (d : ImageData2) : list InstrData :=
  match BitmapFromData B d with Some _ => [DImage d] | None => [] end.

(** The open tags after a tag. *)
Definition nestingAfter (t : HtmlToken) (nesting : list HtmlTag)
    : list HtmlTag :=
  if IsStartTag t then RecordStartTag B nesting (tokTag t)
  else if IsEndTag t then RecordEndTag B nesting (tokTag t)
  else nesting.

(** What a tag is to add: a rule, or the images its attributes name. *)
Definition tagOut (doc : BaseEbookDoc) (t : HtmlToken) : list InstrData :=
  match tokTag t with
  | Tag_Hr => [DLine]
  | Tag_Img =>
      if IsEndTag t then []
      else
        match doc with
        | Some GetImageData =>
            flat_map (fun a =>
              if HasName B a "src" || HasName B a "recindex" then
                match GetImageData (val a) with
                | Some d => imageOut d
                | None => []
                end
              else []) (tokAttrs t)
        | None => []
        end
  | _ => []
  end.

(** What the tokens are to add, up to the first error. *)
Fixpoint tokensOut (doc : BaseEbookDoc) (toks : list HtmlToken)
    (nesting : list HtmlTag) : list InstrData :=
  match toks with
  | [] => []
  | t :: r =>
      if IsError t then []
      else if IsTag t
      then tagOut doc t ++ tokensOut doc r (nestingAfter t nesting)
      else textOut nesting (tokText t) ++ tokensOut doc r nesting
  end.

End Steps.

(** ** Further definitions: the fonts of the pages *)

(** The font of a [SetFont] instruction is the font of an entry of the
    cache. *)
Definition fontOwned (cache : list FontCache.Entry) (i : DrawInstr) : Prop :=
  match data i with
  | DSetFont f => exists e, In e cache /\ FontCache.font e = f
  | _ => True
  end.

(** The demo page after the word "foo", with an observer. *)
Definition demoObserved : PageLayout := set_pageObserver (Some []) demoLine.

(** A paragraph tag with two [align] attributes. *)
Definition demoParagraph : HtmlToken :=
  mkToken StartTag Tag_P
    [mkAttr (chars_of "align") (chars_of "center");
     mkAttr (chars_of "id") (chars_of "p1");
     mkAttr (chars_of "align") (chars_of "right")]
    [].

(** ** Drawing a page *)

(** GDI+'s [PointF]. *)
Record PointF := mkPointF { px : REAL; py : REAL }.

(** The calls [DrawPageLayout] makes on the [Graphics] object: a
    rectangle with the red pen, a line with the black pen, a string with
    the black brush and a font, NULL being [None], and the bitmap of an
    image of [srcW] by [srcH] pixels. *)
Inductive DrawCall :=
| DrawRectangle (r : RectF)
| DrawLine (p1 p2 : PointF)
| DrawString (buf : chars) (font : option Font) (pos : PointF)
| DrawImage (d : ImageData2) (r : RectF) (srcW srcH : Z).

Definition isDrawRectangle (c : DrawCall) : bool :=
  match c with DrawRectangle _ => true | _ => false end.

(** The call does not draw a string with the NULL font. *)
Definition hasFont (c : DrawCall) : bool :=
  match c with DrawString _ None _ => false | _ => true end.

Section Drawing.

Variable B : Backend.

(** [str::Utf8ToWcharBuf] into the buffer of 512 characters. *)
Variable Utf8ToWcharBuf : chars -> chars.

(** [bbox.X += offX; bbox.Y += offY] *)
Definition offsetBox (offX offY : REAL) (r : RectF) : RectF :=
  mkRectF (X r + offX) (Y r + offY) (Width r) (Height r).

(** One pass of the loop of [DrawPageLayout]: the calls made for the
    instruction, and [font] after it. *)
Definition drawInstr (offX offY : REAL) (showBbox : bool)
    (font : option Font) (instr : DrawInstr)
    : list DrawCall * option Font :=
  let bb := offsetBox offX offY (bbox instr) in
  match data instr with
  | DLine =>
      let y := Y bb + Height bb / 2 in
      ((if showBbox then [DrawRectangle bb] else [])
         ++ [DrawLine (mkPointF (X bb) y) (mkPointF (X bb + Width bb) y)],
       font)
  | DStr s =>
      ((if showBbox then [DrawRectangle bb] else [])
         ++ [DrawString (Utf8ToWcharBuf s) font (mkPointF (X bb) (Y bb))],
       font)
  | DSetFont f => ([], Some f)
  | DImage d =>
      (match BitmapFromData B d with
       | Some (w, h) => [DrawImage d bb w h]
       | None => []
       end,
       font)
  end.

(** The loop over the instructions, from [font]. *)
Fixpoint drawFrom (offX offY : REAL) (showBbox : bool)
    (font : option Font) (instrs : list DrawInstr) : list DrawCall :=
  match instrs with
  | [] => []
  | i :: r =>
      let (calls, font') := drawInstr offX offY showBbox font i in
      calls ++ drawFrom offX offY showBbox font' r
  end.

(** [DrawPageLayout]: [font] is NULL at the start. *)
Definition DrawPageLayout (pageData : PageData) (offX offY : REAL)
    (showBbox : bool) : list DrawCall :=
  drawFrom offX offY showBbox None pageData.

End Drawing.

(** ** Further definitions: what a line break does *)

(** The gap of [JustifyLineBoth]: the margin of the line over the number
    of its instructions less one, or the margin for one instruction. *)
Definition extraSpaceDx (st : PageLayout) : REAL :=
  let margin := pageSize_dx st - GetCurrentLineDx st in
  let count := length (GetInstructionsForCurrentLine st) in
  if (1 <? count)%nat then margin / inject_Z (Z.of_nat (count - 1))
  else margin.

(** Where the [k]-th instruction [i] of the current line is when the line
    has been laid out in [mode], as [i']: the contents and the size of
    the box are kept; in the modes left, right and center a word is at
    the height of the cursor, after the line start and the words before
    it, each with its space, and another instruction is where it was;
    justified, a word is after the words before it and [k] gaps, another
    instruction [k] gaps from where it was. *)
Definition placed (mode : AlignAttr) (st : PageLayout) (k : nat)
    (i i' : DrawInstr) : Prop :=
  let before :=
    wordsWidth (spaceDx st) (firstn k (GetInstructionsForCurrentLine st)) in
  shape i' = shape i
  /\ match mode with
     | Align_NotFound => bbox i' = bbox i
     | Align_Justify =>
         let shift := inject_Z (Z.of_nat k) * extraSpaceDx st in
         if isString i
         then X (bbox i') == before + shift /\ Y (bbox i') = curr_y st
         else X (bbox i') == X (bbox i) + shift /\ Y (bbox i') = Y (bbox i)
     | _ =>
         if isString i
         then X (bbox i') == lineStart mode st + before
              /\ Y (bbox i') = curr_y st
         else bbox i' = bbox i
     end.

(** The page [p'] is the page of [st] with its current line laid out in
    [mode]: the instructions before the line are as they were, and every
    instruction of the line is placed. *)
Definition laidOut (mode : AlignAttr) (st : PageLayout) (p' : PageData)
    : Prop :=
  length p' = Count st
  /\ firstn (currLineInstrOffset st) p'
     = firstn (currLineInstrOffset st) (page st)
  /\ forall k i,
       nth_error (GetInstructionsForCurrentLine st) k = Some i ->
       exists i',
         nth_error p' (currLineInstrOffset st + k) = Some i'
         /\ placed mode st k i i'.

(** The mode a line is laid out in when it is closed: the last line of a
    justified paragraph goes to the left. *)
Definition breakMode (isParagraphBreak : bool) (st : PageLayout)
    : AlignAttr :=
  if isParagraphBreak && isJustify (currJustification st)
  then Align_Left else currJustification st.

(** What a line break makes of [st], as [s']: nothing for an empty line
    at the top of a page; otherwise the line is laid out and closed, the
    cursor goes to the line start and one line down, and when a further
    line does not fit below it, the page goes to the observer (or is
    dropped) and a page of the [SetFont] of the current font is started,
    with the cursor at the origin and the newline counter at zero. *)
Definition lineBroken (isParagraphBreak : bool) (st s' : PageLayout)
    : Prop :=
  if atPageTop st then s' = st
  else
    sameSetup st s'
    /\ curr_x s' = 0
    /\ exists p',
         laidOut (breakMode isParagraphBreak st) st p'
         /\ if Qltb (pageSize_dy st)
                 (curr_y st + lineSpacing st + lineSpacing st)
            then
              curr_y s' = 0 /\ newLinesCount s' = 0%Z
              /\ currPage s' = Some [Instr.SetFont (currFont st)]
              /\ currLineInstrOffset s' = 1%nat
              /\ pageObserver s'
                 = option_map (fun seen => seen ++ [p']) (pageObserver st)
            else
              curr_y s' = curr_y st + lineSpacing st
              /\ newLinesCount s' = newLinesCount st
              /\ currPage s' = Some p'
              /\ currLineInstrOffset s' = length p'
              /\ pageObserver s' = pageObserver st.

(** What starting a new page makes of [st], as [s']. *)
Definition pageTurned (st s' : PageLayout) : Prop :=
  sameSetup st s'
  /\ curr_x s' = 0 /\ curr_y s' = 0 /\ newLinesCount s' = 0%Z
  /\ currPage s' = Some [Instr.SetFont (currFont st)]
  /\ currLineInstrOffset s' = 1%nat
  /\ pageObserver s'
     = match currPage st with
       | Some p => option_map (fun seen => seen ++ [p]) (pageObserver st)
       | None => pageObserver st
       end.

(** The demo page with a word on its last line: "foo" on each of its
    three lines. *)
Definition demoLastLine : PageLayout :=
  AddWord demoBackend (chars_of "foo")
    (StartNewLine false
       (AddWord demoBackend (chars_of "foo") (StartNewLine false demoLine))).

(** ** Further definitions: the fonts from page to page *)




(** ** The arithmetic of the code, in any arithmetic *)

(** The operations of [REAL] the code uses. *)
Record Arith := mkArith {
  real : Type;
  r_add : real -> real -> real;
  r_sub : real -> real -> real;
  r_mul : real -> real -> real;
  r_div : real -> real -> real;
  r_lt : real -> real -> bool;
  r_ofInt : Z -> real
}.

(** The exact arithmetic of the embedding. *)
Definition Qarith : Arith :=
  mkArith Q Qplus Qminus Qmult Qdiv Qltb inject_Z.

(** IEEE 754 binary32, round to nearest even: C++'s [float], which
    GDI+'s [REAL] is. *)
Module F32.

Definition prec : Z := 24%Z.
Definition emax : Z := 128%Z.

Definition ofInt (z : Z) : spec_float := binary_normalize prec emax z 0 false.

Definition arith : Arith :=
  mkArith spec_float (SFadd prec emax) (SFsub prec emax) (SFmul prec emax)
    (SFdiv prec emax) SFltb ofInt.

(** The number a finite value stands for. *)
Definition toQ (x : spec_float) : Q :=
  match x with
  | S754_finite s m e =>
      (if s then - inject_Z (Zpos m) else inject_Z (Zpos m)) * Qpower 2 e
  | _ => 0
  end.

End F32.

Section AnyArithmetic.

Variable A : Arith.

(** [StartNewLine] after the line is laid out: [curr.y += lineSpacing]
    and the test [curr.y + lineSpacing > pageSize.dy], from the height
    [y] of the cursor: the new height, and whether a new page is
    started. *)
Definition advanceLine (lineSpacing dy y : real A) : real A * bool :=
  let y := r_add A y lineSpacing in
  (y, r_lt A dy (r_add A y lineSpacing)).

(** [n] lines closed one after the other, from the height [y]: for each,
    whether closing it started a new page, where the cursor is at 0. *)
Fixpoint closeLines (n : nat) (lineSpacing dy y : real A) : list bool :=
  match n with
  | O => []
  | S k =>
      let (y', newPage) := advanceLine lineSpacing dy y in
      newPage
        :: closeLines k lineSpacing dy (if newPage then r_ofInt A 0 else y')
  end.

(** The block of [AddImage] that resizes an image still too large, with
    the cursor at the height [y]: the width and the height of the
    image after it. *)
Definition fitImage (dx dy y w h : real A) : real A * real A :=
  if r_lt A dx w || r_lt A (r_sub A dy y) h
  then
    let a := r_div A dx w in
    let b := r_div A (r_sub A dy y) h in
    let factor := if r_lt A a b then a else b in
    (r_mul A w factor, r_mul A h factor)
  else (w, h).

(** [curr.x += (pageSize.dx - img.Width) / 2] from [curr.x = 0]. *)
Definition centreImage (dx w : real A) : real A :=
  r_add A (r_ofInt A 0) (r_div A (r_sub A dx w) (r_ofInt A 2)).

End AnyArithmetic.


(** * Properties *)

(** ** Comparisons on [REAL] *)

Lemma Qltb_true (a b : REAL) : Qltb a b = true <-> a < b.
Proof.
  unfold Qltb; split; intros H.
  - apply Qlt_alt. destruct (a ?= b); congruence.
  - apply Qlt_alt in H. unfold Qcompare in *. now rewrite H.
Qed.

Lemma Qltb_false (a b : REAL) : Qltb a b = false <-> b <= a.
Proof.
  split; intros H.
  - apply Qnot_lt_le. intros L. apply Qltb_true in L. congruence.
  - destruct (Qltb a b) eqn:E; [|reflexivity].
    apply Qltb_true in E. exfalso. exact (Qlt_not_le _ _ E H).
Qed.

Lemma minREAL_le_l (a b : REAL) : minREAL a b <= a.
Proof.
  unfold minREAL. destruct (Qltb a b) eqn:E.
  - apply Qle_refl.
  - now apply Qltb_false in E.
Qed.

Lemma minREAL_le_r (a b : REAL) : minREAL a b <= b.
Proof.
  unfold minREAL. destruct (Qltb a b) eqn:E.
  - apply Qltb_true in E. now apply Qlt_le_weak.
  - apply Qle_refl.
Qed.

(** ** The word iterator *)

Module WordsIterFacts.
Import WordsIter.

Lemma skipSpaces_suffix (s : chars) :
  exists pre, s = pre ++ skipSpaces s.
Proof.
  induction s as [|c r [pre IH]]; simpl.
  - now exists [].
  - destruct (Ascii.eqb c ch_space).
    + exists (c :: pre). simpl. now f_equal.
    + now exists [].
Qed.

Lemma skipSpaces_head (s : chars) (c : ascii) (r : chars) :
  skipSpaces s = c :: r -> Ascii.eqb c ch_space = false.
Proof.
  induction s as [|a s IH]; simpl; [discriminate|].
  destruct (Ascii.eqb a ch_space) eqn:E; [exact IH|].
  intros H. injection H as -> _. exact E.
Qed.

Lemma skipWord_split (s : chars) :
  s = fst (skipWord s) ++ snd (skipWord s)
  /\ forallb (fun c => negb (isspace c)) (fst (skipWord s)) = true.
Proof.
  induction s as [|c r [IH1 IH2]]; simpl; [now split|].
  destruct (isspace c) eqn:E; simpl; [now split|].
  destruct (skipWord r) as [w rest]; simpl in *.
  split; [now f_equal|]. now rewrite E.
Qed.

Lemma skipWord_nonempty (c : ascii) (r : chars) :
  isspace c = false -> fst (skipWord (c :: r)) <> [].
Proof.
  simpl. intros ->. destruct (skipWord r). simpl. discriminate.
Qed.

(** One call of [Next] on a span whose first character after the
    spaces is handled: a good token, and the span gets shorter. *)
Lemma Next_progress (s : chars) (w : WordInfo) (s' : chars) :
  forallb handled s = true ->
  Next s = (Some w, s') ->
  goodToken w /\ (length s' < length s)%nat
  /\ forallb handled s' = true.
Proof.
  intros Hs. unfold Next.
  destruct (skipSpaces_suffix s) as [pre Hpre].
  assert (Hlen : (length (skipSpaces s) <= length s)%nat).
  { rewrite Hpre at 2. rewrite length_app. lia. }
  assert (Hh : forallb handled (skipSpaces s) = true).
  { rewrite Hpre in Hs. rewrite forallb_app in Hs.
    now apply andb_true_iff in Hs. }
  destruct (skipSpaces s) as [|c r] eqn:Ec; [discriminate|].
  pose proof (skipSpaces_head _ _ _ Ec) as Hsp.
  simpl in Hh. apply andb_true_iff in Hh as [Hc Hr].
  unfold IsNewlineSkip.
  destruct (Ascii.eqb ch_cr c) eqn:Ecr.
  - (* "\r" or "\r\n" *)
    destruct r as [|c2 r2].
    + simpl. intros H. injection H as <- <-.
      split; [now left|]. simpl in *. split; [lia|reflexivity].
    + destruct (Ascii.eqb ch_lf c2) eqn:Elf.
      * replace (negb (length r2 =? length (c :: c2 :: r2))%nat) with true.
        2:{ symmetry. apply negb_true_iff, Nat.eqb_neq. simpl. lia. }
        intros H. injection H as <- <-.
        split; [now left|]. simpl in *.
        apply andb_true_iff in Hr as [_ Hr]. split; [lia|exact Hr].
      * replace (negb (length (c2 :: r2) =? length (c :: c2 :: r2))%nat)
          with true.
        2:{ symmetry. apply negb_true_iff, Nat.eqb_neq. simpl. lia. }
        intros H. injection H as <- <-.
        split; [now left|]. simpl in *. split; [lia|exact Hr].
  - destruct (Ascii.eqb ch_lf c) eqn:Elf.
    + replace (negb (length r =? length (c :: r))%nat) with true.
      2:{ symmetry. apply negb_true_iff, Nat.eqb_neq. simpl. lia. }
      intros H. injection H as <- <-.
      split; [now left|]. simpl in *. split; [lia|exact Hr].
    + rewrite Nat.eqb_refl. cbn [negb].
      assert (Hns : isspace c = false).
      { unfold handled in Hc. rewrite Hsp in Hc.
        rewrite (Ascii.eqb_sym c ch_cr), Ecr in Hc.
        rewrite (Ascii.eqb_sym c ch_lf), Elf in Hc.
        rewrite !orb_false_r in Hc. now apply negb_true_iff in Hc. }
      pose proof (skipWord_split (c :: r)) as [Hsplit Hall].
      pose proof (skipWord_nonempty c r Hns) as Hne.
      destruct (skipWord (c :: r)) as [w0 rest] eqn:Ew. simpl in *.
      intros H. injection H as <- <-.
      split; [right; now split|].
      assert (Hl : length (c :: r) = length (w0 ++ rest)) by now rewrite <- Hsplit.
      rewrite length_app in Hl. simpl in Hl.
      destruct w0 as [|a w0]; [congruence|]. simpl in Hl.
      split; [lia|].
      assert (Hall' : forallb handled (c :: r) = true)
        by (simpl; now rewrite Hc, Hr).
      rewrite Hsplit, forallb_app in Hall'.
      now apply andb_true_iff in Hall'.
Qed.

(** X4.  On a span whose white space is all handled, spaces and line
    ends only, the iteration ends: after at most one call per character
    and one more, [Next] returns NULL, and every token before that is a
    good token, the newline token or a word of at least one character
    without white space. *)
Lemma tokens_handled (fuel : nat) (s : chars) :
  forallb handled s = true ->
  (length s < fuel)%nat ->
  exists ws, tokens fuel s = Some ws /\ Forall goodToken ws.
Proof.
  revert s. induction fuel as [|k IH]; intros s Hs Hlen; [lia|].
  simpl. destruct (Next s) as [[w|] s'] eqn:En.
  - destruct (Next_progress _ _ _ Hs En) as (Hg & Hlt & Hs').
    destruct (IH s' Hs' ltac:(lia)) as (ws & -> & Hws).
    exists (w :: ws). split; [reflexivity|]. now constructor.
  - exists []. split; [reflexivity|constructor].
Qed.

(** "\r", "\n" and "\r\n" are one newline token each. *)
Lemma tokens_newlines :
  tokens 2 [ch_cr] = Some [[ch_lf]]
  /\ tokens 2 [ch_lf] = Some [[ch_lf]]
  /\ tokens 2 [ch_cr; ch_lf] = Some [[ch_lf]].
Proof. repeat split. Qed.

End WordsIterFacts.

(** ** Justification changes boxes only *)

Lemma layoutLeft_data (sp y : REAL) (l : list DrawInstr) (x : REAL) :
  map data (fst (layoutLeft sp y l x)) = map data l.
Proof.
  revert x. induction l as [|i r IH]; intros x; simpl; [reflexivity|].
  destruct (isString i).
  - specialize (IH (x + (Width (bbox i) + sp))).
    destruct (layoutLeft sp y r _) as [r' x']. simpl in *. now f_equal.
  - specialize (IH x).
    destruct (layoutLeft sp y r _) as [r' x']. simpl in *. now f_equal.
Qed.

Lemma shiftFrom_data (e : REAL) (n : nat) (l : list DrawInstr) :
  map data (shiftFrom e n l) = map data l.
Proof.
  revert n. induction l as [|i r IH]; intros n; simpl; [reflexivity|].
  now rewrite IH.
Qed.

Lemma map_data_length (p q : PageData) :
  map data p = map data q -> length p = length q.
Proof.
  intros H. rewrite <- (length_map data p), <- (length_map data q).
  now rewrite H.
Qed.

Lemma map_data_head (p q : PageData) :
  map data p = map data q -> startsWithSetFont p = startsWithSetFont q.
Proof.
  destruct p as [|i p], q as [|j q]; simpl; try discriminate; [reflexivity|].
  intros H. injection H as H _. now rewrite H.
Qed.

Lemma map_data_rules (p q : PageData) :
  map data p = map data q -> countRules p = countRules q.
Proof.
  unfold countRules. revert q.
  induction p as [|i p IH]; intros [|j q]; simpl; try discriminate;
    [reflexivity|].
  intros H. injection H as H1 H2. unfold isLine. rewrite H1.
  destruct (data j); simpl; auto.
Qed.

(** Replacing the instructions of the line by as many with the same
    contents leaves the contents of the page and what is before the
    line as they were. *)
Lemma replace_line (p : PageData) (off : nat) (l : list DrawInstr) :
  map data l = map data (skipn off p) ->
  map data (firstn off p ++ l) = map data p
  /\ firstn off (firstn off p ++ l) = firstn off p
  /\ ((off <= length p)%nat -> skipn off (firstn off p ++ l) = l).
Proof.
  intros H. repeat split.
  - rewrite map_app, H, <- map_app. now rewrite firstn_skipn.
  - destruct (Nat.le_gt_cases off (length p)) as [Hle|Hgt].
    + rewrite firstn_app, length_firstn, Nat.min_l by exact Hle.
      rewrite Nat.sub_diag, firstn_firstn, Nat.min_id. simpl.
      now rewrite app_nil_r.
    + assert (Hl : l = []).
      { rewrite skipn_all2 in H by lia. now destruct l. }
      subst l. rewrite app_nil_r. rewrite firstn_firstn.
      now rewrite Nat.min_id.
  - intros Hle. rewrite skipn_app, length_firstn, Nat.min_l by exact Hle.
    rewrite Nat.sub_diag. simpl.
    rewrite skipn_all2; [reflexivity|]. rewrite length_firstn. lia.
Qed.

Lemma touch_same (st : PageLayout) (p : PageData) :
  currPage st = Some p ->
  touch (curr_x st) p (currLineInstrOffset st) st = st.
Proof. destruct st; simpl; intros ->; reflexivity. Qed.

Lemma set_line_touch (x : REAL) (p : PageData) (n : nat) (st : PageLayout)
    (l : list DrawInstr) :
  setInstructionsForCurrentLine l (touch x p n st)
  = touch x (firstn n p ++ l) n st.
Proof. destruct st; reflexivity. Qed.

Lemma set_offset_touch (x : REAL) (p : PageData) (n m : nat)
    (st : PageLayout) :
  set_currLineInstrOffset m (touch x p n st) = touch x p m st.
Proof. destruct st; reflexivity. Qed.

Lemma LayoutLeftStartingAt_touch (offX : REAL) (st : PageLayout)
    (p : PageData) :
  currPage st = Some p ->
  let r := layoutLeft (spaceDx st) (curr_y st)
             (skipn (currLineInstrOffset st) p) offX in
  LayoutLeftStartingAt offX st
  = touch (snd r) (firstn (currLineInstrOffset st) p ++ fst r)
      (currLineInstrOffset st) st.
Proof.
  intros Hp. unfold LayoutLeftStartingAt, GetInstructionsForCurrentLine, page.
  rewrite Hp. cbv zeta.
  destruct (layoutLeft _ _ _ offX) as [l x]. simpl.
  unfold setInstructionsForCurrentLine. rewrite Hp.
  destruct st; reflexivity.
Qed.

Lemma JustifyLineBoth_touch (st : PageLayout) (p : PageData) :
  currPage st = Some p ->
  (currLineInstrOffset st <= length p)%nat ->
  exists x' p',
    JustifyLineBoth st = touch x' p' (currLineInstrOffset st) st
    /\ map data p' = map data p
    /\ firstn (currLineInstrOffset st) p'
       = firstn (currLineInstrOffset st) p.
Proof.
  intros Hp Hoff. unfold JustifyLineBoth.
  rewrite (LayoutLeftStartingAt_touch 0 st p Hp). cbv zeta.
  set (r := layoutLeft (spaceDx st) (curr_y st)
              (skipn (currLineInstrOffset st) p) 0).
  set (off := currLineInstrOffset st) in *.
  pose proof (layoutLeft_data (spaceDx st) (curr_y st) (skipn off p) 0) as Hd.
  fold r in Hd.
  destruct (replace_line p off (fst r) Hd) as (H1 & H2 & H3).
  specialize (H3 Hoff).
  set (p1 := firstn off p ++ fst r) in *.
  set (st1 := touch (snd r) p1 off st).
  assert (Hline : GetInstructionsForCurrentLine st1 = fst r).
  { unfold GetInstructionsForCurrentLine, page, st1. simpl. exact H3. }
  rewrite Hline.
  destruct (fst r) as [|c rest] eqn:Er.
  - exists (snd r), p1. split; [reflexivity|now split].
  - set (e := if (1 <? length (c :: rest))%nat then _ else _).
    exists (snd r), (firstn off p1 ++ c :: shiftFrom e 1 rest).
    assert (Hd2 : map data (c :: shiftFrom e 1 rest) = map data (skipn off p1)).
    { rewrite H3. simpl. now rewrite shiftFrom_data. }
    destruct (replace_line p1 off _ Hd2) as (G1 & G2 & _).
    split; [|split].
    + unfold st1. apply set_line_touch.
    + now rewrite G1.
    + now rewrite G2.
Qed.

(** [JustifyLine] moves boxes of the current line, leaves the cursor
    anywhere, and closes the line. *)
Lemma JustifyLine_touch (mode : AlignAttr) (st : PageLayout) (p : PageData) :
  currPage st = Some p ->
  (currLineInstrOffset st <= length p)%nat ->
  exists x' p',
    JustifyLine mode st = touch x' p' (length p) st
    /\ map data p' = map data p
    /\ firstn (currLineInstrOffset st) p'
       = firstn (currLineInstrOffset st) p.
Proof.
  intros Hp Hoff. unfold JustifyLine.
  destruct (IsCurrentLineEmpty st) eqn:Ee.
  - exists (curr_x st), p. split; [|now split].
    unfold IsCurrentLineEmpty, Count, page in Ee. rewrite Hp in Ee.
    apply Nat.eqb_eq in Ee. rewrite <- Ee. symmetry. now apply touch_same.
  - assert (HL : forall offX, exists x' p',
        set_currLineInstrOffset (Count (LayoutLeftStartingAt offX st))
          (LayoutLeftStartingAt offX st) = touch x' p' (length p) st
        /\ map data p' = map data p
        /\ firstn (currLineInstrOffset st) p'
           = firstn (currLineInstrOffset st) p).
    { intros offX. rewrite (LayoutLeftStartingAt_touch offX st p Hp).
      cbv zeta.
      set (r := layoutLeft _ _ _ offX).
      pose proof (layoutLeft_data (spaceDx st) (curr_y st)
                    (skipn (currLineInstrOffset st) p) offX) as Hd.
      fold r in Hd.
      destruct (replace_line p _ (fst r) Hd) as (H1 & H2 & _).
      exists (snd r), (firstn (currLineInstrOffset st) p ++ fst r).
      split; [|now split].
      unfold Count, page. simpl.
      rewrite (map_data_length _ _ H1). apply set_offset_touch. }
    destruct mode; try apply HL.
    + exists (curr_x st), p. split; [|now split].
      unfold Count, page. rewrite Hp.
      rewrite <- (touch_same st p Hp) at 1. apply set_offset_touch.
    + destruct (JustifyLineBoth_touch st p Hp Hoff) as (x' & p' & -> & H1 & H2).
      exists x', p'. split; [|now split].
      unfold Count, page. simpl.
      rewrite (map_data_length _ _ H1). apply set_offset_touch.
Qed.

(** ** New pages and new lines *)

Lemma StartNewPage_eq (st : PageLayout) :
  StartNewPage st
  = mkPageLayout
      (match currPage st, pageObserver st with
       | Some p, Some seen => Some (seen ++ [p])
       | _, o => o
       end)
      (fontCache st) (pageSize_dx st) (pageSize_dy st) (lineSpacing st)
      (spaceDx st) (fontName st) (fontSize st) (currFontStyle st)
      (currFont st) (currJustification st) 0 0 0%Z
      (Some [Instr.SetFont (currFont st)]) (tagNesting st) 1%nat.
Proof. reflexivity. Qed.

(** The two ways [StartNewLine] goes: nothing at all for an empty line at
    the top of a page; otherwise the line is laid out and closed, the
    cursor moves to the start of the next line, and a new page starts
    when that line does not fit. *)
Lemma StartNewLine_cases (b : bool) (st : PageLayout) (p : PageData) :
  currPage st = Some p ->
  (currLineInstrOffset st <= length p)%nat ->
  (Qeq_bool 0 (curr_y st) && IsCurrentLineEmpty st = true
   /\ StartNewLine b st = st)
  \/ (Qeq_bool 0 (curr_y st) && IsCurrentLineEmpty st = false
      /\ exists p',
           map data p' = map data p
           /\ firstn (currLineInstrOffset st) p'
              = firstn (currLineInstrOffset st) p
           /\ StartNewLine b st
              = let s1 := set_curr_y (curr_y st + lineSpacing st)
                            (touch 0 p' (length p) st) in
                if Qltb (pageSize_dy st)
                     (curr_y st + lineSpacing st + lineSpacing st)
                then StartNewPage s1 else s1).
Proof.
  intros Hp Hoff. unfold StartNewLine.
  destruct (Qeq_bool 0 (curr_y st) && IsCurrentLineEmpty st) eqn:E;
    [left; now split|right; split; [reflexivity|]].
  set (m := if b && isJustify (currJustification st)
            then Align_Left else currJustification st).
  assert (Hm : (if b && isJustify (currJustification st)
                then JustifyLine Align_Left st
                else JustifyLine (currJustification st) st)
               = JustifyLine m st).
  { unfold m. now destruct (b && isJustify (currJustification st)). }
  rewrite Hm.
  destruct (JustifyLine_touch m st p Hp Hoff) as (x' & p' & -> & H1 & H2).
  exists p'. split; [exact H1|split; [exact H2|]].
  assert (Hs : set_currLineInstrOffset
                 (Count (set_curr_y
                           (curr_y (set_curr_x 0 (touch x' p' (length p) st))
                            + lineSpacing
                                (set_curr_x 0 (touch x' p' (length p) st)))
                           (set_curr_x 0 (touch x' p' (length p) st))))
                 (set_curr_y
                    (curr_y (set_curr_x 0 (touch x' p' (length p) st))
                     + lineSpacing
                         (set_curr_x 0 (touch x' p' (length p) st)))
                    (set_curr_x 0 (touch x' p' (length p) st)))
               = set_curr_y (curr_y st + lineSpacing st)
                   (touch 0 p' (length p) st)).
  { unfold Count, page. simpl. rewrite (map_data_length _ _ H1).
    destruct st; reflexivity. }
  cbv zeta. rewrite Hs. reflexivity.
Qed.

(** ** The invariant of the layout state *)

Lemma wf_page (st : PageLayout) :
  wf st ->
  exists i p, currPage st = Some (i :: p)
              /\ startsWithSetFont (i :: p) = true.
Proof.
  intros [H _ _ _]. unfold page in H.
  destruct (currPage st) as [[|i p]|]; try discriminate.
  now exists i, p.
Qed.

Lemma wf_ext (st st' : PageLayout) :
  currPage st' = currPage st ->
  currLineInstrOffset st' = currLineInstrOffset st ->
  curr_x st' = curr_x st ->
  pageObserver st' = pageObserver st ->
  wf st -> wf st'.
Proof.
  intros Hp Ho Hx Hobs [H1 H2 H3 H4].
  constructor; unfold IsCurrentLineEmpty, Count, page, emitted in *;
    rewrite ?Hp, ?Ho, ?Hx, ?Hobs; assumption.
Qed.

Lemma wf_StartNewPage_after (st : PageLayout) :
  startsWithSetFont (page st) = true ->
  Forall (fun p => startsWithSetFont p = true) (emitted st) ->
  wf (StartNewPage st).
Proof.
  intros Hh He. rewrite StartNewPage_eq.
  constructor; unfold IsCurrentLineEmpty, Count, page, emitted in *; simpl.
  - reflexivity.
  - lia.
  - intros _. reflexivity.
  - destruct (currPage st) as [p|]; [|discriminate].
    destruct (pageObserver st); [|constructor].
    apply Forall_app. split; [exact He|]. now constructor.
Qed.

Lemma wf_StartNewPage (st : PageLayout) : wf st -> wf (StartNewPage st).
Proof.
  intros W. apply wf_StartNewPage_after;
    [exact (wf_head st W)|exact (wf_emitted st W)].
Qed.

(** A state whose current line has just been closed at the left end. *)
Lemma wf_closed_line (st : PageLayout) (p' : PageData) (y' : REAL) :
  wf st ->
  map data p' = map data (page st) ->
  wf (set_curr_y y' (touch 0 p' (length p') st)).
Proof.
  intros W Hd.
  pose proof (map_data_head _ _ Hd) as Hh. rewrite (wf_head st W) in Hh.
  constructor; unfold IsCurrentLineEmpty, Count, page, emitted; simpl.
  - exact Hh.
  - destruct p'; [discriminate|simpl; lia].
  - intros _. reflexivity.
  - exact (wf_emitted st W).
Qed.

Lemma wf_StartNewLine (b : bool) (st : PageLayout) :
  wf st -> wf (StartNewLine b st).
Proof.
  intros W. destruct (wf_page st W) as (i & p & Hp & Hh).
  pose proof (wf_offset st W) as Ho. unfold Count, page in Ho.
  rewrite Hp in Ho.
  destruct (StartNewLine_cases b st (i :: p) Hp (proj2 Ho))
    as [[_ ->]|[_ (p' & H1 & _ & ->)]]; [exact W|].
  cbv zeta.
  assert (W1 : wf (set_curr_y (curr_y st + lineSpacing st)
                     (touch 0 p' (length (i :: p)) st))).
  { rewrite <- (map_data_length _ _ H1). apply wf_closed_line; [exact W|].
    unfold page. now rewrite Hp. }
  destruct (Qltb _ _); [now apply wf_StartNewPage|exact W1].
Qed.

(** After [StartNewLine] the current line is empty. *)
Lemma StartNewLine_empty (b : bool) (st : PageLayout) :
  wf st -> IsCurrentLineEmpty (StartNewLine b st) = true.
Proof.
  intros W. destruct (wf_page st W) as (i & p & Hp & Hh).
  pose proof (wf_offset st W) as Ho. unfold Count, page in Ho.
  rewrite Hp in Ho.
  destruct (StartNewLine_cases b st (i :: p) Hp (proj2 Ho))
    as [[E ->]|[_ (p' & H1 & _ & ->)]].
  - now apply andb_true_iff in E.
  - cbv zeta. destruct (Qltb _ _).
    + reflexivity.
    + unfold IsCurrentLineEmpty, Count, page. simpl.
      rewrite (map_data_length _ _ H1). apply Nat.eqb_refl.
Qed.

(** A state that differs by one more instruction at the end of the page. *)
Lemma wf_appended (st st' : PageLayout) (i : DrawInstr) :
  wf st ->
  currPage st' = Some (page st ++ [i]) ->
  currLineInstrOffset st' = currLineInstrOffset st ->
  pageObserver st' = pageObserver st ->
  wf st'.
Proof.
  intros W Hp Ho Hobs. destruct (wf_page st W) as (j & q & Hq & Hh).
  pose proof (wf_offset st W) as Hoff. unfold Count, page in *.
  rewrite Hq in *.
  constructor; unfold IsCurrentLineEmpty, Count, page, emitted;
    rewrite ?Hp, ?Ho, ?Hobs.
  - exact Hh.
  - rewrite length_app. simpl in *. lia.
  - intros E. apply Nat.eqb_eq in E. rewrite length_app in E.
    simpl in *. lia.
  - exact (wf_emitted st W).
Qed.

Lemma wf_Append (i : DrawInstr) (st : PageLayout) : wf st -> wf (Append i st).
Proof.
  intros W. destruct (wf_page st W) as (j & q & Hq & _).
  apply (wf_appended st _ i W); unfold Append, page; rewrite Hq; reflexivity.
Qed.

Lemma wf_AddHr (st : PageLayout) : wf st -> wf (AddHr st).
Proof.
  intros W. unfold AddHr.
  pose proof (wf_StartNewLine true st W) as W1.
  pose proof (StartNewLine_empty true st W) as E1.
  set (s1 := StartNewLine true st) in *.
  assert (W2 : wf (set_curr_x 0 s1)).
  { destruct W1 as [H1 H2 H3 H4]. constructor; try assumption.
    intros _. reflexivity. }
  set (s2 := set_curr_x 0 s1) in *.
  apply wf_StartNewLine, wf_Append.
  destruct (Qltb _ _); [now apply wf_StartNewPage|exact W2].
Qed.

Lemma wf_placeImage (d : ImageData2) (w h : Z) (st : PageLayout) :
  wf st -> wf (placeImage d w h st).
Proof.
  intros W. unfold placeImage.
  set (s1 := if Qltb _ _ then StartNewPage st else st).
  assert (W1 : wf s1).
  { unfold s1. destruct (Qltb _ _); [now apply wf_StartNewPage|exact W]. }
  clearbody s1. cbv zeta.
  set (img := resizeToFit s1 _). clearbody img.
  destruct (wf_page s1 W1) as (j & q & Hq & _).
  eapply (wf_appended s1 _ _ W1); unfold Append, page; simpl;
    rewrite Hq; reflexivity.
Qed.

Lemma attrLoop_inv (P : PageLayout -> Prop)
    (f : AttrInfo -> PageLayout -> PageLayout) (t : HtmlToken)
    (st : PageLayout) :
  (forall a s, P s -> P (f a s)) -> P st -> P (attrLoop f t st).
Proof.
  intros Hf. unfold attrLoop. revert st.
  induction (tokAttrs t) as [|a l IH]; intros st H; simpl; [exact H|].
  apply IH, Hf, H.
Qed.

Section EngineInvariant.

Variable B : Backend.

Lemma wf_ChangeFont (fs : FontStyle) (addStyle : bool) (st : PageLayout) :
  wf st -> wf (ChangeFont B fs addStyle st).
Proof.
  intros W. unfold ChangeFont. destruct (_ =? _)%Z; [exact W|].
  apply wf_Append. unfold SetCurrentFont.
  destruct (FontCache.GetFont _ _ _ _ _) as [f c].
  now apply (wf_ext st).
Qed.

Lemma wf_AddWord (wi : WordInfo) (st : PageLayout) :
  wf st -> wf (AddWord B wi st).
Proof.
  intros W. unfold AddWord. destruct (IsNewline wi).
  - assert (W1 : wf (set_newLinesCount (wrapInt (newLinesCount st + 1)) st))
      by now apply (wf_ext st).
    cbv zeta. destruct (_ =? _)%Z; [|exact W1].
    destruct (negb _); repeat apply wf_StartNewLine; exact W1.
  - assert (W1 : wf (set_newLinesCount 0 st)) by now apply (wf_ext st).
    cbv zeta. set (s1 := set_newLinesCount 0 st) in *.
    set (s2 := if Qltb _ _ then StartNewLine false s1 else s1).
    assert (W2 : wf s2).
    { unfold s2. destruct (Qltb _ _); [now apply wf_StartNewLine|exact W1]. }
    clearbody s2.
    destruct (wf_page s2 W2) as (j & q & Hq & _).
    eapply (wf_appended s2 _ _ W2); unfold Append, page; simpl;
      rewrite Hq; reflexivity.
Qed.

Lemma wf_AddImage (d : ImageData2) (st : PageLayout) :
  wf st -> wf (AddImage B d st).
Proof.
  intros W. unfold AddImage. destruct (BitmapFromData B d) as [[w h]|];
    [|exact W].
  now apply wf_StartNewLine, wf_placeImage, wf_StartNewLine.
Qed.

Lemma wf_HandleHtmlTag (t : HtmlToken) (doc : BaseEbookDoc)
    (st : PageLayout) :
  wf st -> wf (HandleHtmlTag B t doc st).
Proof.
  intros W. unfold HandleHtmlTag.
  set (s1 := if IsStartTag t then _ else _).
  assert (W1 : wf s1).
  { unfold s1. destruct (IsStartTag t); [now apply (wf_ext st)|].
    destruct (IsEndTag t); [now apply (wf_ext st)|exact W]. }
  clearbody s1. cbv zeta.
  destruct (tokTag t); try exact W1; try now apply wf_ChangeFont.
  - now apply wf_AddHr.
  - destruct (IsEndTag t); [exact W1|]. destruct doc as [g|]; [|exact W1].
    apply attrLoop_inv; [|exact W1]. intros a s Ws.
    destruct (_ || _); [|exact Ws].
    destruct (g (val a)); [now apply wf_AddImage|exact Ws].
  -
    destruct (wf_page s1 W1) as (i & p & Hp & Hh).
    pose proof (wf_offset s1 W1) as Ho. unfold Count, page in Ho.
    rewrite Hp in Ho.
    destruct (JustifyLine_touch (currJustification s1) s1 _ Hp (proj2 Ho))
      as (x' & p' & -> & H1 & _).
    apply wf_StartNewPage_after; unfold page, emitted; simpl.
    + rewrite (map_data_head _ _ H1). exact Hh.
    + exact (wf_emitted s1 W1).
  - assert (W2 : wf (set_currJustification Align_Justify
                       (StartNewLine true s1))).
    { apply (wf_ext (StartNewLine true s1)); try reflexivity.
      now apply wf_StartNewLine. }
    destruct (IsStartTag t); [|exact W2].
    apply attrLoop_inv; [|exact W2]. intros a s Ws.
    destruct (HasName B a "align"); [|exact Ws].
    now apply (wf_ext s).
  -
    destruct (wf_page s1 W1) as (i & p & Hp & Hh).
    pose proof (wf_offset s1 W1) as Ho. unfold Count, page in Ho.
    rewrite Hp in Ho.
    destruct (JustifyLine_touch (currJustification s1) s1 _ Hp (proj2 Ho))
      as (x' & p' & -> & H1 & _).
    apply wf_StartNewPage_after; unfold page, emitted; simpl.
    + rewrite (map_data_head _ _ H1). exact Hh.
    + exact (wf_emitted s1 W1).
Qed.

End EngineInvariant.

Section EngineRuns.

Variable B : Backend.

Lemma wf_emitWords (fuel : nat) (curr : chars) (st : PageLayout) :
  wf st -> wf (emitWords B fuel curr st).
Proof.
  revert curr st. induction fuel as [|k IH]; intros curr st W; simpl;
    [exact W|].
  destruct curr as [|c r]; [exact W|].
  destruct (SkipNonWs B (c :: r)) as [w c1].
  apply IH. destruct (0 <? length w)%nat; [now apply wf_AddWord|exact W].
Qed.

Lemma wf_EmitText (t : HtmlToken) (st : PageLayout) :
  wf st -> wf (EmitText B t st).
Proof.
  intros W. unfold EmitText. destruct (existsb _ _); [exact W|].
  now apply wf_emitWords.
Qed.

Lemma wf_processTokens (toks : list HtmlToken) (doc : BaseEbookDoc)
    (st : PageLayout) :
  wf st -> wf (processTokens B toks doc st).
Proof.
  revert st. induction toks as [|t r IH]; intros st W; simpl; [exact W|].
  destruct (IsError t); [exact W|]. apply IH.
  destruct (IsTag t); [now apply wf_HandleHtmlTag|now apply wf_EmitText].
Qed.

Lemma wf_StartLayout (cache : list FontCache.Entry) (li : LayoutInfo) :
  wf (StartLayout B cache li).
Proof.
  unfold StartLayout. destruct (FontCache.GetFont _ _ _ _ _) as [f c].
  rewrite StartNewPage_eq.
  constructor; unfold IsCurrentLineEmpty, Count, page, emitted; simpl.
  - reflexivity.
  - lia.
  - intros _. reflexivity.
  - constructor.
Qed.

Lemma wf_set_pageObserver (o : option (list PageData)) (st : PageLayout) :
  match o with
  | Some seen => Forall (fun p => startsWithSetFont p = true) seen
  | None => True
  end ->
  wf st -> wf (set_pageObserver o st).
Proof.
  intros Ho [H1 H2 H3 H4]. constructor; try assumption.
  unfold emitted. simpl. destruct o; [exact Ho|constructor].
Qed.

Lemma Process_flushed (observer : option (list PageData))
    (doc : BaseEbookDoc) (toks : list HtmlToken) (st : PageLayout) :
  wf (flushed B observer doc toks st) ->
  Process B observer doc toks st
  = StartNewPage (flushed B observer doc toks st).
Proof.
  intros W. unfold Process. fold (flushed B observer doc toks st).
  destruct (wf_page _ W) as (i & p & -> & _). reflexivity.
Qed.

End EngineRuns.

(** ** The observer stays registered *)

Lemma obs_StartNewPage (st : PageLayout) :
  hasObserver (StartNewPage st) = hasObserver st.
Proof.
  rewrite StartNewPage_eq. unfold hasObserver. simpl.
  now destruct (currPage st), (pageObserver st).
Qed.

Lemma obs_StartNewLine (b : bool) (st : PageLayout) :
  wf st -> hasObserver (StartNewLine b st) = hasObserver st.
Proof.
  intros W. destruct (wf_page st W) as (i & p & Hp & Hh).
  pose proof (wf_offset st W) as Ho. unfold Count, page in Ho.
  rewrite Hp in Ho.
  destruct (StartNewLine_cases b st (i :: p) Hp (proj2 Ho))
    as [[_ ->]|[_ (p' & _ & _ & ->)]]; [reflexivity|].
  cbv zeta. destruct (Qltb _ _); [rewrite obs_StartNewPage|]; reflexivity.
Qed.

Lemma obs_Append (i : DrawInstr) (st : PageLayout) :
  hasObserver (Append i st) = hasObserver st.
Proof. unfold Append. now destruct (currPage st). Qed.

Lemma obs_AddHr (st : PageLayout) :
  wf st -> hasObserver (AddHr st) = hasObserver st.
Proof.
  intros W. unfold AddHr.
  pose proof (wf_StartNewLine true st W) as W1.
  pose proof (obs_StartNewLine true st W) as O1.
  set (s1 := StartNewLine true st) in *.
  assert (W2 : wf (set_curr_x 0 s1)).
  { destruct W1 as [H1 H2 H3 H4]. constructor; try assumption.
    intros _. reflexivity. }
  set (s2 := set_curr_x 0 s1) in *.
  set (s3 := if Qltb _ _ then StartNewPage s2 else s2).
  assert (W3 : wf s3 /\ hasObserver s3 = hasObserver st).
  { unfold s3. destruct (Qltb _ _).
    - split; [now apply wf_StartNewPage|]. now rewrite obs_StartNewPage.
    - now split. }
  destruct W3 as [W3 O3]. clearbody s3. cbv zeta.
  rewrite obs_StartNewLine by now apply wf_Append.
  now rewrite obs_Append.
Qed.

Lemma obs_placeImage (d : ImageData2) (w h : Z) (st : PageLayout) :
  hasObserver (placeImage d w h st) = hasObserver st.
Proof.
  unfold placeImage.
  set (s1 := if Qltb _ _ then StartNewPage st else st).
  assert (O1 : hasObserver s1 = hasObserver st).
  { unfold s1. destruct (Qltb _ _); [apply obs_StartNewPage|reflexivity]. }
  clearbody s1. cbv zeta. rewrite <- O1.
  unfold hasObserver, Append. simpl. now destruct (currPage s1).
Qed.

Section EngineObserver.

Variable B : Backend.

Lemma obs_ChangeFont (fs : FontStyle) (addStyle : bool) (st : PageLayout) :
  hasObserver (ChangeFont B fs addStyle st) = hasObserver st.
Proof.
  unfold ChangeFont. destruct (_ =? _)%Z; [reflexivity|].
  unfold AddSetFontInstr. rewrite obs_Append. unfold SetCurrentFont.
  now destruct (FontCache.GetFont _ _ _ _ _).
Qed.

Lemma obs_AddWord (wi : WordInfo) (st : PageLayout) :
  wf st -> hasObserver (AddWord B wi st) = hasObserver st.
Proof.
  intros W. unfold AddWord. destruct (IsNewline wi).
  - assert (W1 : wf (set_newLinesCount (wrapInt (newLinesCount st + 1)) st))
      by now apply (wf_ext st).
    cbv zeta. destruct (_ =? _)%Z; [|reflexivity].
    destruct (negb _);
      rewrite ?obs_StartNewLine; auto using wf_StartNewLine.
  - assert (W1 : wf (set_newLinesCount 0 st)) by now apply (wf_ext st).
    cbv zeta. set (s1 := set_newLinesCount 0 st) in *.
    set (s2 := if Qltb _ _ then StartNewLine false s1 else s1).
    assert (O2 : hasObserver s2 = hasObserver st).
    { unfold s2. destruct (Qltb _ _); [now rewrite obs_StartNewLine|].
      reflexivity. }
    clearbody s2. rewrite <- O2.
    unfold hasObserver, Append. simpl. now destruct (currPage s2).
Qed.

Lemma obs_AddImage (d : ImageData2) (st : PageLayout) :
  wf st -> hasObserver (AddImage B d st) = hasObserver st.
Proof.
  intros W. unfold AddImage. destruct (BitmapFromData B d) as [[w h]|];
    [|reflexivity].
  rewrite obs_StartNewLine by now apply wf_placeImage, wf_StartNewLine.
  rewrite obs_placeImage. now apply obs_StartNewLine.
Qed.

Lemma obs_HandleHtmlTag (t : HtmlToken) (doc : BaseEbookDoc)
    (st : PageLayout) :
  wf st -> hasObserver (HandleHtmlTag B t doc st) = hasObserver st.
Proof.
  intros W. unfold HandleHtmlTag.
  set (s1 := if IsStartTag t then _ else _).
  assert (W1 : wf s1 /\ hasObserver s1 = hasObserver st).
  { unfold s1. destruct (IsStartTag t); [split; [now apply (wf_ext st)|]|];
      [reflexivity|].
    destruct (IsEndTag t); [split; [now apply (wf_ext st)|]|now split].
    reflexivity. }
  destruct W1 as [W1 O1]. clearbody s1. cbv zeta. rewrite <- O1.
  assert (Hpb : hasObserver
                  (StartNewPage (JustifyLine (currJustification s1) s1))
                = hasObserver s1).
  { rewrite obs_StartNewPage.
    destruct (wf_page s1 W1) as (i & p & Hp & Hh).
    pose proof (wf_offset s1 W1) as Ho. unfold Count, page in Ho.
    rewrite Hp in Ho.
    destruct (JustifyLine_touch (currJustification s1) s1 _ Hp (proj2 Ho))
      as (x' & p' & -> & _ & _). reflexivity. }
  destruct (tokTag t); try reflexivity; try apply obs_ChangeFont;
    try exact Hpb.
  - now apply obs_AddHr.
  - destruct (IsEndTag t); [reflexivity|].
    destruct doc as [g|]; [|reflexivity].
    apply (attrLoop_inv
             (fun s => wf s /\ hasObserver s = hasObserver s1));
      [|now split].
    intros a s [Ws Os]. destruct (_ || _); [|now split].
    destruct (g (val a)); [|now split].
    split; [now apply wf_AddImage|]. now rewrite obs_AddImage.
  - set (s2 := set_currJustification Align_Justify (StartNewLine true s1)).
    assert (O2 : hasObserver s2 = hasObserver s1).
    { unfold s2. now apply obs_StartNewLine. }
    destruct (IsStartTag t); [|exact O2].
    apply (attrLoop_inv (fun s => hasObserver s = hasObserver s1));
      [|exact O2].
    intros a s Os. now destruct (HasName B a "align").
Qed.

Lemma obs_emitWords (fuel : nat) (curr : chars) (st : PageLayout) :
  wf st -> hasObserver (emitWords B fuel curr st) = hasObserver st.
Proof.
  revert curr st. induction fuel as [|k IH]; intros curr st W; simpl;
    [reflexivity|].
  destruct curr as [|c r]; [reflexivity|].
  destruct (SkipNonWs B (c :: r)) as [w c1].
  destruct (0 <? length w)%nat; [|now apply IH].
  rewrite IH by now apply wf_AddWord. now apply obs_AddWord.
Qed.

Lemma obs_processTokens (toks : list HtmlToken) (doc : BaseEbookDoc)
    (st : PageLayout) :
  wf st -> hasObserver (processTokens B toks doc st) = hasObserver st.
Proof.
  revert st. induction toks as [|t r IH]; intros st W; simpl;
    [reflexivity|].
  destruct (IsError t); [reflexivity|].
  destruct (IsTag t).
  - rewrite IH by now apply wf_HandleHtmlTag. now apply obs_HandleHtmlTag.
  - rewrite IH by now apply wf_EmitText.
    unfold EmitText. destruct (existsb _ _); [reflexivity|].
    now apply obs_emitWords.
Qed.

End EngineObserver.

Lemma wf_LayoutHtml_flushed (B : Backend) (li : LayoutInfo)
    (doc : BaseEbookDoc) (toks : list HtmlToken)
    (cache : list FontCache.Entry) :
  wf (flushed B (Some []) doc toks (StartLayout B cache li)).
Proof.
  apply wf_StartNewLine, wf_processTokens, wf_set_pageObserver;
    [constructor|apply wf_StartLayout].
Qed.

(** ** What a line break leaves as it is *)

Lemma StartNewLine_sameSetup (b : bool) (st : PageLayout) :
  wf st -> sameSetup st (StartNewLine b st).
Proof.
  intros W. destruct (wf_page st W) as (i & p & Hp & Hh).
  pose proof (wf_offset st W) as Ho. unfold Count, page in Ho.
  rewrite Hp in Ho.
  destruct (StartNewLine_cases b st (i :: p) Hp (proj2 Ho))
    as [[_ ->]|[_ (p' & _ & _ & ->)]]; [now constructor|].
  cbv zeta. destruct (Qltb _ _); now constructor.
Qed.

Lemma StartNewLine_atPageTop (b : bool) (st : PageLayout) :
  atPageTop st = true -> StartNewLine b st = st.
Proof. unfold StartNewLine, atPageTop. now intros ->. Qed.

Lemma pastBreak_StartNewLine (b : bool) (st : PageLayout) :
  wf st -> pastBreak st -> pastBreak (StartNewLine b st).
Proof.
  intros W P. destruct (wf_page st W) as (i & p & Hp & Hh).
  pose proof (wf_offset st W) as Ho. unfold Count, page in Ho.
  rewrite Hp in Ho.
  destruct (StartNewLine_cases b st (i :: p) Hp (proj2 Ho))
    as [[_ ->]|[E (p' & _ & _ & ->)]]; [exact P|].
  cbv zeta. destruct (Qltb _ _).
  - right. split; [simpl; lia|reflexivity].
  - destruct P as [P|[_ P]].
    + left. exact P.
    + unfold atPageTop in P. congruence.
Qed.

Lemma newLinesCount_StartNewLine (b : bool) (st : PageLayout) :
  wf st ->
  newLinesCount (StartNewLine b st) = newLinesCount st
  \/ newLinesCount (StartNewLine b st) = 0%Z.
Proof.
  intros W. destruct (wf_page st W) as (i & p & Hp & Hh).
  pose proof (wf_offset st W) as Ho. unfold Count, page in Ho.
  rewrite Hp in Ho.
  destruct (StartNewLine_cases b st (i :: p) Hp (proj2 Ho))
    as [[_ ->]|[E (p' & _ & _ & ->)]]; [now left|].
  cbv zeta. destruct (Qltb _ _); [now right|now left].
Qed.

Section Newlines.

Variable B : Backend.

Lemma wrapInt_small (z : Z) :
  (- 2147483648 <= z <= INT_MAX)%Z -> wrapInt z = z.
Proof.
  unfold wrapInt, INT_MAX. intros H.
  rewrite Z.mod_small by lia. lia.
Qed.

Lemma AddWord_newline (st : PageLayout) :
  AddWord B [ch_lf] st
  = let s := set_newLinesCount (wrapInt (newLinesCount st + 1)) st in
    if (2 =? wrapInt (newLinesCount st + 1))%Z then
      if negb (Qeq_bool (curr_x st) 0)
      then StartNewLine true (StartNewLine true s)
      else StartNewLine true s
    else s.
Proof. reflexivity. Qed.

(** Past the break a newline token moves the counter and nothing else,
    as long as the counter does not overflow. *)
Lemma AddWord_newline_pastBreak (st : PageLayout) :
  wf st -> pastBreak st -> (newLinesCount st < INT_MAX)%Z ->
  AddWord B [ch_lf] st = set_newLinesCount (newLinesCount st + 1) st.
Proof.
  intros W P Hmax. rewrite AddWord_newline. cbv zeta.
  assert (Hw : wrapInt (newLinesCount st + 1) = (newLinesCount st + 1)%Z).
  { apply wrapInt_small. unfold INT_MAX in *.
    destruct P as [P|[P _]]; lia. }
  rewrite Hw.
  destruct (2 =? newLinesCount st + 1)%Z eqn:E; [|reflexivity].
  apply Z.eqb_eq in E. destruct P as [P|[_ P]]; [lia|].
  pose proof P as P'. unfold atPageTop in P'.
  apply andb_true_iff in P' as [_ Hempty].
  pose proof (wf_x st W Hempty) as Hx.
  apply Qeq_bool_iff in Hx. rewrite Hx. cbn [negb].
  now apply StartNewLine_atPageTop.
Qed.

Lemma newlines_pastBreak (n : nat) (st : PageLayout) :
  wf st -> pastBreak st ->
  (newLinesCount st + Z.of_nat n <= INT_MAX)%Z ->
  exists k, (newLinesCount st <= k <= newLinesCount st + Z.of_nat n)%Z
            /\ Nat.iter n (AddWord B [ch_lf]) st = set_newLinesCount k st.
Proof.
  intros W P. induction n as [|n IH]; intros Hmax.
  - exists (newLinesCount st). split; [lia|]. now destruct st.
  - destruct IH as (k & Hk & IH); [lia|].
    exists (k + 1)%Z. split; [lia|]. rewrite Nat.iter_succ, IH.
    rewrite AddWord_newline_pastBreak.
    + reflexivity.
    + now apply (wf_ext st).
    + destruct P as [P|[P1 P2]]; [left; simpl; lia|].
      right. split; [simpl; lia|exact P2].
    + simpl. lia.
Qed.

Lemma wf_newlines (n : nat) (st : PageLayout) :
  wf st -> wf (Nat.iter n (AddWord B [ch_lf]) st).
Proof.
  intros W. induction n as [|n IH]; [exact W|].
  rewrite Nat.iter_succ. now apply wf_AddWord.
Qed.

Lemma AddWord_resets_count (wi : WordInfo) (st : PageLayout) :
  wf st -> IsNewline wi = false -> newLinesCount (AddWord B wi st) = 0%Z.
Proof.
  intros W Hw. unfold AddWord. rewrite Hw. cbv zeta.
  assert (W1 : wf (set_newLinesCount 0 st)) by now apply (wf_ext st).
  set (s1 := set_newLinesCount 0 st) in *.
  set (s2 := if Qltb _ _ then StartNewLine false s1 else s1).
  assert (H2 : newLinesCount s2 = 0%Z).
  { unfold s2. destruct (Qltb _ _); [|reflexivity].
    now destruct (newLinesCount_StartNewLine false s1 W1) as [->| ->]. }
  clearbody s2. unfold Append. now destruct (currPage s2).
Qed.

End Newlines.

(** ** Justifying a line of words *)

Lemma lineDx_strings (sp : REAL) (l : list DrawInstr) (dx : REAL) :
  forallb isString l = true -> lineDx sp l dx == dx + sumWidths sp l.
Proof.
  revert dx. induction l as [|i r IH]; intros dx H; simpl in *; [lra|].
  apply andb_true_iff in H as [Hi Hr]. rewrite Hi, (IH _ Hr). lra.
Qed.

Lemma sumWidths_app (sp : REAL) (l1 l2 : list DrawInstr) :
  sumWidths sp (l1 ++ l2) == sumWidths sp l1 + sumWidths sp l2.
Proof.
  induction l1 as [|i r IH]; simpl; [lra|]. rewrite IH. lra.
Qed.

(** Left layout of a line of words: the [k]-th word starts where the
    words before it, each with its space, end. *)
Lemma layoutLeft_strings (sp y : REAL) (l : list DrawInstr) (x : REAL) :
  forallb isString l = true ->
  snd (layoutLeft sp y l x) == x + sumWidths sp l
  /\ forall k i, nth_error l k = Some i ->
       exists i', nth_error (fst (layoutLeft sp y l x)) k = Some i'
                  /\ data i' = data i
                  /\ Width (bbox i') = Width (bbox i)
                  /\ X (bbox i') == x + sumWidths sp (firstn k l)
                  /\ Y (bbox i') = y.
Proof.
  revert x. induction l as [|i r IH]; intros x H; simpl in *.
  - split; [lra|]. intros [|k] j Hk; discriminate.
  - apply andb_true_iff in H as [Hi Hr]. rewrite Hi.
    destruct (IH (x + (Width (bbox i) + sp)) Hr) as [IH1 IH2].
    destruct (layoutLeft sp y r (x + (Width (bbox i) + sp))) as [r' x'].
    simpl in *. split; [rewrite IH1; lra|].
    intros [|k] j Hk; simpl in *.
    + injection Hk as <-. exists (setXY x y i). simpl.
      repeat split; try reflexivity. lra.
    + destruct (IH2 k j Hk) as (i' & H1 & H2 & H3 & H4 & H5).
      exists i'. repeat split; try assumption. rewrite H4. lra.
Qed.

Lemma shiftFrom_nth (e : REAL) (n : nat) (l : list DrawInstr) (k : nat)
    (i : DrawInstr) :
  nth_error l k = Some i ->
  nth_error (shiftFrom e n l) k
  = Some (addX (inject_Z (Z.of_nat (n + k)) * e) i).
Proof.
  revert n k. induction l as [|c r IH]; intros n [|k] H; simpl in *;
    try discriminate.
  - injection H as <-. now rewrite Nat.add_0_r.
  - rewrite (IH (S n) k H). do 4 f_equal. lia.
Qed.

(** The line [JustifyLineBoth] leaves. *)
Lemma JustifyLineBoth_line (st : PageLayout) (p : PageData) :
  currPage st = Some p ->
  (currLineInstrOffset st <= length p)%nat ->
  GetInstructionsForCurrentLine (JustifyLineBoth st)
  = let l1 := fst (layoutLeft (spaceDx st) (curr_y st)
                     (GetInstructionsForCurrentLine st) 0) in
    let margin := pageSize_dx st - GetCurrentLineDx st in
    let e := if (1 <? length l1)%nat
             then margin / inject_Z (Z.of_nat (length l1 - 1))
             else margin in
    match l1 with
    | [] => []
    | c :: r => c :: shiftFrom e 1 r
    end.
Proof.
  intros Hp Hoff. unfold JustifyLineBoth.
  rewrite (LayoutLeftStartingAt_touch 0 st p Hp). cbv zeta.
  assert (Hl : GetInstructionsForCurrentLine st
               = skipn (currLineInstrOffset st) p).
  { unfold GetInstructionsForCurrentLine, page. now rewrite Hp. }
  rewrite Hl.
  set (r := layoutLeft (spaceDx st) (curr_y st)
              (skipn (currLineInstrOffset st) p) 0).
  set (off := currLineInstrOffset st) in *.
  pose proof (layoutLeft_data (spaceDx st) (curr_y st) (skipn off p) 0) as Hd.
  fold r in Hd.
  destruct (replace_line p off (fst r) Hd) as (H1 & H2 & H3).
  specialize (H3 Hoff).
  set (p1 := firstn off p ++ fst r) in *.
  assert (Hline : GetInstructionsForCurrentLine (touch (snd r) p1 off st)
                  = fst r).
  { unfold GetInstructionsForCurrentLine, page. simpl. exact H3. }
  rewrite Hline.
  destruct (fst r) as [|c rest] eqn:Er; [exact Hline|].
  rewrite set_line_touch.
  set (e := if (1 <? length (c :: rest))%nat then _ else _).
  assert (Hd2 : map data (c :: shiftFrom e 1 rest) = map data (skipn off p1)).
  { rewrite H3. simpl. now rewrite shiftFrom_data. }
  destruct (replace_line p1 off _ Hd2) as (_ & _ & G3).
  unfold GetInstructionsForCurrentLine, page.
  change (currPage (touch (snd r) (firstn off p1 ++ c :: shiftFrom e 1 rest)
                      off st))
    with (Some (firstn off p1 ++ c :: shiftFrom e 1 rest)).
  change (currLineInstrOffset
            (touch (snd r) (firstn off p1 ++ c :: shiftFrom e 1 rest) off st))
    with off.
  apply G3. rewrite (map_data_length _ _ H1). exact Hoff.
Qed.

(** Where justification is as specified, in exact arithmetic: on a line
    of at least two instructions that are all words, of a width that is
    not negative, the [k]-th word is shifted by [k] gaps from its place
    in the left layout, a gap being the margin over the number of words
    less one; so the first word starts at 0 and the last one ends at the
    page width. *)
Lemma JustifyLineBoth_words (st : PageLayout) (p : PageData) :
  currPage st = Some p ->
  (currLineInstrOffset st <= length p)%nat ->
  let l := GetInstructionsForCurrentLine st in
  let sp := spaceDx st in
  let n := length l in
  let margin := pageSize_dx st - (sumWidths sp l - sp) in
  let gap := margin / inject_Z (Z.of_nat (n - 1)) in
  forallb isString l = true ->
  (2 <= n)%nat ->
  0 <= sumWidths sp l - sp ->
  forall k i, nth_error l k = Some i ->
    exists i',
      nth_error (GetInstructionsForCurrentLine (JustifyLineBoth st)) k
      = Some i'
      /\ data i' = data i
      /\ Width (bbox i') = Width (bbox i)
      /\ X (bbox i')
         == sumWidths sp (firstn k l) + inject_Z (Z.of_nat k) * gap
      /\ (k = 0%nat -> X (bbox i') == 0)
      /\ (k = (n - 1)%nat -> X (bbox i') + Width (bbox i') == pageSize_dx st).
Proof.
  intros Hp Hoff l sp n margin gap Hall Hn Hpos k i Hk.
  rewrite (JustifyLineBoth_line st p Hp Hoff). cbv zeta. fold l. fold sp.
  destruct (layoutLeft_strings sp (curr_y st) l 0 Hall) as [_ HL].
  assert (Hlen : length (fst (layoutLeft sp (curr_y st) l 0)) = n).
  { pose proof (layoutLeft_data sp (curr_y st) l 0) as Hd.
    now apply map_data_length in Hd. }
  assert (Hdx : GetCurrentLineDx st == sumWidths sp l - sp).
  { unfold GetCurrentLineDx. fold l. fold sp.
    pose proof (lineDx_strings sp l (- sp) Hall) as E.
    destruct (Qltb _ 0) eqn:Eb.
    - apply Qltb_true in Eb. rewrite E in Eb. lra.
    - rewrite E. lra. }
  rewrite Hlen.
  assert (H1n : (1 <? n)%nat = true) by (apply Nat.ltb_lt; lia).
  rewrite H1n.
  set (e := (pageSize_dx st - GetCurrentLineDx st)
            / inject_Z (Z.of_nat (n - 1))).
  assert (He : e == gap).
  { unfold e, gap, margin. now rewrite Hdx. }
  assert (Hn1 : 0 < inject_Z (Z.of_nat (n - 1))).
  { change 0 with (inject_Z 0). rewrite <- Zlt_Qlt. lia. }
  assert (Eg : inject_Z (Z.of_nat (n - 1)) * gap == margin).
  { unfold gap. field. lra. }
  clearbody gap e.
  destruct (HL k i Hk) as (i1 & G1 & G2 & G3 & G4 & _).
  assert (Hlast : k = (n - 1)%nat ->
            sumWidths sp (firstn k l) + Width (bbox i) == sumWidths sp l - sp).
  { intros ->.
    assert (Hsplit : l = firstn (n - 1) l ++ [i]).
    { rewrite <- (firstn_skipn (n - 1) l) at 1. f_equal.
      pose proof (nth_error_split l (n - 1) Hk) as (l1 & l2 & El & Hl1).
      rewrite El. rewrite skipn_app, Hl1, Nat.sub_diag. simpl.
      rewrite skipn_all2 by lia. simpl.
      assert (length l = n) by reflexivity.
      rewrite El, length_app in H. simpl in H.
      destruct l2; [reflexivity|simpl in H; lia]. }
    rewrite Hsplit at 2. rewrite sumWidths_app. simpl. lra. }
  destruct (fst (layoutLeft sp (curr_y st) l 0)) as [|c rest] eqn:El1;
    [destruct k; discriminate|].
  destruct k as [|k].
  - simpl in G1. injection G1 as <-. exists c.
    simpl firstn in *. simpl sumWidths in *.
    split; [reflexivity|]. split; [exact G2|]. split; [exact G3|].
    split; [rewrite G4; simpl; change (inject_Z 0) with 0; lra|].
    split; [intros _; rewrite G4; lra|].
    intros Hk0. lia.
  - simpl in G1. exists (addX (inject_Z (Z.of_nat (1 + k)) * e) i1).
    split; [simpl; now apply shiftFrom_nth|].
    split; [exact G2|]. split; [exact G3|].
    assert (HX : X (bbox (addX (inject_Z (Z.of_nat (1 + k)) * e) i1))
                 == sumWidths sp (firstn (S k) l)
                    + inject_Z (Z.of_nat (S k)) * gap).
    { unfold addX. cbn [X bbox]. change (1 + k)%nat with (S k).
      rewrite G4, He. lra. }
    split; [exact HX|]. split; [discriminate|].
    intros Hkn. rewrite HX. unfold addX. cbn [Width bbox]. rewrite G3.
    rewrite <- Hkn in Eg. rewrite Eg.
    specialize (Hlast Hkn). unfold margin. lra.
Qed.

(** ** The loop of [EmitText] ends within its bound *)

Section EmitTextBound.

Variable B : Backend.

Lemma SkipWs_length (s : chars) : (length (SkipWs B s) <= length s)%nat.
Proof.
  induction s as [|c r IH]; simpl; [lia|].
  destruct (IsWs B c); simpl; lia.
Qed.

Lemma SkipWs_head (s : chars) (c : ascii) (r : chars) :
  SkipWs B s = c :: r -> IsWs B c = false.
Proof.
  induction s as [|a s IH]; simpl; [discriminate|].
  destruct (IsWs B a) eqn:E; [exact IH|].
  intros H. injection H as <- _. exact E.
Qed.

Lemma SkipNonWs_length (s : chars) :
  (length (snd (SkipNonWs B s)) <= length s)%nat.
Proof.
  induction s as [|c r IH]; simpl; [lia|].
  destruct (IsWs B c); simpl; [lia|].
  destruct (SkipNonWs B r). simpl in *. lia.
Qed.

(** With [curr] at a character that is not white space, every bound that
    is at least the length of the span gives the same result: the loop has
    ended before the bound is reached. *)
Lemma emitWords_fuel (n m : nat) (curr : chars) (st : PageLayout) :
  match curr with c :: _ => IsWs B c = false | [] => True end ->
  (length curr <= n)%nat -> (length curr <= m)%nat ->
  emitWords B n curr st = emitWords B m curr st.
Proof.
  revert m curr st.
  induction n as [|n IH]; intros m curr st Hh Hn Hm.
  - destruct curr; [|simpl in Hn; lia]. now destruct m.
  - destruct m as [|m].
    { destruct curr; [reflexivity|simpl in Hm; lia]. }
    destruct curr as [|c r]; [reflexivity|].
    cbn [emitWords].
    pose proof (SkipNonWs_length r) as Hl.
    assert (E : SkipNonWs B (c :: r)
                = (c :: fst (SkipNonWs B r), snd (SkipNonWs B r))).
    { simpl. rewrite Hh. now destruct (SkipNonWs B r). }
    rewrite E.
    pose proof (SkipWs_length (snd (SkipNonWs B r))) as Hs.
    simpl in Hn, Hm.
    apply IH; try lia.
    destruct (SkipWs B (snd (SkipNonWs B r))) as [|a q] eqn:Eq; [exact I|].
    exact (SkipWs_head _ _ _ Eq).
Qed.

Lemma EmitText_bound (t : HtmlToken) (st : PageLayout) (n : nat) :
  (length (tokText t) <= n)%nat ->
  emitWords B (length (tokText t)) (SkipWs B (tokText t)) st
  = emitWords B n (SkipWs B (tokText t)) st.
Proof.
  intros Hn. pose proof (SkipWs_length (tokText t)) as Hl.
  apply emitWords_fuel; try lia.
  destruct (SkipWs B (tokText t)) as [|a q] eqn:Eq; [exact I|].
  exact (SkipWs_head _ _ _ Eq).
Qed.

End EmitTextBound.

(** ** Counting the rules *)

Lemma list_sum_one (p : PageData) :
  list_sum (map countRules [p]) = countRules p.
Proof. unfold list_sum. cbn [map fold_right]. lia. Qed.

Lemma totalRules_eq (st : PageLayout) :
  totalRules st = (list_sum (map countRules (emitted st))
                   + countRules (page st))%nat.
Proof.
  unfold totalRules. rewrite map_app, list_sum_app.
  now rewrite list_sum_one.
Qed.

Lemma totalRules_StartNewPage (st : PageLayout) :
  hasObserver st = true ->
  totalRules (StartNewPage st) = totalRules st.
Proof.
  intros Ho. rewrite !totalRules_eq, StartNewPage_eq.
  unfold hasObserver, emitted, page in *. simpl.
  destruct (pageObserver st) as [seen|]; [|discriminate].
  change (countRules [Instr.SetFont (currFont st)]) with 0%nat.
  destruct (currPage st) as [p|].
  - rewrite map_app, list_sum_app, list_sum_one. lia.
  - reflexivity.
Qed.

Lemma totalRules_StartNewLine (b : bool) (st : PageLayout) :
  wf st -> hasObserver st = true ->
  totalRules (StartNewLine b st) = totalRules st.
Proof.
  intros W Hobs. destruct (wf_page st W) as (i & p & Hp & Hh).
  pose proof (wf_offset st W) as Ho. unfold Count, page in Ho.
  rewrite Hp in Ho.
  destruct (StartNewLine_cases b st (i :: p) Hp (proj2 Ho))
    as [[_ ->]|[_ (p' & H1 & _ & ->)]]; [reflexivity|].
  cbv zeta.
  assert (E : totalRules (set_curr_y (curr_y st + lineSpacing st)
                            (touch 0 p' (length (i :: p)) st))
              = totalRules st).
  { rewrite !totalRules_eq. unfold emitted, page. simpl. rewrite Hp.
    now rewrite (map_data_rules _ _ H1). }
  destruct (Qltb _ _); [|exact E].
  rewrite totalRules_StartNewPage; [exact E|exact Hobs].
Qed.

Lemma totalRules_Append_Line (bb : RectF) (st : PageLayout) :
  wf st -> totalRules (Append (Instr.Line bb) st) = S (totalRules st).
Proof.
  intros W. destruct (wf_page st W) as (i & p & Hp & _).
  rewrite !totalRules_eq. unfold Append, emitted, page. rewrite Hp. simpl.
  unfold countRules. change (i :: p ++ [Instr.Line bb])
    with ((i :: p) ++ [Instr.Line bb]).
  rewrite filter_app, length_app. simpl. lia.
Qed.

(** ** Resizing an image, in exact arithmetic *)

Lemma Qdiv_lt_1 (a b : REAL) : 0 < b -> a < b -> a / b < 1.
Proof.
  intros Hb Hab. apply Qlt_shift_div_r; [exact Hb|]. lra.
Qed.

Lemma Qmult_div_le (a b c : REAL) : 0 < a -> a * minREAL (b / a) c <= b.
Proof.
  intros Ha.
  apply Qle_trans with (a * (b / a)).
  - apply Qmult_le_l; [exact Ha|apply minREAL_le_l].
  - assert (E : a * (b / a) == b) by (field; lra). rewrite E. apply Qle_refl.
Qed.

Lemma Qmult_div_le' (a b c : REAL) : 0 < a -> a * minREAL c (b / a) <= b.
Proof.
  intros Ha.
  apply Qle_trans with (a * (b / a)).
  - apply Qmult_le_l; [exact Ha|apply minREAL_le_r].
  - assert (E : a * (b / a) == b) by (field; lra). rewrite E. apply Qle_refl.
Qed.

(** What [resizeToFit] does to an image of positive size: nothing when it
    fits; otherwise both sides are multiplied by the smaller of the two
    fit ratios, which is below one, and then it fits. *)
Lemma resizeToFit_spec (st : PageLayout) (w h : REAL) :
  0 < w -> 0 < h ->
  let remaining := pageSize_dy st - curr_y st in
  let factor := minREAL (pageSize_dx st / w) (remaining / h) in
  let img := resizeToFit st (mkRectF 0 0 w h) in
  (pageSize_dx st < w \/ remaining < h ->
   Width img = w * factor /\ Height img = h * factor /\ factor < 1)
  /\ (w <= pageSize_dx st -> h <= remaining ->
      Width img = w /\ Height img = h)
  /\ Width img <= pageSize_dx st
  /\ Height img <= remaining
  /\ Width img * h == Height img * w.
Proof.
  intros Hw Hh remaining factor img. unfold img, resizeToFit.
  cbn [Width Height X Y]. fold remaining. fold factor.
  destruct (Qltb (pageSize_dx st) w) eqn:E1; cbn [orb].
  - apply Qltb_true in E1. cbn [Width Height].
    split; [intros _; repeat split|split; [intros H; lra|]].
    + unfold factor. eapply Qle_lt_trans; [apply minREAL_le_l|].
      now apply Qdiv_lt_1.
    + split; [now apply Qmult_div_le|].
      split; [now apply Qmult_div_le'|ring].
  - apply Qltb_false in E1.
    destruct (Qltb remaining h) eqn:E2.
    + apply Qltb_true in E2. cbn [Width Height].
      split; [intros _; repeat split|split; [intros _ H; lra|]].
      * unfold factor. eapply Qle_lt_trans; [apply minREAL_le_r|].
        now apply Qdiv_lt_1.
      * split; [now apply Qmult_div_le|].
        split; [now apply Qmult_div_le'|ring].
    + apply Qltb_false in E2. cbn [Width Height].
      split; [intros [H|H]; lra|]. split; [now intros _ _|].
      split; [exact E1|]. split; [exact E2|ring].
Qed.

(** * Properties of the code *)

(** ** The font cache *)

Lemma chars_eqb_refl (a : chars) : FontCache.chars_eqb a a = true.
Proof. unfold FontCache.chars_eqb. now destruct (list_eq_dec ascii_dec a a). Qed.

Lemma chars_eqb_sym (a b : chars) :
  FontCache.chars_eqb a b = FontCache.chars_eqb b a.
Proof.
  unfold FontCache.chars_eqb.
  destruct (list_eq_dec ascii_dec a b), (list_eq_dec ascii_dec b a);
    congruence.
Qed.

Lemma Entry_eqb_refl (e : FontCache.Entry) : FontCache.Entry_eqb e e = true.
Proof.
  unfold FontCache.Entry_eqb.
  rewrite Z.eqb_refl, chars_eqb_refl.
  assert (H : Qeq_bool (FontCache.size e) (FontCache.size e) = true)
    by (apply Qeq_bool_iff; reflexivity).
  now rewrite H.
Qed.

Lemma Qeq_bool_sym (a b : REAL) : Qeq_bool a b = Qeq_bool b a.
Proof.
  destruct (Qeq_bool a b) eqn:E1, (Qeq_bool b a) eqn:E2; try reflexivity.
  - apply Qeq_bool_iff in E1. symmetry in E1. apply Qeq_bool_iff in E1.
    congruence.
  - apply Qeq_bool_iff in E2. symmetry in E2. apply Qeq_bool_iff in E2.
    congruence.
Qed.

Lemma Entry_eqb_sym (a b : FontCache.Entry) :
  FontCache.Entry_eqb a b = FontCache.Entry_eqb b a.
Proof.
  unfold FontCache.Entry_eqb.
  now rewrite Qeq_bool_sym, Z.eqb_sym, chars_eqb_sym.
Qed.

Lemma find_app_some {A : Type} (f : A -> bool) (l m : list A) (e : A) :
  find f l = Some e -> find f (l ++ m) = Some e.
Proof.
  induction l as [|a l IH]; simpl; [discriminate|].
  destruct (f a); [auto|exact IH].
Qed.

Lemma find_app_none {A : Type} (f : A -> bool) (l m : list A) :
  find f l = None -> find f (l ++ m) = find f m.
Proof.
  induction l as [|a l IH]; simpl; [reflexivity|].
  destruct (f a); [discriminate|exact IH].
Qed.

Lemma GetFont_found (status : chars -> REAL -> FontStyle -> Status)
    (cache : list FontCache.Entry) (nm : chars) (sz : REAL) (fs : FontStyle) :
  exists e,
    find (FontCache.Entry_eqb
            (FontCache.mkEntry nm sz fs (FontCache.newFont status nm sz fs)))
      (snd (FontCache.GetFont status cache nm sz fs)) = Some e
    /\ FontCache.font e = fst (FontCache.GetFont status cache nm sz fs).
Proof.
  unfold FontCache.GetFont.
  set (k := FontCache.mkEntry nm sz fs (FontCache.newFont status nm sz fs)).
  destruct (find (FontCache.Entry_eqb k) cache) as [e|] eqn:E; simpl.
  - now exists e.
  - exists k. split; [|reflexivity].
    rewrite (find_app_none _ _ _ E). simpl. now rewrite Entry_eqb_refl.
Qed.

(** X3.  The cache holds one handle for a triple: when no two of its
    entries have the same (name, size, style), none have after a
    request. *)
Theorem GetFont_keeps_keys_distinct
    (status : chars -> REAL -> FontStyle -> Status)
    (cache : list FontCache.Entry) (nm : chars) (sz : REAL) (fs : FontStyle) :
  distinctKeys cache ->
  distinctKeys (snd (FontCache.GetFont status cache nm sz fs)).
Proof.
  intros H. unfold FontCache.GetFont.
  set (k := FontCache.mkEntry nm sz fs (FontCache.newFont status nm sz fs)).
  destruct (find (FontCache.Entry_eqb k) cache) eqn:E; simpl; [exact H|].
  pose proof (find_none _ _ E) as Hn. clear E.
  induction cache as [|a c IH]; simpl in *.
  - split; [constructor|exact I].
  - destruct H as [Ha Hc]. split.
    + apply Forall_app. split; [exact Ha|]. constructor; [|constructor].
      rewrite Entry_eqb_sym. apply Hn. now left.
    + apply IH; [exact Hc|]. intros x Hx. apply Hn. now right.
Qed.

Lemma GetFont_keeps_keys_distinct_witness :
  distinctKeys
    (snd (FontCache.GetFont demoFonts
            [FontCache.mkEntry (chars_of "Georgia") 10 FontStyleRegular
               (FontCache.newFont demoFonts (chars_of "Georgia") 10
                  FontStyleRegular)]
            (chars_of "Georgia") 10 FontStyleBold)).
Proof.
  apply GetFont_keeps_keys_distinct.
  simpl. split; [constructor|exact I].
Defined.

(** ** The word iterator, further *)

(** The iteration over "foo bar" ends within eight calls. *)
Lemma tokens_handled_witness :
  exists ws,
    WordsIter.tokens 8 (chars_of "foo bar") = Some ws
    /\ Forall WordsIter.goodToken ws.
Proof.
  apply (WordsIterFacts.tokens_handled 8 (chars_of "foo bar")).
  - vm_compute. reflexivity.
  - vm_compute. lia.
Defined.

Lemma length_neq_S (r : chars) : (length r =? S (length r))%nat = false.
Proof. apply Nat.eqb_neq. lia. Qed.

Lemma length_neq_SS (r : chars) : (length r =? S (S (length r)))%nat = false.
Proof. apply Nat.eqb_neq. lia. Qed.

Lemma Next_lf (r : chars) :
  WordsIter.Next (ch_lf :: r) = (Some [ch_lf], r).
Proof.
  unfold WordsIter.Next, WordsIter.IsNewlineSkip. simpl.
  now rewrite length_neq_S.
Qed.

Lemma Next_crlf (r : chars) :
  WordsIter.Next (ch_cr :: ch_lf :: r) = (Some [ch_lf], r).
Proof.
  unfold WordsIter.Next, WordsIter.IsNewlineSkip. simpl.
  now rewrite length_neq_SS.
Qed.

Lemma Next_cr_cr (r : chars) :
  WordsIter.Next (ch_cr :: ch_cr :: r) = (Some [ch_lf], ch_cr :: r).
Proof.
  unfold WordsIter.Next, WordsIter.IsNewlineSkip. simpl.
  now rewrite length_neq_S.
Qed.

Lemma tokens_S (k : nat) (s : chars) :
  WordsIter.tokens (S k) s
  = match WordsIter.Next s with
    | (None, _) => Some []
    | (Some w, c') =>
        match WordsIter.tokens k c' with
        | Some ws => Some (w :: ws)
        | None => None
        end
    end.
Proof. reflexivity. Qed.

(** X5.  Line ends that follow one another are not merged: [n] times
    "\n", [n] times "\r\n" and [n] times "\r" are [n] newline tokens
    each. *)
Theorem tokens_newlines_not_merged (n : nat) :
  WordsIter.tokens (S n) (repeat ch_lf n) = Some (repeat [ch_lf] n)
  /\ WordsIter.tokens (S n) (concat (repeat [ch_cr; ch_lf] n))
     = Some (repeat [ch_lf] n)
  /\ WordsIter.tokens (S n) (repeat ch_cr n) = Some (repeat [ch_lf] n).
Proof.
  split; [|split].
  - induction n as [|n IH]; [reflexivity|].
    rewrite tokens_S. cbn [repeat]. now rewrite Next_lf, IH.
  - induction n as [|n IH]; [reflexivity|].
    rewrite tokens_S. cbn [repeat concat app]. now rewrite Next_crlf, IH.
  - induction n as [|n IH]; [reflexivity|].
    rewrite tokens_S. destruct n as [|n]; [reflexivity|].
    cbn [repeat]. rewrite Next_cr_cr.
    cbn [repeat] in IH. now rewrite IH.
Qed.

Lemma nonSpaces_skipSpaces (s : chars) :
  nonSpaces (WordsIter.skipSpaces s) = nonSpaces s.
Proof.
  induction s as [|c r IH]; [reflexivity|]. simpl.
  destruct (Ascii.eqb c ch_space) eqn:E; [|reflexivity].
  apply Ascii.eqb_eq in E. subst c. exact IH.
Qed.

Lemma nonSpaces_word (w : chars) :
  forallb (fun c => negb (isspace c)) w = true -> nonSpaces w = w.
Proof.
  induction w as [|c r IH]; [reflexivity|]. simpl.
  intros H. apply andb_true_iff in H as [Hc Hr].
  rewrite Hc. now rewrite (IH Hr).
Qed.

Lemma word_not_newline (w : chars) :
  forallb (fun c => negb (isspace c)) w = true -> IsNewline w = false.
Proof.
  destruct w as [|c r]; [reflexivity|]. simpl.
  intros H. apply andb_true_iff in H as [Hc _].
  unfold IsNewline. simpl.
  destruct (Ascii.eqb c ch_lf) eqn:E; [|now rewrite andb_false_r].
  apply Ascii.eqb_eq in E. subst c. discriminate.
Qed.

(** The test [s != os] of [IsNewlineSkip] when [s] has moved. *)
Ltac shorter :=
  match goal with
  | |- context [negb (?a =? ?b)%nat] =>
      replace (negb (a =? b)%nat) with true
        by (symmetry; apply negb_true_iff, Nat.eqb_neq; simpl; lia)
  end.

(** One call of [Next] passes over white space and, for a word, over the
    characters of the word. *)
Lemma Next_chars (s : chars) :
  match WordsIter.Next s with
  | (Some w, s') =>
      nonSpaces s = (if IsNewline w then [] else w) ++ nonSpaces s'
  | (None, s') => nonSpaces s = [] /\ s' = []
  end.
Proof.
  unfold WordsIter.Next. rewrite <- (nonSpaces_skipSpaces s).
  destruct (WordsIter.skipSpaces s) as [|c r]; [now split|].
  unfold WordsIter.IsNewlineSkip.
  destruct (Ascii.eqb ch_cr c) eqn:Ecr.
  - apply Ascii.eqb_eq in Ecr. subst c.
    destruct r as [|c2 r2]; [reflexivity|].
    destruct (Ascii.eqb ch_lf c2) eqn:Elf.
    + apply Ascii.eqb_eq in Elf. subst c2. shorter. reflexivity.
    + shorter. reflexivity.
  - destruct (Ascii.eqb ch_lf c) eqn:Elf.
    + apply Ascii.eqb_eq in Elf. subst c. shorter. reflexivity.
    + rewrite Nat.eqb_refl. cbn [negb].
      pose proof (WordsIterFacts.skipWord_split (c :: r)) as [Hs Ha].
      destruct (WordsIter.skipWord (c :: r)) as [w rest]. simpl in Hs, Ha.
      rewrite (word_not_newline w Ha).
      rewrite Hs at 1. unfold nonSpaces. rewrite filter_app.
      fold (nonSpaces w). now rewrite (nonSpaces_word w Ha).
Qed.

(** X6.  No character is lost or added: when the iteration has ended,
    the characters of the words it returned, in order, are the characters
    of the span that are not white space. *)
Theorem tokens_chars (fuel : nat) (s : chars) (ws : list WordInfo) :
  WordsIter.tokens fuel s = Some ws ->
  wordChars ws = nonSpaces s.
Proof.
  revert s ws. induction fuel as [|k IH]; intros s ws; [discriminate|].
  rewrite tokens_S. pose proof (Next_chars s) as H.
  destruct (WordsIter.Next s) as [[w|] s'].
  - destruct (WordsIter.tokens k s') as [ws'|] eqn:E; [|discriminate].
    intros Hw. injection Hw as <-. unfold wordChars. cbn [flat_map].
    fold (wordChars ws'). rewrite (IH _ _ E). now rewrite H.
  - intros Hw. injection Hw as <-. destruct H as [H _]. now rewrite H.
Qed.

Lemma tokens_chars_witness :
  wordChars [chars_of "foo"; [ch_lf]; chars_of "bar"]
  = nonSpaces (chars_of "foo" ++ [ch_cr; ch_lf] ++ chars_of " bar ").
Proof.
  apply (tokens_chars 5). vm_compute. reflexivity.
Defined.

(** ** Left, right and centred lines *)

Lemma wordsWidth_app (sp : REAL) (l1 l2 : list DrawInstr) :
  wordsWidth sp (l1 ++ l2) == wordsWidth sp l1 + wordsWidth sp l2.
Proof.
  induction l1 as [|i r IH]; simpl; [lra|].
  destruct (isString i); rewrite IH; lra.
Qed.

Lemma wordsWidth_noWords (sp : REAL) (l : list DrawInstr) :
  noWords l = true -> wordsWidth sp l == 0.
Proof.
  induction l as [|i r IH]; simpl; [lra|].
  intros H. apply andb_true_iff in H as [Hi Hr].
  apply negb_true_iff in Hi. rewrite Hi. exact (IH Hr).
Qed.

Lemma lineDx_words (sp : REAL) (l : list DrawInstr) (dx : REAL) :
  lineDx sp l dx == dx + wordsWidth sp l.
Proof.
  revert dx. induction l as [|i r IH]; intros dx; simpl; [lra|].
  rewrite IH. destruct (isString i); lra.
Qed.

Lemma layoutLeft_x (sp y : REAL) (l : list DrawInstr) (x : REAL) :
  snd (layoutLeft sp y l x) == x + wordsWidth sp l.
Proof.
  revert x. induction l as [|i r IH]; intros x; simpl; [lra|].
  destruct (isString i).
  - specialize (IH (x + (Width (bbox i) + sp))).
    destruct (layoutLeft sp y r _). simpl in *. rewrite IH. lra.
  - specialize (IH x). destruct (layoutLeft sp y r _). simpl in *. exact IH.
Qed.

Lemma layoutLeft_app (sp y : REAL) (l1 l2 : list DrawInstr) (x : REAL) :
  layoutLeft sp y (l1 ++ l2) x
  = (fst (layoutLeft sp y l1 x)
       ++ fst (layoutLeft sp y l2 (snd (layoutLeft sp y l1 x))),
     snd (layoutLeft sp y l2 (snd (layoutLeft sp y l1 x)))).
Proof.
  revert x. induction l1 as [|i r IH]; intros x; simpl.
  - now destruct (layoutLeft sp y l2 x).
  - destruct (isString i).
    + rewrite IH. destruct (layoutLeft sp y r _). reflexivity.
    + rewrite IH. destruct (layoutLeft sp y r _). reflexivity.
Qed.

Lemma layoutLeft_length (sp y : REAL) (l : list DrawInstr) (x : REAL) :
  length (fst (layoutLeft sp y l x)) = length l.
Proof.
  pose proof (layoutLeft_data sp y l x) as H.
  now apply map_data_length in H.
Qed.

(** The word after [l1] in the left layout of a line. *)
Lemma layoutLeft_word (sp y : REAL) (l1 l2 : list DrawInstr) (i : DrawInstr)
    (x : REAL) :
  isString i = true ->
  nth_error (fst (layoutLeft sp y (l1 ++ i :: l2) x)) (length l1)
  = Some (setXY (snd (layoutLeft sp y l1 x)) y i).
Proof.
  intros Hi. rewrite layoutLeft_app. cbn [fst].
  rewrite nth_error_app2 by (rewrite layoutLeft_length; lia).
  rewrite layoutLeft_length, Nat.sub_diag. simpl. rewrite Hi.
  now destruct (layoutLeft sp y l2 _).
Qed.

(** The page [JustifyLine] leaves in the modes left, right and center. *)
Lemma JustifyLine_plain_page (mode : AlignAttr) (st : PageLayout)
    (p : PageData) :
  currPage st = Some p ->
  IsCurrentLineEmpty st = false ->
  plainMode mode = true ->
  page (JustifyLine mode st)
  = firstn (currLineInstrOffset st) p
      ++ fst (layoutLeft (spaceDx st) (curr_y st)
                (skipn (currLineInstrOffset st) p) (lineStart mode st)).
Proof.
  intros Hp He Hm. unfold JustifyLine. rewrite He.
  assert (H : forall offX,
            page (set_currLineInstrOffset
                    (Count (LayoutLeftStartingAt offX st))
                    (LayoutLeftStartingAt offX st))
            = firstn (currLineInstrOffset st) p
                ++ fst (layoutLeft (spaceDx st) (curr_y st)
                          (skipn (currLineInstrOffset st) p) offX)).
  { intros offX. rewrite (LayoutLeftStartingAt_touch offX st p Hp).
    reflexivity. }
  destruct mode; try discriminate; apply H.
Qed.

Lemma GetCurrentLineDx_words (st : PageLayout) :
  0 <= wordsWidth (spaceDx st) (GetInstructionsForCurrentLine st)
       - spaceDx st ->
  GetCurrentLineDx st
  == wordsWidth (spaceDx st) (GetInstructionsForCurrentLine st) - spaceDx st.
Proof.
  intros H. unfold GetCurrentLineDx.
  pose proof (lineDx_words (spaceDx st) (GetInstructionsForCurrentLine st)
                (- spaceDx st)) as E.
  destruct (Qltb _ 0) eqn:Eb.
  - apply Qltb_true in Eb. rewrite E in Eb. lra.
  - rewrite E. lra.
Qed.

(** Where a word of the line is after [JustifyLine] in the modes left,
    right and center. *)
Lemma JustifyLine_word_at (mode : AlignAttr) (st : PageLayout) (p : PageData)
    (l1 l2 : list DrawInstr) (i : DrawInstr) :
  currPage st = Some p ->
  (currLineInstrOffset st <= length p)%nat ->
  GetInstructionsForCurrentLine st = l1 ++ i :: l2 ->
  isString i = true ->
  plainMode mode = true ->
  exists i',
    nth_error (page (JustifyLine mode st))
      (currLineInstrOffset st + length l1) = Some i'
    /\ shape i' = shape i
    /\ Y (bbox i') = curr_y st
    /\ X (bbox i') == lineStart mode st + wordsWidth (spaceDx st) l1.
Proof.
  intros Hp Hoff Hl Hi Hm.
  assert (Hl' : skipn (currLineInstrOffset st) p = l1 ++ i :: l2).
  { unfold GetInstructionsForCurrentLine, page in Hl. now rewrite Hp in Hl. }
  assert (He : IsCurrentLineEmpty st = false).
  { unfold IsCurrentLineEmpty, Count, page. rewrite Hp.
    apply Nat.eqb_neq. intros E.
    rewrite E, skipn_all in Hl'. now destruct l1. }
  rewrite (JustifyLine_plain_page mode st p Hp He Hm), Hl'.
  rewrite nth_error_app2 by (rewrite length_firstn; lia).
  rewrite length_firstn, Nat.min_l by exact Hoff.
  replace (currLineInstrOffset st + length l1 - currLineInstrOffset st)%nat
    with (length l1) by lia.
  rewrite (layoutLeft_word _ _ l1 l2 i _ Hi).
  eexists. split; [reflexivity|]. split; [reflexivity|].
  split; [reflexivity|]. simpl. apply layoutLeft_x.
Qed.

(** X7.  In the modes left, right and center a word of the line keeps its
    text and the size of its box, gets the height of the cursor, and
    starts where the line starts plus the widths of the words before it,
    each with one space: 0 for the first word of a line to the left. *)
Theorem JustifyLine_places_words (mode : AlignAttr) (st : PageLayout)
    (p : PageData) (l1 l2 : list DrawInstr) (i : DrawInstr) :
  currPage st = Some p ->
  (currLineInstrOffset st <= length p)%nat ->
  GetInstructionsForCurrentLine st = l1 ++ i :: l2 ->
  isString i = true ->
  plainMode mode = true ->
  exists i',
    nth_error (page (JustifyLine mode st))
      (currLineInstrOffset st + length l1) = Some i'
    /\ shape i' = shape i
    /\ Y (bbox i') = curr_y st
    /\ X (bbox i') == lineStart mode st + wordsWidth (spaceDx st) l1
    /\ (mode = Align_Left -> noWords l1 = true -> X (bbox i') == 0).
Proof.
  intros Hp Hoff Hl Hi Hm.
  destruct (JustifyLine_word_at mode st p l1 l2 i Hp Hoff Hl Hi Hm)
    as (i' & H1 & H2 & H3 & H4).
  exists i'. repeat (split; [assumption|]).
  intros -> Hn. rewrite H4, (wordsWidth_noWords _ _ Hn). simpl. lra.
Qed.

Lemma JustifyLine_places_words_witness :
  exists i',
    nth_error (page (JustifyLine Align_Center demoTwoWords))
      (currLineInstrOffset demoTwoWords + length [demoFoo]) = Some i'
    /\ shape i' = shape demoBar
    /\ Y (bbox i') = curr_y demoTwoWords
    /\ X (bbox i')
       == lineStart Align_Center demoTwoWords
          + wordsWidth (spaceDx demoTwoWords) [demoFoo]
    /\ (Align_Center = Align_Left -> noWords [demoFoo] = true ->
        X (bbox i') == 0).
Proof.
  apply (JustifyLine_places_words Align_Center demoTwoWords
           (page demoTwoWords) [demoFoo] [] demoBar).
  - vm_compute. reflexivity.
  - vm_compute. lia.
  - vm_compute. reflexivity.
  - reflexivity.
  - reflexivity.
Defined.

(** ** Justification moves boxes and nothing else *)

Lemma layoutLeft_shape (sp y : REAL) (l : list DrawInstr) (x : REAL) :
  map shape (fst (layoutLeft sp y l x)) = map shape l.
Proof.
  revert x. induction l as [|i r IH]; intros x; simpl; [reflexivity|].
  destruct (isString i).
  - specialize (IH (x + (Width (bbox i) + sp))).
    destruct (layoutLeft sp y r _) as [r' x']. simpl in *. now f_equal.
  - specialize (IH x).
    destruct (layoutLeft sp y r _) as [r' x']. simpl in *. now f_equal.
Qed.

Lemma shiftFrom_shape (e : REAL) (n : nat) (l : list DrawInstr) :
  map shape (shiftFrom e n l) = map shape l.
Proof.
  revert n. induction l as [|i r IH]; intros n; simpl; [reflexivity|].
  now rewrite IH.
Qed.

Lemma replace_line_shape (p : PageData) (off : nat) (l : list DrawInstr) :
  map shape l = map shape (skipn off p) ->
  map shape (firstn off p ++ l) = map shape p.
Proof.
  intros H. rewrite map_app, H, <- map_app. now rewrite firstn_skipn.
Qed.

(** The page after [JustifyLine]: the instructions before the line as
    they were, and the instructions of the line with their shapes. *)
Lemma JustifyLine_page_shape (mode : AlignAttr) (st : PageLayout)
    (p : PageData) :
  currPage st = Some p ->
  (currLineInstrOffset st <= length p)%nat ->
  map shape (page (JustifyLine mode st)) = map shape p
  /\ firstn (currLineInstrOffset st) (page (JustifyLine mode st))
     = firstn (currLineInstrOffset st) p.
Proof.
  intros Hp Hoff.
  destruct (JustifyLine_touch mode st p Hp Hoff) as (x' & p' & E & _ & F).
  split; [|now rewrite E].
  assert (Hpg : page st = p) by (unfold page; now rewrite Hp).
  destruct (IsCurrentLineEmpty st) eqn:Ee.
  { unfold JustifyLine. now rewrite Ee, Hpg. }
  destruct (plainMode mode) eqn:Em.
  { rewrite (JustifyLine_plain_page mode st p Hp Ee Em).
    apply replace_line_shape, layoutLeft_shape. }
  destruct mode; try discriminate.
  - unfold JustifyLine. rewrite Ee. cbv zeta.
    change (page (set_currLineInstrOffset (Count st) st)) with (page st).
    now rewrite Hpg.
  - unfold JustifyLine. rewrite Ee. cbv zeta.
    change (page (set_currLineInstrOffset (Count (JustifyLineBoth st))
                    (JustifyLineBoth st)))
      with (page (JustifyLineBoth st)).
    destruct (JustifyLineBoth_touch st p Hp Hoff) as (x2 & p2 & E2 & _ & F2).
    pose proof (JustifyLineBoth_line st p Hp Hoff) as L.
    rewrite E2 in L |- *.
    change (page (touch x2 p2 (currLineInstrOffset st) st)) with p2.
    change (GetInstructionsForCurrentLine
              (touch x2 p2 (currLineInstrOffset st) st))
      with (skipn (currLineInstrOffset st) p2) in L.
    rewrite <- (firstn_skipn (currLineInstrOffset st) p2), F2, L.
    apply replace_line_shape. cbv zeta.
    assert (Hl : GetInstructionsForCurrentLine st
                 = skipn (currLineInstrOffset st) p).
    { unfold GetInstructionsForCurrentLine. now rewrite Hpg. }
    rewrite Hl.
    pose proof (layoutLeft_shape (spaceDx st) (curr_y st)
                  (skipn (currLineInstrOffset st) p) 0) as S.
    destruct (fst (layoutLeft (spaceDx st) (curr_y st)
                     (skipn (currLineInstrOffset st) p) 0)) as [|c r];
      [exact S|].
    simpl in *. now rewrite shiftFrom_shape.
Qed.

(** X11.  [JustifyLine], in every mode, moves boxes of the current line
    and nothing else: every instruction of the page keeps its contents
    and the size of its box, the instructions before the line keep their
    positions too, the line is closed, and of the state only the cursor's
    x may differ. *)
Theorem JustifyLine_moves_boxes_only (mode : AlignAttr) (st : PageLayout)
    (p : PageData) :
  currPage st = Some p ->
  (currLineInstrOffset st <= length p)%nat ->
  let st' := JustifyLine mode st in
  map shape (page st') = map shape p
  /\ firstn (currLineInstrOffset st) (page st')
     = firstn (currLineInstrOffset st) p
  /\ currLineInstrOffset st' = Count st'
  /\ curr_y st' = curr_y st
  /\ newLinesCount st' = newLinesCount st
  /\ pageObserver st' = pageObserver st
  /\ sameSetup st st'.
Proof.
  intros Hp Hoff st'.
  destruct (JustifyLine_page_shape mode st p Hp Hoff) as [S F].
  fold st' in S, F. split; [exact S|]. split; [exact F|].
  destruct (JustifyLine_touch mode st p Hp Hoff) as (x' & p' & E & D & _).
  subst st'. rewrite E. unfold Count, page. simpl.
  split; [now rewrite (map_data_length _ _ D)|].
  repeat (split; [reflexivity|]). now constructor.
Qed.

Lemma JustifyLine_moves_boxes_only_witness :
  let st' := JustifyLine Align_Justify demoTwoWords in
  map shape (page st') = map shape (page demoTwoWords)
  /\ firstn (currLineInstrOffset demoTwoWords) (page st')
     = firstn (currLineInstrOffset demoTwoWords) (page demoTwoWords)
  /\ currLineInstrOffset st' = Count st'
  /\ curr_y st' = curr_y demoTwoWords
  /\ newLinesCount st' = newLinesCount demoTwoWords
  /\ pageObserver st' = pageObserver demoTwoWords
  /\ sameSetup demoTwoWords st'.
Proof.
  apply (JustifyLine_moves_boxes_only Align_Justify demoTwoWords
           (page demoTwoWords)).
  - vm_compute. reflexivity.
  - vm_compute. lia.
Defined.

(** X12.  The width of the current line is never negative: it is the
    width of its words with one space between each two, or 0 when that is
    negative, as it is for a line without words when the space is
    positive. *)
Theorem GetCurrentLineDx_value (st : PageLayout) :
  let w := wordsWidth (spaceDx st) (GetInstructionsForCurrentLine st)
           - spaceDx st in
  0 <= GetCurrentLineDx st
  /\ (GetCurrentLineDx st == w \/ (w < 0 /\ GetCurrentLineDx st == 0)).
Proof.
  cbv zeta. unfold GetCurrentLineDx.
  pose proof (lineDx_words (spaceDx st) (GetInstructionsForCurrentLine st)
                (- spaceDx st)) as E.
  destruct (Qltb _ 0) eqn:Eb.
  - apply Qltb_true in Eb. split; [lra|]. right. split; [|reflexivity].
    rewrite E in Eb. lra.
  - apply Qltb_false in Eb. split; [exact Eb|]. left. rewrite E. lra.
Qed.

(** ** The engine as steps *)

Section Chains.

Variable R : PageLayout -> list InstrData -> PageLayout -> Prop.

Lemma chain_trans (a b c : PageLayout) (o1 o2 : list InstrData) :
  chain R a o1 b -> chain R b o2 c -> chain R a (o1 ++ o2) c.
Proof.
  intros H1 H2. induction H1 as [st|st o st1 os st2 Hs Hc IH]; [exact H2|].
  rewrite <- app_assoc. apply (chain_cons R st o st1); [exact Hs|].
  now apply IH.
Qed.

Lemma chain_one (a b : PageLayout) (o : list InstrData) :
  R a o b -> chain R a o b.
Proof.
  intros H. rewrite <- (app_nil_r o).
  apply (chain_cons R a o b); [exact H|constructor].
Qed.

Lemma chain_app0l (a b c : PageLayout) (o : list InstrData) :
  chain R a [] b -> chain R b o c -> chain R a o c.
Proof. intros H1 H2. exact (chain_trans a b c [] o H1 H2). Qed.

Lemma chain_app0r (a b c : PageLayout) (o : list InstrData) :
  chain R a o b -> chain R b [] c -> chain R a o c.
Proof.
  intros H1 H2. rewrite <- (app_nil_r o). exact (chain_trans a b c _ _ H1 H2).
Qed.

End Chains.

Lemma chain_step (B : Backend) (a b : PageLayout) (o : list InstrData) :
  chain (prim B) a o b -> chain (step B) a o b.
Proof.
  intros H. induction H as [st|st o st1 os st2 Hs Hc IH]; [constructor|].
  apply (chain_cons _ st o st1); [now constructor|exact IH].
Qed.

Section EngineChains.

Variable B : Backend.

Lemma chain_JustifyLine (mode : AlignAttr) (st : PageLayout) :
  wf st -> chain (prim B) st [] (JustifyLine mode st).
Proof.
  intros W. destruct (wf_page st W) as (i & p & Hp & _).
  pose proof (wf_offset st W) as Ho. unfold Count, page in Ho.
  rewrite Hp in Ho.
  destruct (JustifyLine_touch mode st _ Hp (proj2 Ho)) as (x & p' & -> & D & _).
  apply chain_one. now apply (prim_boxes B st (i :: p)).
Qed.

Lemma chain_StartNewLine (b : bool) (st : PageLayout) :
  wf st -> chain (prim B) st [] (StartNewLine b st).
Proof.
  intros W. destruct (wf_page st W) as (i & p & Hp & _).
  pose proof (wf_offset st W) as Ho. unfold Count, page in Ho.
  rewrite Hp in Ho.
  destruct (StartNewLine_cases b st (i :: p) Hp (proj2 Ho))
    as [[_ ->]|[_ (p' & D & _ & ->)]]; [constructor|].
  cbv zeta.
  assert (C1 : chain (prim B) st []
                 (set_curr_y (curr_y st + lineSpacing st)
                    (touch 0 p' (length (i :: p)) st))).
  { apply (chain_app0l _ _ (touch 0 p' (length (i :: p)) st)).
    - apply chain_one. now apply (prim_boxes B st (i :: p)).
    - apply chain_one. constructor. }
  destruct (Qltb _ _); [|exact C1].
  apply (chain_app0r _ _ _ _ _ C1). apply chain_one. constructor.
Qed.

Lemma chain_maybe_page (c : bool) (st : PageLayout) :
  chain (prim B) st [] (if c then StartNewPage st else st).
Proof. destruct c; [apply chain_one|]; constructor. Qed.

Lemma wf_set_x0 (st : PageLayout) : wf st -> wf (set_curr_x 0 st).
Proof.
  intros [H1 H2 H3 H4]. constructor; try assumption. intros _. reflexivity.
Qed.

Lemma wf_maybe_page (c : bool) (st : PageLayout) :
  wf st -> wf (if c then StartNewPage st else st).
Proof. intros W. destruct c; [now apply wf_StartNewPage|exact W]. Qed.

Lemma chain_AddHr (st : PageLayout) :
  wf st -> chain (prim B) st [DLine] (AddHr st).
Proof.
  intros W. unfold AddHr.
  pose proof (wf_StartNewLine true st W) as W1.
  pose proof (chain_StartNewLine true st W) as C1.
  set (s1 := StartNewLine true st) in *.
  pose proof (wf_set_x0 s1 W1) as W2.
  set (s2 := set_curr_x 0 s1) in *.
  set (c := Qltb (pageSize_dy s2) (curr_y s2 + lineSpacing s2)).
  pose proof (wf_maybe_page c s2 W2) as W3.
  pose proof (chain_maybe_page c s2) as C3.
  set (s3 := if c then StartNewPage s2 else s2) in *.
  cbv zeta.
  set (rule := Instr.Line (mkRectF (curr_x s3) (curr_y s3) (pageSize_dx s3)
                             (lineSpacing s3))).
  apply (chain_app0l _ _ s1 _ _ C1).
  apply (chain_app0l _ _ s2); [apply chain_one; constructor|].
  apply (chain_app0l _ _ s3 _ _ C3).
  apply (chain_app0r _ _ (Append rule s3)).
  - apply chain_one. now apply (prim_append B s3 rule).
  - apply chain_StartNewLine. now apply wf_Append.
Qed.

Lemma chain_placeImage (d : ImageData2) (w h : Z) (st : PageLayout) :
  chain (prim B) st [DImage d] (placeImage d w h st).
Proof.
  unfold placeImage.
  set (c := Qltb _ _).
  pose proof (chain_maybe_page c st) as C1.
  set (s1 := if c then StartNewPage st else st) in *.
  cbv zeta. set (img := resizeToFit s1 _).
  set (s2 := set_curr_x (curr_x s1 + (pageSize_dx s1 - Width img) / 2) s1).
  set (bb := mkRectF (curr_x s2) (curr_y s2) (Width img) (Height img)).
  apply (chain_app0l _ _ s1 _ _ C1).
  apply (chain_app0l _ _ s2); [apply chain_one; constructor|].
  apply (chain_app0r _ _ (Append (Instr.Image d bb) s2)).
  - apply chain_one. now apply (prim_append B s2 (Instr.Image d bb)).
  - apply chain_one. constructor.
Qed.

Lemma chain_AddImage (d : ImageData2) (st : PageLayout) :
  wf st -> chain (prim B) st (imageOut B d) (AddImage B d st).
Proof.
  intros W. unfold AddImage, imageOut.
  destruct (BitmapFromData B d) as [[w h]|]; [|constructor].
  pose proof (wf_StartNewLine false st W) as W1.
  apply (chain_app0l _ _ (StartNewLine false st));
    [now apply chain_StartNewLine|].
  apply (chain_app0r _ _ (placeImage d w h (StartNewLine false st)));
    [apply chain_placeImage|].
  apply chain_StartNewLine. now apply wf_placeImage.
Qed.

Lemma chain_ChangeFont (fs : FontStyle) (addStyle : bool) (st : PageLayout) :
  chain (prim B) st [] (ChangeFont B fs addStyle st).
Proof.
  unfold ChangeFont. set (ns := if addStyle then _ else _).
  destruct (ns =? _)%Z; [constructor|].
  apply chain_one. apply prim_font.
Qed.

Lemma chain_AddWord (wi : WordInfo) (st : PageLayout) :
  wf st -> chain (prim B) st (wordOut wi) (AddWord B wi st).
Proof.
  intros W. unfold AddWord, wordOut. destruct (IsNewline wi).
  - assert (W1 : wf (set_newLinesCount (wrapInt (newLinesCount st + 1)) st))
      by now apply (wf_ext st).
    apply (chain_app0l _ _
             (set_newLinesCount (wrapInt (newLinesCount st + 1)) st));
      [apply chain_one; constructor|].
    cbv zeta. destruct (_ =? _)%Z; [|constructor].
    destruct (negb _).
    + apply (chain_app0l _ _ (StartNewLine true
                                (set_newLinesCount (wrapInt (newLinesCount st + 1)) st)));
        apply chain_StartNewLine; [exact W1|now apply wf_StartNewLine].
    + now apply chain_StartNewLine.
  - assert (W1 : wf (set_newLinesCount 0 st)) by now apply (wf_ext st).
    set (s1 := set_newLinesCount 0 st) in *. cbv zeta.
    set (bb0 := MeasureText B (currFont s1) wi).
    set (c := Qltb _ _).
    assert (C2 : chain (prim B) s1 []
                   (if c then StartNewLine false s1 else s1)).
    { destruct c; [now apply chain_StartNewLine|constructor]. }
    set (s2 := if c then StartNewLine false s1 else s1) in *.
    apply (chain_app0l _ _ s1); [apply chain_one; constructor|].
    apply (chain_app0l _ _ s2 _ _ C2).
    apply (chain_app0r _ _ (Append (Instr.Str wi (setY (curr_y s2) bb0)) s2)).
    + apply chain_one.
      now apply (prim_append B s2 (Instr.Str wi (setY (curr_y s2) bb0))).
    + apply chain_one. constructor.
Qed.

Lemma chain_emitWords (fuel : nat) (curr : chars) (st : PageLayout) :
  wf st ->
  chain (prim B) st (flat_map wordOut (textWords B fuel curr))
    (emitWords B fuel curr st).
Proof.
  revert curr st. induction fuel as [|k IH]; intros curr st W; simpl;
    [constructor|].
  destruct curr as [|c r]; [constructor|].
  destruct (SkipNonWs B (c :: r)) as [w c1].
  rewrite flat_map_app.
  destruct (0 <? length w)%nat.
  - apply (chain_trans _ _ (AddWord B w st)).
    + simpl. rewrite app_nil_r. now apply chain_AddWord.
    + apply IH. now apply wf_AddWord.
  - simpl. now apply IH.
Qed.

Lemma chain_EmitText (t : HtmlToken) (st : PageLayout) :
  wf st ->
  chain (prim B) st (textOut B (tagNesting st) (tokText t)) (EmitText B t st).
Proof.
  intros W. unfold EmitText, textOut.
  destruct (existsb _ _); [constructor|]. now apply chain_emitWords.
Qed.

End EngineChains.

(** ** What every step keeps *)

Lemma visibleOf_app (a b : list PageData) :
  visibleOf (a ++ b) = visibleOf a ++ visibleOf b.
Proof. unfold visibleOf. now rewrite flat_map_app, filter_app. Qed.

Lemma visibleOf_one (p : PageData) :
  visibleOf [p] = filter (fun d => negb (isSetFont d)) (map data p).
Proof. unfold visibleOf. simpl. now rewrite app_nil_r. Qed.

Lemma observed_inv (st : PageLayout) :
  observed st ->
  exists p seen, currPage st = Some p /\ pageObserver st = Some seen.
Proof.
  intros [H1 H2]. unfold hasObserver in H2.
  destruct (currPage st) as [p|]; [|congruence].
  destruct (pageObserver st) as [seen|]; [|discriminate].
  now exists p, seen.
Qed.

Lemma visible_eq (st : PageLayout) (p : PageData) (seen : list PageData) :
  currPage st = Some p -> pageObserver st = Some seen ->
  visible st = visibleOf seen ++ visibleOf [p].
Proof.
  intros Hp Hs. unfold visible, emitted, page. rewrite Hp, Hs.
  apply visibleOf_app.
Qed.

Lemma observed_intro (st : PageLayout) (p : PageData)
    (seen : list PageData) :
  currPage st = Some p -> pageObserver st = Some seen -> observed st.
Proof.
  intros Hp Hs. split; [congruence|]. unfold hasObserver. now rewrite Hs.
Qed.

Section StepFacts.

Variable B : Backend.

Lemma prim_sameConfig (st st' : PageLayout) (o : list InstrData) :
  prim B st o st' -> sameConfig st st'.
Proof.
  intros H. destruct H; try (now constructor).
  - unfold AddSetFontInstr, Append, SetCurrentFont.
    destruct (FontCache.GetFont _ _ _ _ _). simpl.
    destruct (currPage st); now constructor.
  - unfold Append. destruct (currPage st); now constructor.
Qed.

Lemma prim_nesting_same (st st' : PageLayout) (o : list InstrData) :
  prim B st o st' ->
  tagNesting st' = tagNesting st
  /\ currJustification st' = currJustification st.
Proof.
  intros H. destruct H; try (now split).
  - unfold AddSetFontInstr, Append, SetCurrentFont.
    destruct (FontCache.GetFont _ _ _ _ _). simpl.
    destruct (currPage st); now split.
  - unfold Append. destruct (currPage st); now split.
Qed.

Lemma prim_handedOn (st st' : PageLayout) (o : list InstrData) :
  prim B st o st' -> handedOn st st'.
Proof.
  assert (Hsame : forall s s', pageObserver s' = pageObserver s ->
                               handedOn s s').
  { intros s s' E. unfold handedOn, hasObserver, emitted. rewrite E.
    split; [reflexivity|]. exists []. now rewrite app_nil_r. }
  intros H. destruct H; try (now apply Hsame).
  - rewrite StartNewPage_eq. unfold handedOn, hasObserver, emitted. simpl.
    destruct (currPage st) as [p|], (pageObserver st) as [seen|];
      split; try reflexivity.
    + now exists [p].
    + now exists [].
    + exists []. now rewrite app_nil_r.
    + now exists [].
  - apply Hsame. unfold AddSetFontInstr, Append, SetCurrentFont.
    destruct (FontCache.GetFont _ _ _ _ _). simpl.
    now destruct (currPage st).
  - apply Hsame. unfold Append. now destruct (currPage st).
Qed.

Lemma prim_visible (st st' : PageLayout) (o : list InstrData) :
  prim B st o st' -> observed st ->
  observed st' /\ visible st' = visible st ++ o.
Proof.
  intros H Ob. destruct (observed_inv st Ob) as (q & seen & Hq & Hs).
  rewrite (visible_eq st q seen Hq Hs).
  assert (Hsame : forall s', currPage s' = Some q ->
                    pageObserver s' = Some seen ->
                    observed s'
                    /\ visible s' = (visibleOf seen ++ visibleOf [q]) ++ []).
  { intros s' E1 E2. split; [now apply (observed_intro s' q seen)|].
    now rewrite (visible_eq s' q seen E1 E2), app_nil_r. }
  destruct H; try (now apply Hsame).
  - assert (E1 : currPage (StartNewPage st)
                 = Some [Instr.SetFont (currFont st)]) by reflexivity.
    assert (E2 : pageObserver (StartNewPage st) = Some (seen ++ [q])).
    { rewrite StartNewPage_eq. simpl. now rewrite Hq, Hs. }
    split; [now apply (observed_intro _ _ _ E1 E2)|].
    rewrite (visible_eq _ _ _ E1 E2), visibleOf_app, app_nil_r.
    change (visibleOf [[Instr.SetFont (currFont st)]]) with (@nil InstrData).
    now rewrite app_nil_r.
  - rewrite H in Hq. injection Hq as <-.
    split; [now apply (observed_intro (touch x p' n st) p' seen)|].
    rewrite (visible_eq (touch x p' n st) p' seen eq_refl Hs), app_nil_r.
    rewrite !visibleOf_one. now rewrite H0.
  - set (s1 := SetCurrentFont B fs st).
    assert (Hq1 : currPage s1 = Some q)
      by (unfold s1, SetCurrentFont;
          now destruct (FontCache.GetFont _ _ _ _ _)).
    assert (Hs1 : pageObserver s1 = Some seen)
      by (unfold s1, SetCurrentFont;
          now destruct (FontCache.GetFont _ _ _ _ _)).
    clearbody s1. unfold AddSetFontInstr, Append. rewrite Hq1.
    set (s' := set_currPage (Some (q ++ [Instr.SetFont (currFont s1)])) s1).
    split; [now apply (observed_intro s' _ seen eq_refl)|].
    rewrite (visible_eq s' _ seen eq_refl Hs1).
    rewrite !visibleOf_one, map_app, filter_app. simpl.
    now rewrite !app_nil_r.
  - unfold Append. rewrite Hq.
    set (s' := set_currPage (Some (q ++ [i])) st).
    split; [now apply (observed_intro s' _ seen eq_refl)|].
    rewrite (visible_eq s' _ seen eq_refl Hs).
    rewrite !visibleOf_one, map_app, filter_app. simpl.
    rewrite H. simpl. now rewrite app_assoc.
Qed.

Lemma GetFont_incl (cache : list FontCache.Entry) (nm : chars) (sz : REAL)
    (fs : FontStyle) :
  exists more,
    snd (FontCache.GetFont (FontCtorStatus B) cache nm sz fs) = cache ++ more.
Proof.
  unfold FontCache.GetFont. destruct (find _ cache); simpl.
  - exists []. now rewrite app_nil_r.
  - eexists. reflexivity.
Qed.

Lemma prim_cache_grows (st st' : PageLayout) (o : list InstrData) :
  prim B st o st' -> exists more, fontCache st' = fontCache st ++ more.
Proof.
  assert (Hsame : forall s s', fontCache s' = fontCache s ->
                    exists more, fontCache s' = fontCache s ++ more).
  { intros s s' E. exists []. now rewrite app_nil_r. }
  intros H. destruct H; try (now apply Hsame).
  - unfold AddSetFontInstr, Append, SetCurrentFont.
    destruct (GetFont_incl (fontCache st) (fontName st) (fontSize st) fs)
      as (more & E).
    destruct (FontCache.GetFont _ _ _ _ _) as [f c]. simpl in *.
    exists more. now destruct (currPage st).
  - apply Hsame. unfold Append. now destruct (currPage st).
Qed.

Lemma prim_fontCurrent (st st' : PageLayout) (o : list InstrData) :
  prim B st o st' -> fontCurrent B st -> fontCurrent B st'.
Proof.
  intros H F. destruct H; try exact F.
  - unfold fontCurrent, AddSetFontInstr, Append, SetCurrentFont.
    destruct (GetFont_found (FontCtorStatus B) (fontCache st) (fontName st)
                (fontSize st) fs) as (e & He & Hf).
    destruct (FontCache.GetFont _ _ _ _ _) as [f c]. simpl in *.
    exists e. now destruct (currPage st).
  - unfold Append. now destruct (currPage st).
Qed.

Lemma in_pages_data (pages : list PageData) (d : InstrData) :
  In d (flat_map (map data) pages) <->
  exists p, In p pages /\ In d (map data p).
Proof. apply in_flat_map. Qed.

Lemma Append_data_in (i : DrawInstr) (st : PageLayout) (d : InstrData) :
  In d (flat_map (map data)
          (emitted (Append i st) ++ [page (Append i st)])) ->
  In d (flat_map (map data) (emitted st ++ [page st])) \/ d = data i.
Proof.
  unfold Append. destruct (currPage st) as [p|] eqn:E; [|now left].
  unfold emitted, page. simpl. rewrite E.
  rewrite !flat_map_app. simpl. rewrite !app_nil_r, map_app.
  intros H. apply in_app_or in H as [H|H].
  - left. apply in_or_app. now left.
  - apply in_app_or in H as [H|H].
    + left. apply in_or_app. now right.
    + right. simpl in H. now destruct H as [H|[]].
Qed.

Lemma fontsOwned_same (st s' : PageLayout) :
  fontsOwned st ->
  fontCache s' = fontCache st -> currFont s' = currFont st ->
  (forall f, In (DSetFont f)
               (flat_map (map data) (emitted s' ++ [page s'])) ->
             In (DSetFont f)
               (flat_map (map data) (emitted st ++ [page st]))
             \/ f = currFont st) ->
  fontsOwned s'.
Proof.
  intros [Fc Fp] E1 E2 E3. split; rewrite E1; [now rewrite E2|].
  intros f Hf. destruct (E3 f Hf) as [H'| ->]; [now apply Fp|exact Fc].
Qed.

Lemma fontsOwned_SetCurrentFont (fs : FontStyle) (st : PageLayout) :
  fontsOwned st -> fontsOwned (SetCurrentFont B fs st).
Proof.
  intros [Fc Fp]. unfold SetCurrentFont.
  destruct (GetFont_incl (fontCache st) (fontName st) (fontSize st) fs)
    as (more & E).
  destruct (GetFont_found (FontCtorStatus B) (fontCache st) (fontName st)
              (fontSize st) fs) as (e & He & Hf).
  destruct (FontCache.GetFont _ _ _ _ _) as [f c]. simpl in *.
  split; simpl.
  - exists e. split; [|exact Hf]. now apply find_some in He.
  - intros g Hg. destruct (Fp g Hg) as (e' & I' & F').
    exists e'. split; [|exact F']. rewrite E. apply in_or_app. now left.
Qed.

Lemma prim_fontsOwned (st st' : PageLayout) (o : list InstrData) :
  prim B st o st' -> fontsOwned st -> fontsOwned st'.
Proof.
  intros H F. destruct H.
  - apply (fontsOwned_same st); try reflexivity; [exact F|]. intros f Hf.
    rewrite StartNewPage_eq in Hf. unfold emitted, page in *. simpl in Hf.
    rewrite flat_map_app in Hf. apply in_app_or in Hf as [Hf|Hf].
    + left. rewrite flat_map_app. apply in_or_app.
      destruct (currPage st) as [p|], (pageObserver st) as [seen|];
        simpl in *; try contradiction; try (now left).
      rewrite flat_map_app in Hf. apply in_app_or in Hf as [Hf|Hf];
        [now left|]. right. simpl in Hf. exact Hf.
    + simpl in Hf. destruct Hf as [Hf|[]]. right. now injection Hf.
  - apply (fontsOwned_same st); try reflexivity; [exact F|].
    intros f Hf. left.
    unfold emitted, page in *. simpl in Hf. rewrite H.
    rewrite flat_map_app in *. simpl in *. now rewrite <- H0.
  - apply (fontsOwned_same st); try reflexivity; [exact F|]. now left.
  - apply (fontsOwned_same st); try reflexivity; [exact F|]. now left.
  - apply (fontsOwned_same st); try reflexivity; [exact F|]. now left.
  - apply (fontsOwned_same (SetCurrentFont B fs st));
      [now apply fontsOwned_SetCurrentFont|..];
      try (unfold AddSetFontInstr, Append;
           now destruct (currPage (SetCurrentFont B fs st))).
    intros f Hf. apply Append_data_in in Hf as [Hf|Hf]; [now left|].
    right. now injection Hf.
  - apply (fontsOwned_same st); [exact F|..];
      try (unfold Append; now destruct (currPage st)).
    intros f Hf. apply Append_data_in in Hf as [Hf|Hf]; [now left|].
    rewrite <- Hf in H. discriminate.
Qed.

End StepFacts.

(** ** What every run of steps keeps *)

Lemma sameConfig_refl (st : PageLayout) : sameConfig st st.
Proof. now constructor. Qed.

Lemma sameConfig_trans (a b c : PageLayout) :
  sameConfig a b -> sameConfig b c -> sameConfig a c.
Proof. intros [] []. constructor; congruence. Qed.

Lemma handedOn_refl (st : PageLayout) : handedOn st st.
Proof. split; [reflexivity|]. exists []. now rewrite app_nil_r. Qed.

Lemma handedOn_same (s s' : PageLayout) :
  pageObserver s' = pageObserver s -> handedOn s s'.
Proof.
  intros E. unfold handedOn, hasObserver, emitted. rewrite E.
  split; [reflexivity|]. exists []. now rewrite app_nil_r.
Qed.

Lemma handedOn_trans (a b c : PageLayout) :
  handedOn a b -> handedOn b c -> handedOn a c.
Proof.
  intros [H1 (m1 & E1)] [H2 (m2 & E2)]. split; [congruence|].
  exists (m1 ++ m2). now rewrite E2, E1, <- app_assoc.
Qed.

Section ChainFacts.

Variable B : Backend.

Lemma step_sameConfig (st st' : PageLayout) (o : list InstrData) :
  step B st o st' -> sameConfig st st'.
Proof.
  intros [s o' s' H|s a|s l];
    [exact (prim_sameConfig B _ _ _ H)|now constructor..].
Qed.

Lemma step_handedOn (st st' : PageLayout) (o : list InstrData) :
  step B st o st' -> handedOn st st'.
Proof.
  intros [s o' s' H|s a|s l];
    [exact (prim_handedOn B _ _ _ H)|now apply handedOn_same..].
Qed.

Lemma step_visible (st st' : PageLayout) (o : list InstrData) :
  step B st o st' -> observed st ->
  observed st' /\ visible st' = visible st ++ o.
Proof.
  intros [s o' s' H|s a|s l] Ob;
    [exact (prim_visible B _ _ _ H Ob)| |];
    (split; [exact Ob|now rewrite app_nil_r]).
Qed.

Lemma step_cache_grows (st st' : PageLayout) (o : list InstrData) :
  step B st o st' -> exists more, fontCache st' = fontCache st ++ more.
Proof.
  intros [s o' s' H|s a|s l];
    [exact (prim_cache_grows B _ _ _ H)| |];
    (exists []; now rewrite app_nil_r).
Qed.

Lemma step_fontsOwned (st st' : PageLayout) (o : list InstrData) :
  step B st o st' -> fontsOwned st -> fontsOwned st'.
Proof.
  intros [s o' s' H|s a|s l] F;
    [exact (prim_fontsOwned B _ _ _ H F)|exact F..].
Qed.

Lemma step_fontCurrent (st st' : PageLayout) (o : list InstrData) :
  step B st o st' -> fontCurrent B st -> fontCurrent B st'.
Proof.
  intros [s o' s' H|s a|s l] F;
    [exact (prim_fontCurrent B _ _ _ H F)|exact F..].
Qed.

Lemma chain_inv (P : PageLayout -> Prop) (a b : PageLayout)
    (o : list InstrData) :
  (forall s o' s', step B s o' s' -> P s -> P s') ->
  chain (step B) a o b -> P a -> P b.
Proof.
  intros HP H. induction H as [st|st o st1 os st2 Hs Hc IH]; [easy|].
  intros Ha. apply IH. exact (HP _ _ _ Hs Ha).
Qed.

Lemma chain_sameConfig (a b : PageLayout) (o : list InstrData) :
  chain (step B) a o b -> sameConfig a b.
Proof.
  intros H. induction H as [st|st o st1 os st2 Hs Hc IH];
    [apply sameConfig_refl|].
  exact (sameConfig_trans _ _ _ (step_sameConfig _ _ _ Hs) IH).
Qed.

Lemma chain_handedOn (a b : PageLayout) (o : list InstrData) :
  chain (step B) a o b -> handedOn a b.
Proof.
  intros H. induction H as [st|st o st1 os st2 Hs Hc IH];
    [apply handedOn_refl|].
  exact (handedOn_trans _ _ _ (step_handedOn _ _ _ Hs) IH).
Qed.

Lemma chain_cache_grows (a b : PageLayout) (o : list InstrData) :
  chain (step B) a o b -> exists more, fontCache b = fontCache a ++ more.
Proof.
  intros H. induction H as [st|st o st1 os st2 Hs Hc IH].
  - exists []. now rewrite app_nil_r.
  - destruct (step_cache_grows _ _ _ Hs) as (m1 & E1).
    destruct IH as (m2 & E2). exists (m1 ++ m2).
    now rewrite E2, E1, <- app_assoc.
Qed.

Lemma chain_visible (a b : PageLayout) (o : list InstrData) :
  chain (step B) a o b -> observed a ->
  observed b /\ visible b = visible a ++ o.
Proof.
  intros H. induction H as [st|st o st1 os st2 Hs Hc IH]; intros Ob.
  - split; [exact Ob|now rewrite app_nil_r].
  - destruct (step_visible _ _ _ Hs Ob) as [Ob1 E1].
    destruct (IH Ob1) as [Ob2 E2]. split; [exact Ob2|].
    now rewrite E2, E1, <- app_assoc.
Qed.

Lemma chain_prim_nesting (a b : PageLayout) (o : list InstrData) :
  chain (prim B) a o b ->
  tagNesting b = tagNesting a
  /\ currJustification b = currJustification a.
Proof.
  intros H. induction H as [st|st o st1 os st2 Hs Hc IH]; [now split|].
  destruct (prim_nesting_same B _ _ _ Hs) as [E1 E2].
  destruct IH as [E3 E4]. split; congruence.
Qed.

(** The loops over the attributes of a tag. *)

Lemma chain_attrs_justification (t : HtmlToken) (st : PageLayout) :
  chain (step B) st []
    (attrLoop (fun a s =>
       if HasName B a "align"
       then set_currJustification (FindAlignAttr B (val a)) s
       else s) t st).
Proof.
  apply (attrLoop_inv (fun s => chain (step B) st [] s)).
  - intros a s H. destruct (HasName B a "align"); [|exact H].
    apply (chain_app0r _ _ s _ _ H). apply chain_one.
    apply step_justification.
  - constructor.
Qed.

Lemma attrs_justification_nesting (t : HtmlToken) (st : PageLayout) :
  tagNesting
    (attrLoop (fun a s =>
       if HasName B a "align"
       then set_currJustification (FindAlignAttr B (val a)) s
       else s) t st)
  = tagNesting st.
Proof.
  apply (attrLoop_inv (fun s => tagNesting s = tagNesting st));
    [|reflexivity].
  intros a s H. now destruct (HasName B a "align").
Qed.

Lemma wf_attrs_images (g : chars -> option ImageData2)
    (attrs : list AttrInfo) (st : PageLayout) :
  wf st ->
  chain (prim B) st
    (flat_map (fun a =>
       if HasName B a "src" || HasName B a "recindex" then
         match g (val a) with
         | Some d => imageOut B d
         | None => []
         end
       else []) attrs)
    (fold_left (fun s a =>
       if HasName B a "src" || HasName B a "recindex" then
         match g (val a) with
         | Some d => AddImage B d s
         | None => s
         end
       else s) attrs st).
Proof.
  revert st. induction attrs as [|a r IH]; intros st W; simpl;
    [constructor|].
  destruct (HasName B a "src" || HasName B a "recindex");
    [|now apply IH].
  destruct (g (val a)) as [d|]; [|now apply IH].
  apply (chain_trans _ _ (AddImage B d st)); [now apply chain_AddImage|].
  apply IH. now apply wf_AddImage.
Qed.

Lemma chain_HandleHtmlTag (t : HtmlToken) (doc : BaseEbookDoc)
    (st : PageLayout) :
  wf st ->
  chain (step B) st (tagOut B doc t) (HandleHtmlTag B t doc st).
Proof.
  intros W. unfold HandleHtmlTag, tagOut. cbv zeta.
  set (s0 := if IsStartTag t then set_tagNesting _ _ else _).
  assert (W0 : wf s0).
  { subst s0. destruct (IsStartTag t); [now apply (wf_ext st)|].
    destruct (IsEndTag t); [now apply (wf_ext st)|exact W]. }
  assert (C0 : chain (step B) st [] s0).
  { subst s0.
    destruct (IsStartTag t); [apply chain_one; apply step_nesting|].
    destruct (IsEndTag t); [apply chain_one; apply step_nesting|constructor]. }
  clearbody s0. apply (chain_app0l _ _ s0 _ _ C0).
  destruct (tokTag t);
    try (apply chain_step; apply chain_ChangeFont);
    try apply chain_nil.
  - apply chain_step. now apply chain_AddHr.
  - destruct (IsEndTag t); [constructor|].
    destruct doc as [g|]; [|constructor].
    apply chain_step. unfold attrLoop. now apply wf_attrs_images.
  - apply chain_step.
    apply (chain_app0l _ _ (JustifyLine (currJustification s0) s0));
      [now apply chain_JustifyLine|apply chain_one; constructor].
  - apply (chain_app0l _ _ (StartNewLine true s0));
      [apply chain_step; now apply chain_StartNewLine|].
    apply (chain_app0l _ _
             (set_currJustification Align_Justify (StartNewLine true s0)));
      [apply chain_one; apply step_justification|].
    destruct (IsStartTag t); [apply chain_attrs_justification|constructor].
  - apply chain_step.
    apply (chain_app0l _ _ (JustifyLine (currJustification s0) s0));
      [now apply chain_JustifyLine|apply chain_one; constructor].
Qed.

Lemma HandleHtmlTag_nesting (t : HtmlToken) (doc : BaseEbookDoc)
    (st : PageLayout) :
  wf st ->
  tagNesting (HandleHtmlTag B t doc st) = nestingAfter B t (tagNesting st).
Proof.
  intros W. unfold HandleHtmlTag, nestingAfter. cbv zeta.
  set (s0 := if IsStartTag t then set_tagNesting _ _ else _).
  assert (W0 : wf s0).
  { subst s0. destruct (IsStartTag t); [now apply (wf_ext st)|].
    destruct (IsEndTag t); [now apply (wf_ext st)|exact W]. }
  assert (E0 : tagNesting s0
               = if IsStartTag t
                 then RecordStartTag B (tagNesting st) (tokTag t)
                 else if IsEndTag t
                 then RecordEndTag B (tagNesting st) (tokTag t)
                 else tagNesting st).
  { subst s0. destruct (IsStartTag t); [reflexivity|].
    now destruct (IsEndTag t). }
  rewrite <- E0. clear E0. clearbody s0.
  destruct (tokTag t); try reflexivity;
    try (exact (proj1 (chain_prim_nesting _ _ _
                         (chain_ChangeFont B _ _ s0)))).
  - exact (proj1 (chain_prim_nesting _ _ _ (chain_AddHr B s0 W0))).
  - destruct (IsEndTag t); [reflexivity|].
    destruct doc as [g|]; [|reflexivity].
    exact (proj1 (chain_prim_nesting _ _ _
                    (wf_attrs_images g (tokAttrs t) s0 W0))).
  - change (tagNesting (StartNewPage (JustifyLine (currJustification s0) s0)))
      with (tagNesting (JustifyLine (currJustification s0) s0)).
    exact (proj1 (chain_prim_nesting _ _ _ (chain_JustifyLine B _ s0 W0))).
  - assert (E : tagNesting
                  (set_currJustification Align_Justify
                     (StartNewLine true s0)) = tagNesting s0)
      by exact (proj1 (chain_prim_nesting _ _ _
                         (chain_StartNewLine B true s0 W0))).
    destruct (IsStartTag t); [|exact E].
    now rewrite attrs_justification_nesting.
  - change (tagNesting (StartNewPage (JustifyLine (currJustification s0) s0)))
      with (tagNesting (JustifyLine (currJustification s0) s0)).
    exact (proj1 (chain_prim_nesting _ _ _ (chain_JustifyLine B _ s0 W0))).
Qed.

Lemma EmitText_nesting (t : HtmlToken) (st : PageLayout) :
  wf st -> tagNesting (EmitText B t st) = tagNesting st.
Proof.
  intros W. exact (proj1 (chain_prim_nesting _ _ _ (chain_EmitText B t st W))).
Qed.

Lemma chain_processTokens (toks : list HtmlToken) (doc : BaseEbookDoc)
    (st : PageLayout) :
  wf st ->
  chain (step B) st (tokensOut B doc toks (tagNesting st))
    (processTokens B toks doc st).
Proof.
  revert st. induction toks as [|t r IH]; intros st W; simpl; [constructor|].
  destruct (IsError t); [constructor|].
  destruct (IsTag t).
  - apply (chain_trans _ _ (HandleHtmlTag B t doc st));
      [now apply chain_HandleHtmlTag|].
    rewrite <- (HandleHtmlTag_nesting t doc st W).
    apply IH. now apply wf_HandleHtmlTag.
  - apply (chain_trans _ _ (EmitText B t st));
      [apply chain_step; now apply chain_EmitText|].
    rewrite <- (EmitText_nesting t st W).
    apply IH. now apply wf_EmitText.
Qed.

(** [LayoutHtml] as steps from the state it starts the tokens in. *)
Lemma chain_LayoutHtml (li : LayoutInfo) (doc : BaseEbookDoc)
    (toks : list HtmlToken) (cache : list FontCache.Entry)
    (registered : bool) :
  let observer := if registered then Some [] else None in
  let s0 := set_pageObserver observer (StartLayout B cache li) in
  wf s0
  /\ chain (step B) s0 (tokensOut B doc toks [])
       (LayoutHtml B li doc toks cache observer).
Proof.
  intros observer s0.
  assert (W0 : wf s0).
  { apply wf_set_pageObserver; [|apply wf_StartLayout].
    subst observer. destruct registered; constructor. }
  split; [exact W0|].
  pose proof (wf_processTokens B toks doc s0 W0) as W1.
  pose proof (wf_StartNewLine true _ W1) as W2.
  unfold LayoutHtml. rewrite Process_flushed; [|exact W2].
  unfold flushed. fold s0.
  apply (chain_app0r _ _ (processTokens B toks doc s0)).
  - assert (E : tagNesting s0 = []).
    { subst s0. unfold StartLayout.
      now destruct (FontCache.GetFont _ _ _ _ _). }
    rewrite <- E. now apply chain_processTokens.
  - apply chain_step.
    apply (chain_app0l _ _ (StartNewLine true (processTokens B toks doc s0)));
      [now apply chain_StartNewLine|apply chain_one; constructor].
Qed.

End ChainFacts.

(** ** The layout from its first token to its last page *)

Lemma StartLayout_eq (B : Backend) (cache : list FontCache.Entry)
    (li : LayoutInfo) :
  StartLayout B cache li
  = let fc := FontCache.GetFont (FontCtorStatus B) cache
                (li_fontName li) (li_fontSize li) FontStyleRegular in
    mkPageLayout None (snd fc)
      (inject_Z (li_pageSize_dx li)) (inject_Z (li_pageSize_dy li))
      (GetHeight B (fst fc)) (li_fontSize li / (5 # 2))
      (li_fontName li) (li_fontSize li) FontStyleRegular (fst fc)
      Align_Justify 0 0 0%Z (Some [Instr.SetFont (fst fc)]) [] 1%nat.
Proof.
  unfold StartLayout. destruct (FontCache.GetFont _ _ _ _ _) as [f c].
  reflexivity.
Qed.

Lemma visibleOf_SetFont (f : Font) : visibleOf [[Instr.SetFont f]] = [].
Proof. reflexivity. Qed.

Lemma LayoutHtml_page (B : Backend) (li : LayoutInfo) (doc : BaseEbookDoc)
    (toks : list HtmlToken) (cache : list FontCache.Entry)
    (registered : bool) :
  let s := LayoutHtml B li doc toks cache
             (if registered then Some [] else None) in
  currPage s = Some [Instr.SetFont (currFont s)].
Proof.
  intros s. subst s. unfold LayoutHtml. rewrite Process_flushed;
    [reflexivity|].
  unfold flushed. apply wf_StartNewLine, wf_processTokens.
  apply wf_set_pageObserver; [|apply wf_StartLayout].
  destruct registered; constructor.
Qed.

Lemma fontsOwned_StartLayout (B : Backend) (cache : list FontCache.Entry)
    (li : LayoutInfo) (observer : option (list PageData)) :
  emitted (set_pageObserver observer (StartLayout B cache li)) = [] ->
  fontsOwned (set_pageObserver observer (StartLayout B cache li)).
Proof.
  intros He.
  destruct (GetFont_found (FontCtorStatus B) cache (li_fontName li)
              (li_fontSize li) FontStyleRegular) as (e & Hf & Hfont).
  apply find_some in Hf as [Hin _].
  assert (Ho : exists e0,
             In e0 (fontCache (set_pageObserver observer
                                 (StartLayout B cache li)))
             /\ FontCache.font e0
                = currFont (set_pageObserver observer
                              (StartLayout B cache li))).
  { rewrite StartLayout_eq. now exists e. }
  split; [exact Ho|].
  intros f. rewrite He. rewrite StartLayout_eq. simpl.
  intros [H|[]]. injection H as <-.
  rewrite StartLayout_eq in Ho. exact Ho.
Qed.

Lemma fontCurrent_StartLayout (B : Backend) (cache : list FontCache.Entry)
    (li : LayoutInfo) (observer : option (list PageData)) :
  fontCurrent B (set_pageObserver observer (StartLayout B cache li)).
Proof.
  destruct (GetFont_found (FontCtorStatus B) cache (li_fontName li)
              (li_fontSize li) FontStyleRegular) as (e & Hf & Hfont).
  unfold fontCurrent. rewrite StartLayout_eq. now exists e.
Qed.

Lemma processTokens_app (B : Backend) (t1 t2 : list HtmlToken)
    (doc : BaseEbookDoc) (st : PageLayout) :
  processTokens B (t1 ++ t2) doc st
  = if existsb IsError t1 then processTokens B t1 doc st
    else processTokens B t2 doc (processTokens B t1 doc st).
Proof.
  revert st. induction t1 as [|t r IH]; intros st; simpl; [reflexivity|].
  destruct (IsError t); [reflexivity|]. apply IH.
Qed.

(** ** The fonts from page to page *)







Section LinkFacts.

Variable B : Backend.




End LinkFacts.

(** X13.  [LayoutHtml] loses nothing and adds nothing: the words, rules
    and images of the pages handed to the observer, read page after page,
    are those of the tokens in their order, up to the first error.  The
    words of a text token are those of [EmitText], none inside a [style]
    element; a rule comes from every [hr] tag; an image from every [src]
    or [recindex] attribute of an [img] tag that is not an end tag, when
    the document has its data and the bitmap is decoded. *)
Theorem LayoutHtml_keeps_content (B : Backend) (li : LayoutInfo)
    (doc : BaseEbookDoc) (toks : list HtmlToken)
    (cache : list FontCache.Entry) :
  visibleOf (emitted (LayoutHtml B li doc toks cache (Some [])))
  = tokensOut B doc toks [].
Proof.
  pose proof (chain_LayoutHtml B li doc toks cache true) as H.
  cbv zeta in H. destruct H as [_ C].
  set (s0 := set_pageObserver (Some []) (StartLayout B cache li)) in *.
  assert (Ob : observed s0).
  { subst s0. rewrite StartLayout_eq. split; [discriminate|reflexivity]. }
  destruct (chain_visible B _ _ _ C Ob) as [_ E].
  assert (E0 : visible s0 = []).
  { subst s0. rewrite StartLayout_eq. reflexivity. }
  rewrite E0 in E. rewrite app_nil_l in E. rewrite <- E.
  pose proof (LayoutHtml_page B li doc toks cache true) as Hp.
  cbv zeta in Hp. unfold visible. rewrite visibleOf_app. unfold page.
  rewrite Hp, visibleOf_SetFont. now rewrite app_nil_r.
Qed.

(** X14.  The fields the class marks as constant during the layout are
    constant: after [LayoutHtml], with or without an observer, the page
    size, the line spacing, the width of a space, the font name and the
    font size are what [StartLayout] made them.  The line spacing is the
    height of the regular font and the space a fixed part of the font
    size, whatever the styles of the text. *)
Theorem LayoutHtml_keeps_configuration (B : Backend) (li : LayoutInfo)
    (doc : BaseEbookDoc) (toks : list HtmlToken)
    (cache : list FontCache.Entry) (registered : bool) :
  let s := LayoutHtml B li doc toks cache
             (if registered then Some [] else None) in
  pageSize_dx s = inject_Z (li_pageSize_dx li)
  /\ pageSize_dy s = inject_Z (li_pageSize_dy li)
  /\ lineSpacing s
     = GetHeight B
         (fst (FontCache.GetFont (FontCtorStatus B) cache (li_fontName li)
                 (li_fontSize li) FontStyleRegular))
  /\ spaceDx s = li_fontSize li / (5 # 2)
  /\ fontName s = li_fontName li
  /\ fontSize s = li_fontSize li.
Proof.
  intros s. subst s.
  pose proof (chain_LayoutHtml B li doc toks cache registered) as H.
  cbv zeta in H. destruct H as [_ C].
  destruct (chain_sameConfig B _ _ _ C) as [E1 E2 E3 E4 E5 E6].
  rewrite E1, E2, E3, E4, E5, E6, StartLayout_eq.
  split; [reflexivity|]. split; [reflexivity|]. split; [reflexivity|].
  split; [reflexivity|]. split; reflexivity.
Qed.

(** X15.  The layout adds fonts to the cache and takes none away: after
    [LayoutHtml] the entries the cache had are where they were, with the
    new ones after them. *)
Theorem LayoutHtml_cache_grows (B : Backend) (li : LayoutInfo)
    (doc : BaseEbookDoc) (toks : list HtmlToken)
    (cache : list FontCache.Entry) (registered : bool) :
  exists more,
    fontCache (LayoutHtml B li doc toks cache
                 (if registered then Some [] else None))
    = cache ++ more.
Proof.
  pose proof (chain_LayoutHtml B li doc toks cache registered) as H.
  cbv zeta in H. destruct H as [_ C].
  destruct (chain_cache_grows B _ _ _ C) as (m2 & E2).
  destruct (GetFont_incl B cache (li_fontName li) (li_fontSize li)
              FontStyleRegular) as (m1 & E1).
  exists (m1 ++ m2). rewrite E2, StartLayout_eq. simpl.
  now rewrite E1, <- app_assoc.
Qed.

(** X16.  No page refers to a font the cache does not hold: the font of
    every [SetFont] instruction of every page handed to the observer is
    the font of an entry of the cache [LayoutHtml] leaves. *)
Theorem LayoutHtml_fonts_owned (B : Backend) (li : LayoutInfo)
    (doc : BaseEbookDoc) (toks : list HtmlToken)
    (cache : list FontCache.Entry) :
  let s := LayoutHtml B li doc toks cache (Some []) in
  Forall (Forall (fontOwned (fontCache s))) (emitted s).
Proof.
  intros s. subst s.
  pose proof (chain_LayoutHtml B li doc toks cache true) as H.
  cbv zeta in H. destruct H as [_ C].
  assert (F0 : fontsOwned (set_pageObserver (Some [])
                             (StartLayout B cache li)))
    by now apply fontsOwned_StartLayout.
  pose proof (chain_inv B fontsOwned _ _ _ (fun a o b => step_fontsOwned B a b o) C F0)
    as [_ Fp].
  apply Forall_forall. intros p Hp. apply Forall_forall. intros i Hi.
  unfold fontOwned. destruct (data i) as [w| |f|d] eqn:Ed; try exact I.
  apply Fp. apply in_flat_map. exists p.
  split; [apply in_or_app; now left|].
  apply in_map_iff. now exists i.
Qed.

(** X17.  The current font goes with the current style: between any two
    tokens, and after [LayoutHtml], the current font is the font the cache
    has for the font name, the font size and the current style. *)
Theorem current_font_matches_style (B : Backend) (li : LayoutInfo)
    (doc : BaseEbookDoc) (toks : list HtmlToken)
    (cache : list FontCache.Entry) (registered : bool) :
  let observer := if registered then Some [] else None in
  fontCurrent B (processTokens B toks doc
                   (set_pageObserver observer (StartLayout B cache li)))
  /\ fontCurrent B (LayoutHtml B li doc toks cache observer).
Proof.
  intros observer.
  pose proof (chain_LayoutHtml B li doc toks cache registered) as H.
  cbv zeta in H. fold observer in H. destruct H as [W0 C].
  pose proof (fontCurrent_StartLayout B cache li observer) as F0.
  split.
  - exact (chain_inv B (fontCurrent B) _ _ _ (fun a o b => step_fontCurrent B a b o)
             (chain_processTokens B toks doc _ W0) F0).
  - exact (chain_inv B (fontCurrent B) _ _ _ (fun a o b => step_fontCurrent B a b o) C F0).
Qed.

(** X18.  The layout ends at the first error of the parser: the tokens
    after an error token change nothing, and the pages of the tokens
    before it are flushed and handed over as at the end of the input. *)
Theorem LayoutHtml_stops_at_error (B : Backend) (li : LayoutInfo)
    (doc : BaseEbookDoc) (before after : list HtmlToken) (e : HtmlToken)
    (cache : list FontCache.Entry) (observer : option (list PageData)) :
  IsError e = true ->
  LayoutHtml B li doc (before ++ e :: after) cache observer
  = LayoutHtml B li doc before cache observer.
Proof.
  intros He. unfold LayoutHtml, Process. cbv zeta.
  rewrite processTokens_app. simpl. rewrite He.
  now destruct (existsb IsError before).
Qed.

Lemma LayoutHtml_stops_at_error_witness :
  LayoutHtml demoBackend demoInfo None
    ([textToken "foo"] ++ tagToken Error Tag_NotFound :: [textToken "bar"])
    [] (Some [])
  = LayoutHtml demoBackend demoInfo None [textToken "foo"] [] (Some []).
Proof.
  apply (LayoutHtml_stops_at_error demoBackend demoInfo None
           [textToken "foo"] [textToken "bar"]
           (tagToken Error Tag_NotFound) [] (Some [])).
  reflexivity.
Defined.

(** X19.  A page handed to the observer is not touched again: with more
    tokens, the observer has the pages it had after the first tokens, and
    the pages of the further tokens after them. *)
Theorem pages_handed_over_stay (B : Backend) (li : LayoutInfo)
    (doc : BaseEbookDoc) (toks further : list HtmlToken)
    (cache : list FontCache.Entry) :
  let s0 := set_pageObserver (Some []) (StartLayout B cache li) in
  exists pages,
    emitted (processTokens B (toks ++ further) doc s0)
    = emitted (processTokens B toks doc s0) ++ pages.
Proof.
  intros s0. rewrite processTokens_app.
  destruct (existsb IsError toks).
  - exists []. now rewrite app_nil_r.
  - assert (W0 : wf s0).
    { apply wf_set_pageObserver; [constructor|apply wf_StartLayout]. }
    pose proof (wf_processTokens B toks doc s0 W0) as W1.
    exact (proj2 (chain_handedOn B _ _ _
                    (chain_processTokens B further doc _ W1))).
Qed.

(** ** A line laid out and a line broken *)

Lemma layoutLeft_nth (sp y : REAL) (l : list DrawInstr) (x : REAL) (k : nat)
    (i : DrawInstr) :
  nth_error l k = Some i ->
  nth_error (fst (layoutLeft sp y l x)) k
  = Some (if isString i
          then setXY (snd (layoutLeft sp y (firstn k l) x)) y i
          else i).
Proof.
  revert x k. induction l as [|a r IH]; intros x [|k] H;
    try discriminate.
  - cbn [nth_error] in H. injection H as <-. cbn [firstn layoutLeft snd].
    destruct (isString a).
    + now destruct (layoutLeft sp y r _).
    + now destruct (layoutLeft sp y r x).
  - cbn [nth_error] in H. cbn [firstn layoutLeft].
    destruct (isString a).
    + specialize (IH (x + (Width (bbox a) + sp)) k H).
      destruct (layoutLeft sp y r _) as [r' x'].
      destruct (layoutLeft sp y (firstn k r) _) as [r2 x2].
      exact IH.
    + specialize (IH x k H).
      destruct (layoutLeft sp y r x) as [r' x'].
      destruct (layoutLeft sp y (firstn k r) x) as [r2 x2].
      exact IH.
Qed.

Lemma nth_error_line (p : PageData) (off k : nat) :
  nth_error (skipn off p) k = nth_error p (off + k).
Proof.
  revert p. induction off as [|n IH]; intros p; [reflexivity|].
  destruct p as [|a p]; [now destruct k|]. apply IH.
Qed.

Lemma nth_error_after (a l : list DrawInstr) (k : nat) :
  nth_error (a ++ l) (length a + k) = nth_error l k.
Proof.
  rewrite nth_error_app2 by lia. f_equal. lia.
Qed.

Lemma JustifyLineBoth_page (st : PageLayout) (p : PageData) :
  currPage st = Some p ->
  (currLineInstrOffset st <= length p)%nat ->
  page (JustifyLineBoth st)
  = firstn (currLineInstrOffset st) p
      ++ GetInstructionsForCurrentLine (JustifyLineBoth st).
Proof.
  intros Hp Hoff.
  destruct (JustifyLineBoth_touch st p Hp Hoff) as (x' & p' & E & _ & F).
  rewrite E. unfold GetInstructionsForCurrentLine, page. simpl.
  rewrite <- F. now rewrite firstn_skipn.
Qed.

(** [JustifyLine] lays the line out. *)
Lemma JustifyLine_laidOut (mode : AlignAttr) (st : PageLayout)
    (p : PageData) :
  currPage st = Some p ->
  (currLineInstrOffset st <= length p)%nat ->
  laidOut mode st (page (JustifyLine mode st)).
Proof.
  intros Hp Hoff.
  destruct (JustifyLine_page_shape mode st p Hp Hoff) as [Sh F].
  assert (Hpg : page st = p) by (unfold page; now rewrite Hp).
  assert (Hl : GetInstructionsForCurrentLine st
               = skipn (currLineInstrOffset st) p).
  { unfold GetInstructionsForCurrentLine. now rewrite Hpg. }
  assert (Hfl : length (firstn (currLineInstrOffset st) p)
                = currLineInstrOffset st)
    by (rewrite length_firstn; lia).
  split; [|split].
  - unfold Count. rewrite Hpg.
    rewrite <- (length_map shape (page _)), Sh. apply length_map.
  - now rewrite Hpg.
  - intros k i Hk.
    destruct (IsCurrentLineEmpty st) eqn:Ee.
    { exfalso. unfold IsCurrentLineEmpty, Count in Ee.
      apply Nat.eqb_eq in Ee. rewrite Hpg in Ee.
      rewrite Hl, Ee, skipn_all in Hk. now destruct k. }
    set (l := GetInstructionsForCurrentLine st) in *.
    set (sp := spaceDx st). set (y := curr_y st).
    destruct (plainMode mode) eqn:Em.
    { rewrite (JustifyLine_plain_page mode st p Hp Ee Em).
      rewrite <- Hl.
      replace (currLineInstrOffset st + k)%nat
        with (length (firstn (currLineInstrOffset st) p) + k)%nat
        by now rewrite Hfl.
      rewrite nth_error_after.
      fold sp y.
      rewrite (layoutLeft_nth sp y l (lineStart mode st) k i Hk).
      eexists. split; [reflexivity|].
      unfold placed. fold l sp y.
      pose proof (layoutLeft_x sp y (firstn k l) (lineStart mode st)) as Ex.
      destruct (isString i).
      - split; [reflexivity|].
        destruct mode; try discriminate; cbn [setXY bbox X Y];
          (split; [exact Ex|reflexivity]).
      - split; [reflexivity|]. now destruct mode. }
    destruct mode; try discriminate.
    + (* Align_NotFound *)
      unfold JustifyLine. rewrite Ee. cbv zeta.
      change (page (set_currLineInstrOffset (Count st) st)) with (page st).
      rewrite Hpg, <- nth_error_line, <- Hl. exists i.
      split; [exact Hk|]. now split.
    + (* Align_Justify *)
      unfold JustifyLine. rewrite Ee. cbv zeta.
      change (page (set_currLineInstrOffset (Count (JustifyLineBoth st))
                      (JustifyLineBoth st)))
        with (page (JustifyLineBoth st)).
      rewrite (JustifyLineBoth_page st p Hp Hoff).
      replace (currLineInstrOffset st + k)%nat
        with (length (firstn (currLineInstrOffset st) p) + k)%nat
        by now rewrite Hfl.
      rewrite nth_error_after.
      rewrite (JustifyLineBoth_line st p Hp Hoff). cbv zeta.
      fold l sp y.
      pose proof (layoutLeft_nth sp y l 0 k i Hk) as Hn.
      pose proof (layoutLeft_length sp y l 0) as Hlen.
      pose proof (layoutLeft_x sp y (firstn k l) 0) as Ex.
      set (x0 := snd (layoutLeft sp y (firstn k l) 0)) in *.
      set (ll := fst (layoutLeft sp y l 0)) in *.
      assert (He : (if (1 <? length ll)%nat
                    then (pageSize_dx st - GetCurrentLineDx st)
                         / inject_Z (Z.of_nat (length ll - 1))
                    else pageSize_dx st - GetCurrentLineDx st)
                   = extraSpaceDx st).
      { unfold extraSpaceDx. fold l. now rewrite Hlen. }
      rewrite He. clear He.
      set (e := extraSpaceDx st).
      clearbody ll.
      destruct ll as [|c rest]; [destruct k; discriminate|].
      destruct k as [|k].
      * cbn [nth_error] in Hn. injection Hn as Hc.
        exists c. split; [reflexivity|]. rewrite Hc.
        unfold placed. fold l sp y e x0.
        change (inject_Z (Z.of_nat 0)) with 0.
        destruct (isString i).
        -- split; [reflexivity|]. cbn [setXY bbox X Y].
           split; [rewrite Ex; cbn [firstn wordsWidth]; lra|reflexivity].
        -- split; [reflexivity|]. split; [lra|reflexivity].
      * cbn [nth_error] in Hn.
        exists (addX (inject_Z (Z.of_nat (1 + k)) * e)
                  (if isString i then setXY x0 y i else i)).
        split; [cbn [nth_error]; now apply shiftFrom_nth|].
        unfold placed. fold l sp y e x0.
        change (1 + k)%nat with (S k).
        destruct (isString i).
        -- split; [reflexivity|]. unfold addX. cbn [setXY bbox X Y].
           split; [rewrite Ex; lra|reflexivity].
        -- split; [reflexivity|]. unfold addX. cbn [bbox X Y].
           split; reflexivity.
Qed.

(** [StartNewPage] turns the page. *)
Lemma StartNewPage_pageTurned (st : PageLayout) :
  pageTurned st (StartNewPage st).
Proof.
  rewrite StartNewPage_eq. unfold pageTurned. simpl.
  split; [now constructor|].
  repeat (split; [reflexivity|]).
  now destruct (currPage st), (pageObserver st).
Qed.

(** [StartNewLine] breaks the line. *)
Lemma StartNewLine_lineBroken (b : bool) (st : PageLayout) :
  wf st -> lineBroken b st (StartNewLine b st).
Proof.
  intros W. unfold lineBroken.
  destruct (atPageTop st) eqn:Et; [now apply StartNewLine_atPageTop|].
  destruct (wf_page st W) as (i & p & Hp & _).
  pose proof (wf_offset st W) as Ho. unfold Count, page in Ho.
  rewrite Hp in Ho. destruct Ho as [_ Ho].
  pose proof (JustifyLine_laidOut (breakMode b st) st (i :: p) Hp Ho) as L.
  destruct (JustifyLine_touch (breakMode b st) st (i :: p) Hp Ho)
    as (x' & p' & E & D & _).
  assert (Hpage : page (JustifyLine (breakMode b st) st) = p')
    by now rewrite E.
  rewrite Hpage in L.
  assert (Hlen : length p' = length (i :: p))
    by now apply map_data_length.
  assert (Es : StartNewLine b st
               = let s1 := set_curr_y (curr_y st + lineSpacing st)
                             (touch 0 p' (length (i :: p)) st) in
                 if Qltb (pageSize_dy st)
                      (curr_y st + lineSpacing st + lineSpacing st)
                 then StartNewPage s1 else s1).
  { unfold StartNewLine. unfold atPageTop in Et. rewrite Et.
    fold (breakMode b st).
    assert (Em : (if b && isJustify (currJustification st)
                  then JustifyLine Align_Left st
                  else JustifyLine (currJustification st) st)
                 = JustifyLine (breakMode b st) st).
    { unfold breakMode. now destruct (b && isJustify _). }
    rewrite Em, E. cbv zeta. unfold Count, page. simpl.
    rewrite Hlen. reflexivity. }
  rewrite Es. cbv zeta.
  destruct (Qltb _ _).
  - rewrite StartNewPage_eq. simpl.
    split; [now constructor|]. split; [reflexivity|].
    exists p'. split; [exact L|].
    repeat (split; [reflexivity|]).
    now destruct (pageObserver st).
  - simpl. split; [now constructor|]. split; [reflexivity|].
    exists p'. split; [exact L|].
    repeat (split; [reflexivity|]).
    split; [now rewrite Hlen|reflexivity].
Qed.

(** ** Page breaks, font changes, text and paragraphs *)

Lemma pagebreak_core (st : PageLayout) (seen : list PageData) :
  wf st -> pageObserver st = Some seen ->
  let s := StartNewPage (JustifyLine (currJustification st) st) in
  exists p',
    emitted s = seen ++ [p']
    /\ laidOut (currJustification st) st p'
    /\ map data p' = map data (page st)
    /\ page s = [Instr.SetFont (currFont st)]
    /\ curr_x s = 0 /\ curr_y s = 0.
Proof.
  intros W Hs s. subst s.
  destruct (wf_page st W) as (i & p & Hp & _).
  pose proof (wf_offset st W) as Ho. unfold Count, page in Ho.
  rewrite Hp in Ho. destruct Ho as [_ Ho].
  pose proof (JustifyLine_laidOut (currJustification st) st (i :: p) Hp Ho)
    as L.
  destruct (JustifyLine_touch (currJustification st) st (i :: p) Hp Ho)
    as (x' & p' & E & D & _).
  rewrite E in L |- *. exists p'. rewrite StartNewPage_eq.
  unfold emitted, page. simpl. rewrite Hs, Hp.
  split; [reflexivity|]. split; [exact L|]. split; [exact D|].
  split; [reflexivity|]. split; reflexivity.
Qed.

(** X20.  A [pagebreak] or [mbp:pagebreak] tag, whether it opens, closes
    or is empty, ends the page whatever is on it: the observer gets one
    more page, which is the current page with its last line laid out in
    the current alignment, every instruction with its contents; and the
    layout goes on at the top of a new page that holds the [SetFont] of
    the current font. *)
Theorem pagebreak_hands_page_over (B : Backend) (t : HtmlToken)
    (doc : BaseEbookDoc) (st : PageLayout) (seen : list PageData) :
  wf st -> pageObserver st = Some seen ->
  tokTag t = Tag_Pagebreak \/ tokTag t = Tag_Mbp_Pagebreak ->
  let s := HandleHtmlTag B t doc st in
  exists p',
    emitted s = seen ++ [p']
    /\ laidOut (currJustification st) st p'
    /\ map data p' = map data (page st)
    /\ page s = [Instr.SetFont (currFont st)]
    /\ curr_x s = 0 /\ curr_y s = 0.
Proof.
  intros W Hs Ht s. subst s. unfold HandleHtmlTag. cbv zeta.
  assert (G : forall l,
            exists p',
              emitted (StartNewPage
                         (JustifyLine (currJustification st)
                            (set_tagNesting l st)))
              = seen ++ [p']
              /\ laidOut (currJustification st) st p'
              /\ map data p' = map data (page st)
              /\ page (StartNewPage
                         (JustifyLine (currJustification st)
                            (set_tagNesting l st)))
                 = [Instr.SetFont (currFont st)]
              /\ curr_x (StartNewPage
                           (JustifyLine (currJustification st)
                              (set_tagNesting l st))) = 0
              /\ curr_y (StartNewPage
                           (JustifyLine (currJustification st)
                              (set_tagNesting l st))) = 0).
  { intros l.
    assert (W' : wf (set_tagNesting l st)) by now apply (wf_ext st).
    exact (pagebreak_core (set_tagNesting l st) seen W' Hs). }
  pose proof (pagebreak_core st seen W Hs) as G0. cbv zeta in G0.
  destruct Ht as [-> | ->];
    (destruct (IsStartTag t); [apply G|]; destruct (IsEndTag t);
     [apply G|exact G0]).
Qed.

Lemma pagebreak_hands_page_over_witness :
  let s := HandleHtmlTag demoBackend (tagToken EndTag Tag_Pagebreak) None
             demoObserved in
  exists p',
    emitted s = [] ++ [p']
    /\ laidOut (currJustification demoObserved) demoObserved p'
    /\ map data p' = map data (page demoObserved)
    /\ page s = [Instr.SetFont (currFont demoObserved)]
    /\ curr_x s = 0 /\ curr_y s = 0.
Proof.
  assert (W : wf demoObserved).
  { constructor.
    - vm_compute. reflexivity.
    - vm_compute. lia.
    - intros H. vm_compute in H. discriminate.
    - vm_compute. constructor. }
  apply (pagebreak_hands_page_over demoBackend
           (tagToken EndTag Tag_Pagebreak) None demoObserved [] W).
  - reflexivity.
  - left. reflexivity.
Defined.

Lemma ChangeFont_style (B : Backend) (fs : FontStyle) (addStyle : bool)
    (st : PageLayout) :
  currFontStyle (ChangeFont B fs addStyle st)
  = if addStyle then Z.lor (currFontStyle st) fs
    else Z.land (currFontStyle st) (Z.lnot fs).
Proof.
  unfold ChangeFont. set (ns := if addStyle then _ else _).
  destruct (ns =? currFontStyle st)%Z eqn:E.
  - apply Z.eqb_eq in E. now rewrite E.
  - unfold AddSetFontInstr, Append, SetCurrentFont.
    destruct (FontCache.GetFont _ _ _ _ _) as [f c]. simpl.
    now destruct (currPage st).
Qed.

Lemma ChangeFont_noop (B : Backend) (fs : FontStyle) (addStyle : bool)
    (st : PageLayout) :
  (if addStyle then Z.lor (currFontStyle st) fs
   else Z.land (currFontStyle st) (Z.lnot fs)) = currFontStyle st ->
  ChangeFont B fs addStyle st = st.
Proof. intros E. unfold ChangeFont. now rewrite E, Z.eqb_refl. Qed.

(** X21.  A font change made twice is made once: the second of two
    [ChangeFont] calls with the same style and direction changes nothing,
    so a tag nested in the same tag adds no [SetFont] instruction and asks
    the cache for nothing. *)
Theorem ChangeFont_twice (B : Backend) (fs : FontStyle) (addStyle : bool)
    (st : PageLayout) :
  ChangeFont B fs addStyle (ChangeFont B fs addStyle st)
  = ChangeFont B fs addStyle st.
Proof.
  apply ChangeFont_noop. rewrite ChangeFont_style. destruct addStyle.
  - now rewrite <- Z.lor_assoc, Z.lor_diag.
  - now rewrite <- Z.land_assoc, Z.land_diag.
Qed.

(** X22.  The same style nested is not counted, as the comment before
    [ChangeFont] says: after the style is added twice and removed once,
    as by the tags of "<b>fo<b>oo</b>bar</b>" up to "bar", the bits of
    the style are off, as after it is added once and removed once. *)
Theorem ChangeFont_nested_close (B : Backend) (fs : FontStyle)
    (st : PageLayout) :
  currFontStyle
    (ChangeFont B fs false (ChangeFont B fs true (ChangeFont B fs true st)))
  = Z.land (currFontStyle st) (Z.lnot fs)
  /\ currFontStyle
       (ChangeFont B fs false
          (ChangeFont B fs true (ChangeFont B fs true st)))
     = currFontStyle (ChangeFont B fs false (ChangeFont B fs true st)).
Proof.
  rewrite !ChangeFont_style.
  assert (E : forall a, Z.land (Z.lor a fs) (Z.lnot fs)
                        = Z.land a (Z.lnot fs)).
  { intros a. apply Z.bits_inj'. intros n Hn.
    rewrite !Z.land_spec, Z.lor_spec, Z.lnot_spec by exact Hn.
    now destruct (Z.testbit a n), (Z.testbit fs n). }
  split; [|rewrite !E; reflexivity].
  rewrite E. apply E.
Qed.

Section TextFacts.

Variable B : Backend.

Lemma SkipWs_all (s : chars) :
  forallb (IsWs B) s = true -> SkipWs B s = [].
Proof.
  induction s as [|c r IH]; simpl; [reflexivity|].
  destruct (IsWs B c); [exact IH|discriminate].
Qed.

Lemma emitWords_nil (fuel : nat) (st : PageLayout) :
  emitWords B fuel [] st = st.
Proof. now destruct fuel. Qed.

Lemma SkipWs_filter (s : chars) :
  filter (fun c => negb (IsWs B c)) (SkipWs B s)
  = filter (fun c => negb (IsWs B c)) s.
Proof.
  induction s as [|c r IH]; simpl; [reflexivity|].
  destruct (IsWs B c) eqn:E; simpl; [exact IH|]. now rewrite E.
Qed.

Lemma SkipNonWs_filter (s : chars) :
  filter (fun c => negb (IsWs B c)) s
  = fst (SkipNonWs B s)
      ++ filter (fun c => negb (IsWs B c)) (snd (SkipNonWs B s))
  /\ forallb (fun c => negb (IsWs B c)) (fst (SkipNonWs B s)) = true.
Proof.
  induction s as [|c r [IH1 IH2]]; simpl; [now split|].
  destruct (IsWs B c) eqn:E; simpl.
  - rewrite E. now split.
  - destruct (SkipNonWs B r) as [w c1]. simpl in *. rewrite E, IH1.
    now split.
Qed.

Lemma textWords_filter (fuel : nat) (curr : chars) :
  (length curr <= fuel)%nat ->
  match curr with c :: _ => IsWs B c = false | [] => True end ->
  concat (textWords B fuel curr) = filter (fun c => negb (IsWs B c)) curr
  /\ Forall (fun w => w <> []
                      /\ forallb (fun c => negb (IsWs B c)) w = true)
       (textWords B fuel curr).
Proof.
  revert curr. induction fuel as [|k IH]; intros curr Hl Hh.
  - destruct curr; [now split|simpl in Hl; lia].
  - destruct curr as [|c r]; [now split|].
    cbn [textWords].
    pose proof (SkipNonWs_filter (c :: r)) as [F1 F2].
    pose proof (SkipNonWs_length B (c :: r)) as L1.
    assert (L2 : (length (snd (SkipNonWs B (c :: r))) <= k)%nat).
    { revert L1. simpl. rewrite Hh.
      pose proof (SkipNonWs_length B r) as L3.
      destruct (SkipNonWs B r) as [w c1]. simpl in *. lia. }
    assert (N : fst (SkipNonWs B (c :: r)) <> []).
    { simpl. rewrite Hh. now destruct (SkipNonWs B r). }
    destruct (SkipNonWs B (c :: r)) as [w c1]. cbn [fst snd] in F1, F2, L2, N.
    pose proof (SkipWs_length B c1) as L4.
    destruct (IH (SkipWs B c1)) as [IH1 IH2]; [lia| |].
    { destruct (SkipWs B c1) as [|a q] eqn:Eq; [exact I|].
      exact (SkipWs_head B _ _ _ Eq). }
    destruct w as [|a w]; [congruence|].
    cbn [length Nat.ltb Nat.leb app]. split.
    + cbn [concat]. rewrite IH1, SkipWs_filter. now rewrite F1.
    + constructor; [|exact IH2]. split; [discriminate|exact F2].
Qed.

End TextFacts.

(** X23.  A text of white space only leaves the layout as it is: no word,
    no line break and no change of the newline counter. *)
Theorem EmitText_white_space_only (B : Backend) (t : HtmlToken)
    (st : PageLayout) :
  forallb (IsWs B) (tokText t) = true -> EmitText B t st = st.
Proof.
  intros H. unfold EmitText. destruct (existsb _ _); [reflexivity|].
  rewrite (SkipWs_all B _ H). apply emitWords_nil.
Qed.

Lemma EmitText_white_space_only_witness :
  EmitText demoBackend (textToken "   ") demoLine = demoLine.
Proof.
  apply (EmitText_white_space_only demoBackend (textToken "   ") demoLine).
  reflexivity.
Defined.

(** X24.  The loop of [EmitText] takes a text apart into its words and
    loses no character: within the bound of the length of the text, the
    words passed to [AddWord] are not empty and free of white space, and
    one after the other they are the text without its white space. *)
Theorem EmitText_words_are_the_text (B : Backend) (text : chars) :
  let ws := textWords B (length text) (SkipWs B text) in
  concat ws = filter (fun c => negb (IsWs B c)) text
  /\ Forall (fun w => w <> []
                      /\ forallb (fun c => negb (IsWs B c)) w = true) ws.
Proof.
  intros ws. subst ws. rewrite <- (SkipWs_filter B text).
  apply textWords_filter; [apply SkipWs_length|].
  destruct (SkipWs B text) as [|a q] eqn:Eq; [exact I|].
  exact (SkipWs_head B _ _ _ Eq).
Qed.

Lemma attrs_justification_last (B : Backend) (attrs : list AttrInfo)
    (st : PageLayout) :
  currJustification
    (fold_left (fun s a =>
       if HasName B a "align"
       then set_currJustification (FindAlignAttr B (val a)) s
       else s) attrs st)
  = match find (fun a => HasName B a "align") (rev attrs) with
    | Some a => FindAlignAttr B (val a)
    | None => currJustification st
    end.
Proof.
  revert st. induction attrs as [|a r IH]; intros st; [reflexivity|].
  cbn [fold_left rev]. rewrite IH.
  destruct (find (fun a0 => HasName B a0 "align") (rev r)) as [x|] eqn:E.
  - now rewrite (find_app_some _ _ [a] _ E).
  - rewrite (find_app_none _ _ [a] E). simpl.
    now destruct (HasName B a "align").
Qed.

(** X25.  The alignment of a paragraph: after the start tag of a [p]
    element the alignment is that of the last [align] attribute of the
    tag, and justified when the tag has none, whatever it was before. *)
Theorem paragraph_last_align_wins (B : Backend) (t : HtmlToken)
    (doc : BaseEbookDoc) (st : PageLayout) :
  tokTag t = Tag_P -> IsStartTag t = true ->
  currJustification (HandleHtmlTag B t doc st)
  = match find (fun a => HasName B a "align") (rev (tokAttrs t)) with
    | Some a => FindAlignAttr B (val a)
    | None => Align_Justify
    end.
Proof.
  intros Ht Hs. unfold HandleHtmlTag. cbv zeta. rewrite Ht, Hs.
  unfold attrLoop. now rewrite attrs_justification_last.
Qed.

Lemma paragraph_last_align_wins_witness :
  currJustification (HandleHtmlTag demoBackend demoParagraph None demoLine)
  = match find (fun a => HasName demoBackend a "align")
            (rev (tokAttrs demoParagraph)) with
    | Some a => FindAlignAttr demoBackend (val a)
    | None => Align_Justify
    end.
Proof.
  apply (paragraph_last_align_wins demoBackend demoParagraph None demoLine);
    reflexivity.
Defined.

(** ** Drawing a page *)

Section DrawingFacts.

Variable B : Backend.
Variable Utf8ToWcharBuf : chars -> chars.

Lemma drawFrom_app (offX offY : REAL) (showBbox : bool) (font : option Font)
    (a b : list DrawInstr) :
  exists font',
    drawFrom B Utf8ToWcharBuf offX offY showBbox font (a ++ b)
    = drawFrom B Utf8ToWcharBuf offX offY showBbox font a
        ++ drawFrom B Utf8ToWcharBuf offX offY showBbox font' b.
Proof.
  revert font. induction a as [|i r IH]; intros font; [now exists font|].
  cbn [app drawFrom].
  destruct (drawInstr B Utf8ToWcharBuf offX offY showBbox font i)
    as [calls f1].
  destruct (IH f1) as (f2 & E). exists f2. now rewrite E, app_assoc.
Qed.

Lemma drawFrom_app_same (offX offY : REAL) (showBbox : bool)
    (font : option Font) (a b : list DrawInstr) :
  forallb (fun i => negb (isSetFont (data i))) a = true ->
  exists calls,
    drawFrom B Utf8ToWcharBuf offX offY showBbox font (a ++ b)
    = calls ++ drawFrom B Utf8ToWcharBuf offX offY showBbox font b.
Proof.
  induction a as [|i r IH]; intros H; [now exists []|].
  cbn [forallb] in H. apply andb_prop in H as [H1 H2].
  destruct (IH H2) as (calls & E).
  cbn [app drawFrom]. unfold drawInstr.
  destruct (data i) as [w| |f|d]; cbn [isSetFont negb] in H1;
    try discriminate; rewrite E; eexists; rewrite app_assoc; reflexivity.
Qed.

Lemma drawFrom_hasFont (offX offY : REAL) (showBbox : bool) (f : Font)
    (p : list DrawInstr) :
  forallb hasFont
    (drawFrom B Utf8ToWcharBuf offX offY showBbox (Some f) p) = true.
Proof.
  revert f. induction p as [|i r IH]; intros f; [reflexivity|].
  cbn [drawFrom]. unfold drawInstr.
  destruct (data i) as [w| |f'|d]; rewrite forallb_app, IH, andb_true_r;
    try reflexivity.
  - now destruct showBbox.
  - now destruct showBbox.
  - now destruct (BitmapFromData B d) as [[w h]|].
Qed.

Lemma drawFrom_showBbox (offX offY : REAL) (font : option Font)
    (p : list DrawInstr) :
  drawFrom B Utf8ToWcharBuf offX offY false font p
  = filter (fun c => negb (isDrawRectangle c))
      (drawFrom B Utf8ToWcharBuf offX offY true font p).
Proof.
  revert font. induction p as [|i r IH]; intros font; [reflexivity|].
  cbn [drawFrom]. unfold drawInstr.
  destruct (data i) as [w| |f|d]; rewrite filter_app, <- IH;
    try reflexivity.
  now destruct (BitmapFromData B d) as [[w h]|].
Qed.



End DrawingFacts.

(** X26.  Every word of every page of [LayoutHtml] is drawn with a font:
    [DrawPageLayout], which starts with the NULL font, passes no NULL font
    to [DrawString] on a page handed to the observer, at any offset, with
    the boxes shown or not. *)
Theorem pages_are_drawn_with_fonts (B : Backend)
    (Utf8ToWcharBuf : chars -> chars) (li : LayoutInfo)
    (doc : BaseEbookDoc) (toks : list HtmlToken)
    (cache : list FontCache.Entry) (offX offY : REAL) (showBbox : bool) :
  Forall (fun p =>
            forallb hasFont
              (DrawPageLayout B Utf8ToWcharBuf p offX offY showBbox) = true)
    (emitted (LayoutHtml B li doc toks cache (Some []))).
Proof.
  pose proof (wf_LayoutHtml_flushed B li doc toks cache) as W.
  unfold LayoutHtml. rewrite Process_flushed; [|exact W].
  pose proof (wf_emitted _ (wf_StartNewPage _ W)) as H.
  revert H. apply Forall_impl. intros p Hp.
  destruct p as [|i r]; [discriminate|].
  unfold DrawPageLayout. cbn [drawFrom]. unfold drawInstr.
  simpl in Hp. destruct (data i) as [w| |f|d]; try discriminate.
  apply drawFrom_hasFont.
Qed.

(** X27.  A word is drawn with the font of the last [SetFont] before it,
    at the place of its box moved by the offset. *)
Theorem DrawPageLayout_uses_last_font (B : Backend)
    (Utf8ToWcharBuf : chars -> chars) (before between after : list DrawInstr)
    (f : Font) (s : chars) (bb : RectF) (offX offY : REAL)
    (showBbox : bool) :
  forallb (fun i => negb (isSetFont (data i))) between = true ->
  In (DrawString (Utf8ToWcharBuf s) (Some f)
        (mkPointF (X bb + offX) (Y bb + offY)))
    (DrawPageLayout B Utf8ToWcharBuf
       (before ++ Instr.SetFont f :: between ++ Instr.Str s bb :: after)
       offX offY showBbox).
Proof.
  intros H. unfold DrawPageLayout.
  destruct (drawFrom_app B Utf8ToWcharBuf offX offY showBbox None before
              (Instr.SetFont f :: between ++ Instr.Str s bb :: after))
    as (f1 & ->).
  apply in_or_app. right. cbn [drawFrom drawInstr Instr.SetFont data app].
  destruct (drawFrom_app_same B Utf8ToWcharBuf offX offY showBbox (Some f)
              between (Instr.Str s bb :: after) H) as (calls & ->).
  apply in_or_app. right. cbn [drawFrom]. unfold drawInstr.
  cbn [Instr.Str data bbox offsetBox X Y].
  apply in_or_app. left. apply in_or_app. right. now left.
Qed.

Lemma DrawPageLayout_uses_last_font_witness :
  In (DrawString (chars_of "foo") (Some (currFont demoLine))
        (mkPointF (X RectF0 + 5) (Y RectF0 + 7)))
    (DrawPageLayout demoBackend (fun s => s)
       ([] ++ Instr.SetFont (currFont demoLine)
           :: [Instr.Line RectF0] ++ Instr.Str (chars_of "foo") RectF0 :: [])
       5 7 true).
Proof.
  apply (DrawPageLayout_uses_last_font demoBackend (fun s => s) []
           [Instr.Line RectF0] [] (currFont demoLine) (chars_of "foo")
           RectF0 5 7 true).
  reflexivity.
Defined.

(** X28.  Showing the boxes adds rectangles and changes nothing else:
    the calls [DrawPageLayout] makes without them are the calls it makes
    with them, the rectangles left out. *)
Theorem DrawPageLayout_showBbox (B : Backend)
    (Utf8ToWcharBuf : chars -> chars) (pageData : PageData)
    (offX offY : REAL) :
  DrawPageLayout B Utf8ToWcharBuf pageData offX offY false
  = filter (fun c => negb (isDrawRectangle c))
      (DrawPageLayout B Utf8ToWcharBuf pageData offX offY true).
Proof. apply drawFrom_showBbox. Qed.

(** * The properties of the specification *)

(** C1.  [JustifyLineBoth] counts and shifts every instruction of the
    line, not the words only.  On a page 100 wide, the text "foo bar", a
    start tag of bold and a word that does not fit give the justified line
    [foo, bar, SetFont]: the gap is the margin 36 over 2, "bar" is shifted
    by 18 and not by the margin, and its right edge is at 82, not at the
    page width; the shift by the margin goes to the [SetFont]. *)
Theorem JustifyLineBoth_counts_SetFont :
  let start := StartLayout demoBackend [] demoInfo in
  let line := processTokens demoBackend
                [textToken "foo bar"; tagToken StartTag Tag_B] None start in
  let st := processTokens demoBackend
              [textToken "foo bar"; tagToken StartTag Tag_B;
               textToken "bazquxx"] None start in
  let boxes := map (fun i => (type i, Qred (X (bbox i)),
                              Qred (Width (bbox i)))) in
  currJustification line = Align_Justify
  /\ Qred (pageSize_dx line) = 100
  /\ Qred (spaceDx line) = 4
  /\ boxes (GetInstructionsForCurrentLine line)
     = [(InstrTypeString, 0, 30);
        (InstrTypeString, 0, 30);
        (InstrTypeSetFont, 0, 0)]
  /\ boxes (GetInstructionsForCurrentLine (JustifyLineBoth line))
     = [(InstrTypeString, 0, 30);
        (InstrTypeString, 52, 30);
        (InstrTypeSetFont, 36, 0)]
  /\ boxes (page st)
     = [(InstrTypeSetFont, 0, 0);
        (InstrTypeString, 0, 30);
        (InstrTypeString, 52, 30);
        (InstrTypeSetFont, 36, 0);
        (InstrTypeString, 0, 70)]
  /\ map (fun i => Qred (Y (bbox i))) (page st) = [0; 0; 0; 0; 12].
Proof. vm_compute. repeat split. Qed.


(** C3.  In a run of newline tokens that starts with the counter at
    zero: the first newline only moves the counter to one; the second
    forces the paragraph break: with the cursor not at the line start,
    the line, which is not empty, is broken as a paragraph's last line,
    and the line after it is broken again; with the cursor at the line
    start one line is broken; either way the cursor is then at the start
    of an empty line.  Every further newline of the run, as long as the
    [int] counter does not overflow, changes the counter and nothing
    else; and a word that is not a newline, after any number of newlines,
    leaves the counter at zero. *)
Theorem AddWord_newline_runs (B : Backend) (st : PageLayout) (w : WordInfo)
    (n : nat) :
  wf st ->
  newLinesCount st = 0%Z ->
  IsNewline w = false ->
  (Z.of_nat n <= INT_MAX - 2)%Z ->
  let nl := [ch_lf] in
  let s2 := AddWord B nl (AddWord B nl st) in
  AddWord B nl st = set_newLinesCount 1 st
  /\ s2 = (if negb (Qeq_bool (curr_x st) 0)
           then StartNewLine true
                  (StartNewLine true (set_newLinesCount 2 st))
           else StartNewLine true (set_newLinesCount 2 st))
  /\ (if negb (Qeq_bool (curr_x st) 0)
      then atPageTop (set_newLinesCount 2 st) = false
           /\ exists s1,
                lineBroken true (set_newLinesCount 2 st) s1
                /\ lineBroken true s1 s2
      else lineBroken true (set_newLinesCount 2 st) s2)
  /\ IsCurrentLineEmpty s2 = true
  /\ curr_x s2 == 0
  /\ (exists k, Nat.iter n (AddWord B nl) s2 = set_newLinesCount k s2)
  /\ newLinesCount (AddWord B w (Nat.iter n (AddWord B nl) st)) = 0%Z.
Proof.
  intros W H0 Hw Hn nl s2.
  assert (H1 : AddWord B nl st = set_newLinesCount 1 st).
  { unfold nl. rewrite AddWord_newline, H0. reflexivity. }
  assert (H2 : s2
               = (if negb (Qeq_bool (curr_x st) 0)
                  then StartNewLine true
                         (StartNewLine true (set_newLinesCount 2 st))
                  else StartNewLine true (set_newLinesCount 2 st))).
  { unfold s2. rewrite H1. unfold nl. rewrite AddWord_newline. reflexivity. }
  assert (W2 : wf (set_newLinesCount 2 st)) by now apply (wf_ext st).
  assert (W3 : wf s2) by (unfold s2; now repeat apply wf_AddWord).
  assert (E3 : IsCurrentLineEmpty s2 = true).
  { rewrite H2. destruct (negb _); apply StartNewLine_empty;
      [now apply wf_StartNewLine|exact W2]. }
  split; [exact H1|]. split; [exact H2|]. split; [|split; [exact E3|]].
  - rewrite H2. destruct (negb (Qeq_bool (curr_x st) 0)) eqn:Ex.
    + split.
      * unfold atPageTop.
        destruct (IsCurrentLineEmpty (set_newLinesCount 2 st)) eqn:Ee;
          [|apply andb_false_r].
        pose proof (wf_x _ W2 Ee) as Hx. apply Qeq_bool_iff in Hx.
        change (curr_x (set_newLinesCount 2 st)) with (curr_x st) in Hx.
        rewrite Hx in Ex. discriminate.
      * exists (StartNewLine true (set_newLinesCount 2 st)).
        split; apply StartNewLine_lineBroken;
          [exact W2|now apply wf_StartNewLine].
    + now apply StartNewLine_lineBroken.
  - split; [exact (wf_x _ W3 E3)|]. split.
    + assert (P2 : pastBreak (set_newLinesCount 2 st))
        by (left; simpl; lia).
      assert (P3 : pastBreak s2).
      { rewrite H2. destruct (negb _).
        - apply pastBreak_StartNewLine; [now apply wf_StartNewLine|].
          now apply pastBreak_StartNewLine.
        - now apply pastBreak_StartNewLine. }
      assert (C3 : (newLinesCount s2 <= 2)%Z).
      { rewrite H2. destruct (negb _).
        - destruct (newLinesCount_StartNewLine true
                      (StartNewLine true (set_newLinesCount 2 st))
                      (wf_StartNewLine true _ W2)) as [-> | ->]; [|lia].
          destruct (newLinesCount_StartNewLine true _ W2) as [-> | ->];
            simpl; lia.
        - destruct (newLinesCount_StartNewLine true _ W2) as [-> | ->];
            simpl; lia. }
      destruct (newlines_pastBreak B n _ W3 P3) as (k & _ & Hk); [lia|].
      now exists k.
    + apply AddWord_resets_count; [now apply wf_newlines|exact Hw].
Qed.

Lemma AddWord_newline_runs_witness :
  let nl := [ch_lf] in
  let s2 := AddWord demoBackend nl (AddWord demoBackend nl demoLine) in
  AddWord demoBackend nl demoLine = set_newLinesCount 1 demoLine
  /\ s2 = (if negb (Qeq_bool (curr_x demoLine) 0)
           then StartNewLine true
                  (StartNewLine true (set_newLinesCount 2 demoLine))
           else StartNewLine true (set_newLinesCount 2 demoLine))
  /\ (if negb (Qeq_bool (curr_x demoLine) 0)
      then atPageTop (set_newLinesCount 2 demoLine) = false
           /\ exists s1,
                lineBroken true (set_newLinesCount 2 demoLine) s1
                /\ lineBroken true s1 s2
      else lineBroken true (set_newLinesCount 2 demoLine) s2)
  /\ IsCurrentLineEmpty s2 = true
  /\ curr_x s2 == 0
  /\ (exists k,
        Nat.iter 3 (AddWord demoBackend nl) s2 = set_newLinesCount k s2)
  /\ newLinesCount
       (AddWord demoBackend (chars_of "bar")
          (Nat.iter 3 (AddWord demoBackend nl) demoLine)) = 0%Z.
Proof.
  apply (AddWord_newline_runs demoBackend demoLine (chars_of "bar") 3).
  - constructor.
    + vm_compute. reflexivity.
    + vm_compute. lia.
    + intros H. vm_compute in H. discriminate.
    + vm_compute. constructor.
  - vm_compute. reflexivity.
  - vm_compute. reflexivity.
  - vm_compute. discriminate.
Defined.

(** C4.  A word that is not a newline and does not fit in what is left of
    the line, which every word wider than the page is when the cursor is
    not left of the line start, goes to a new line: the current line is
    broken first, not as a paragraph's last line, so that it is laid out
    in the current alignment, its words stretched over the page when that
    is justified, and the cursor goes to the start of the line below or
    of a new page; there the word is appended as one [Text] instruction
    of its full measured width, the only instruction of the new current
    line, with the cursor one word and one space from the line start. *)
Theorem AddWord_wraps (B : Backend) (st : PageLayout) (w : WordInfo) :
  wf st ->
  IsNewline w = false ->
  let dx := Width (MeasureText B (currFont st) w) in
  pageSize_dx st < curr_x st + dx
  \/ (0 <= curr_x st /\ pageSize_dx st < dx) ->
  let s := StartNewLine false (set_newLinesCount 0 st) in
  let bb := setY (curr_y s) (MeasureText B (currFont st) w) in
  AddWord B w st
  = set_curr_x (curr_x s + (dx + spaceDx st)) (Append (Instr.Str w bb) s)
  /\ lineBroken false (set_newLinesCount 0 st) s
  /\ page (AddWord B w st) = page s ++ [Instr.Str w bb]
  /\ GetInstructionsForCurrentLine (AddWord B w st) = [Instr.Str w bb]
  /\ curr_x (AddWord B w st) == dx + spaceDx st
  /\ Width bb = dx.
Proof.
  intros W Hw dx Hover s bb.
  assert (Hlt : pageSize_dx st < curr_x st + dx).
  { destruct Hover as [H|[H1 H2]]; [exact H|]. lra. }
  assert (W1 : wf (set_newLinesCount 0 st)) by now apply (wf_ext st).
  pose proof (wf_StartNewLine false _ W1) as Ws. fold s in Ws.
  pose proof (StartNewLine_empty false _ W1) as Es. fold s in Es.
  pose proof (StartNewLine_sameSetup false _ W1) as Ss. fold s in Ss.
  pose proof (StartNewLine_lineBroken false _ W1) as Ls. fold s in Ls.
  destruct (wf_page s Ws) as (i & p & Hp & _).
  assert (E : AddWord B w st
              = set_curr_x (curr_x s + (dx + spaceDx st))
                  (Append (Instr.Str w bb) s)).
  { unfold AddWord. rewrite Hw. cbv zeta.
    change (currFont (set_newLinesCount 0 st)) with (currFont st).
    change (pageSize_dx (set_newLinesCount 0 st)) with (pageSize_dx st).
    change (curr_x (set_newLinesCount 0 st)) with (curr_x st).
    fold dx. apply Qltb_true in Hlt. rewrite Hlt. fold s. fold bb.
    unfold Append. rewrite Hp.
    change (spaceDx (set_currPage _ s)) with (spaceDx s).
    rewrite (same_spaceDx _ _ Ss). reflexivity. }
  split; [exact E|]. split; [exact Ls|]. rewrite E.
  unfold GetInstructionsForCurrentLine, page, Append. rewrite Hp. simpl.
  split; [reflexivity|]. split; [|split; [|reflexivity]].
  - unfold IsCurrentLineEmpty, Count, page in Es. rewrite Hp in Es.
    apply Nat.eqb_eq in Es. rewrite Es.
    change (i :: p ++ [Instr.Str w bb]) with ((i :: p) ++ [Instr.Str w bb]).
    rewrite skipn_app, skipn_all, Nat.sub_diag. reflexivity.
  - rewrite (wf_x s Ws Es). lra.
Qed.

Lemma AddWord_wraps_witness :
  let w := chars_of "bazquxxx" in
  let dx := Width (MeasureText demoBackend (currFont demoLine) w) in
  let s := StartNewLine false (set_newLinesCount 0 demoLine) in
  let bb := setY (curr_y s) (MeasureText demoBackend (currFont demoLine) w) in
  AddWord demoBackend w demoLine
  = set_curr_x (curr_x s + (dx + spaceDx demoLine))
      (Append (Instr.Str w bb) s)
  /\ lineBroken false (set_newLinesCount 0 demoLine) s
  /\ page (AddWord demoBackend w demoLine) = page s ++ [Instr.Str w bb]
  /\ GetInstructionsForCurrentLine (AddWord demoBackend w demoLine)
     = [Instr.Str w bb]
  /\ curr_x (AddWord demoBackend w demoLine) == dx + spaceDx demoLine
  /\ Width bb = dx.
Proof.
  intros w.
  apply (AddWord_wraps demoBackend demoLine w).
  - constructor.
    + vm_compute. reflexivity.
    + vm_compute. lia.
    + intros H. vm_compute in H. discriminate.
    + vm_compute. constructor.
  - vm_compute. reflexivity.
  - left. vm_compute. reflexivity.
Defined.

(** C5.  [StartNewLine] on a line that is not an empty line at the top of
    a page: the line is laid out, the cursor goes to the line start and
    one line height down; when a further line does not fit below it, by
    the test of the code, the page (with the line laid out) is handed to
    the observer, or dropped when there is none, and the new page
    consists of the [SetFont] of the current font, with the cursor at the
    origin and the newline counter at zero.  The new height and the test
    are those of [advanceLine], in the arithmetic of the embedding. *)
Theorem StartNewLine_advances (b : bool) (st : PageLayout) :
  wf st ->
  atPageTop st = false ->
  let s' := StartNewLine b st in
  (if Qltb (pageSize_dy st) (curr_y st + lineSpacing st + lineSpacing st)
   then
     curr_x s' = 0 /\ curr_y s' = 0 /\ newLinesCount s' = 0%Z
     /\ page s' = [Instr.SetFont (currFont st)]
     /\ exists p',
          map data p' = map data (page st)
          /\ pageObserver s'
             = option_map (fun seen => seen ++ [p']) (pageObserver st)
   else
     curr_x s' = 0 /\ curr_y s' = curr_y st + lineSpacing st
     /\ newLinesCount s' = newLinesCount st
     /\ map data (page s') = map data (page st)
     /\ pageObserver s' = pageObserver st)
  /\ lineBroken b st s'
  /\ advanceLine Qarith (lineSpacing st) (pageSize_dy st) (curr_y st)
     = (curr_y st + lineSpacing st,
        Qltb (pageSize_dy st) (curr_y st + lineSpacing st + lineSpacing st)).
Proof.
  intros W Htop s'. split; [|split; [|reflexivity]].
  - destruct (wf_page st W) as (i & p & Hp & Hh).
    pose proof (wf_offset st W) as Ho. unfold Count, page in Ho.
    rewrite Hp in Ho.
    destruct (StartNewLine_cases b st (i :: p) Hp (proj2 Ho))
      as [[E _]|[_ (p' & H1 & _ & E)]].
    { unfold atPageTop in Htop. congruence. }
    assert (Hpg : page st = i :: p) by (unfold page; now rewrite Hp).
    subst s'. rewrite E, Hpg. cbv zeta.
    destruct (Qltb _ _).
    + repeat (split; [reflexivity|]).
      exists p'. split; [exact H1|].
      rewrite StartNewPage_eq. simpl. now destruct (pageObserver st).
    + repeat (split; [reflexivity|]). simpl. split; [exact H1|reflexivity].
  - now apply StartNewLine_lineBroken.
Qed.

Lemma StartNewLine_advances_witness :
  (Qltb (pageSize_dy demoLine)
     (curr_y demoLine + lineSpacing demoLine + lineSpacing demoLine) = false
   /\ let s' := StartNewLine false demoLine in
      (if Qltb (pageSize_dy demoLine)
            (curr_y demoLine + lineSpacing demoLine + lineSpacing demoLine)
       then
         curr_x s' = 0 /\ curr_y s' = 0 /\ newLinesCount s' = 0%Z
         /\ page s' = [Instr.SetFont (currFont demoLine)]
         /\ exists p',
              map data p' = map data (page demoLine)
              /\ pageObserver s'
                 = option_map (fun seen => seen ++ [p'])
                     (pageObserver demoLine)
       else
         curr_x s' = 0 /\ curr_y s' = curr_y demoLine + lineSpacing demoLine
         /\ newLinesCount s' = newLinesCount demoLine
         /\ map data (page s') = map data (page demoLine)
         /\ pageObserver s' = pageObserver demoLine)
      /\ lineBroken false demoLine s'
      /\ advanceLine Qarith (lineSpacing demoLine) (pageSize_dy demoLine)
           (curr_y demoLine)
         = (curr_y demoLine + lineSpacing demoLine,
            Qltb (pageSize_dy demoLine)
              (curr_y demoLine + lineSpacing demoLine
               + lineSpacing demoLine)))
  /\ (Qltb (pageSize_dy demoLastLine)
        (curr_y demoLastLine + lineSpacing demoLastLine
         + lineSpacing demoLastLine) = true
      /\ let s' := StartNewLine false demoLastLine in
         (if Qltb (pageSize_dy demoLastLine)
               (curr_y demoLastLine + lineSpacing demoLastLine
                + lineSpacing demoLastLine)
          then
            curr_x s' = 0 /\ curr_y s' = 0 /\ newLinesCount s' = 0%Z
            /\ page s' = [Instr.SetFont (currFont demoLastLine)]
            /\ exists p',
                 map data p' = map data (page demoLastLine)
                 /\ pageObserver s'
                    = option_map (fun seen => seen ++ [p'])
                        (pageObserver demoLastLine)
          else
            curr_x s' = 0
            /\ curr_y s' = curr_y demoLastLine + lineSpacing demoLastLine
            /\ newLinesCount s' = newLinesCount demoLastLine
            /\ map data (page s') = map data (page demoLastLine)
            /\ pageObserver s' = pageObserver demoLastLine)
         /\ lineBroken false demoLastLine s'
         /\ advanceLine Qarith (lineSpacing demoLastLine)
              (pageSize_dy demoLastLine) (curr_y demoLastLine)
            = (curr_y demoLastLine + lineSpacing demoLastLine,
               Qltb (pageSize_dy demoLastLine)
                 (curr_y demoLastLine + lineSpacing demoLastLine
                  + lineSpacing demoLastLine))).
Proof.
  split.
  - split; [vm_compute; reflexivity|].
    apply (StartNewLine_advances false demoLine).
    + constructor.
      * vm_compute. reflexivity.
      * vm_compute. lia.
      * intros H. vm_compute in H. discriminate.
      * vm_compute. constructor.
    + vm_compute. reflexivity.
  - split; [vm_compute; reflexivity|].
    apply (StartNewLine_advances false demoLastLine).
    + constructor.
      * vm_compute. reflexivity.
      * vm_compute. lia.
      * intros H. vm_compute in H. discriminate.
      * vm_compute. constructor.
    + vm_compute. reflexivity.
Defined.

(** C5, where rounding decides.  A page 36 high fits exactly four lines
    of the height 7.2000003 (15099495 / 2^21, a binary32 number): four
    times the line height is at most 36 and five times it is more.  In
    exact arithmetic closing the fourth line starts a new page.  In
    binary32, the arithmetic of the code, the height of the cursor after
    the fourth line plus the line height is rounded to 36, which is not
    more than the page height: the test fails, no page is started, and
    the fifth line is put on the same page. *)
Theorem StartNewLine_fifth_line_binary32 :
  let lineSpacing := S754_finite false 15099495 (-21) in
  let dy := F32.ofInt 36 in
  (4 * F32.toQ lineSpacing <= F32.toQ dy
   /\ F32.toQ dy < 5 * F32.toQ lineSpacing)
  /\ closeLines Qarith 4 (F32.toQ lineSpacing) (F32.toQ dy) 0
     = [false; false; false; true]
  /\ closeLines F32.arith 4 lineSpacing dy (F32.ofInt 0)
     = [false; false; false; false]
  /\ r_add F32.arith
       (r_add F32.arith
          (r_add F32.arith
             (r_add F32.arith (r_add F32.arith (F32.ofInt 0) lineSpacing)
                lineSpacing) lineSpacing) lineSpacing) lineSpacing
     = dy.
Proof.
  cbv zeta. split; [split|split; [|split]].
  - vm_compute. discriminate.
  - vm_compute. reflexivity.
  - vm_compute. reflexivity.
  - vm_compute. reflexivity.
  - vm_compute. reflexivity.
Qed.

(** C6.  [AddHr] breaks the line as a paragraph's last line, starts a new
    page when a line does not fit at the cursor, appends one [Rule] whose
    box starts at the left end, at the height of the cursor, is as wide
    as the page and one line high, and breaks the line again: the rule is
    the only instruction of its line, the break after it is not that of
    an empty line at the top of a page, and it leaves the cursor at the
    start of an empty line.  With an observer, the pages of the layout
    hold exactly one [Rule] more than before. *)
Theorem AddHr_rule (st : PageLayout) :
  wf st ->
  let s0 := StartNewLine true st in
  let s1 := set_curr_x 0 s0 in
  let s2 :=
    if Qltb (pageSize_dy st) (curr_y s1 + lineSpacing st)
    then StartNewPage s1 else s1 in
  let rule :=
    Instr.Line (mkRectF 0 (curr_y s2) (pageSize_dx st) (lineSpacing st)) in
  AddHr st = StartNewLine true (Append rule s2)
  /\ page (Append rule s2) = page s2 ++ [rule]
  /\ (hasObserver st = true -> totalRules (AddHr st) = S (totalRules st))
  /\ lineBroken true st s0
  /\ (if Qltb (pageSize_dy st) (curr_y s1 + lineSpacing st)
      then pageTurned s1 s2 else s2 = s1)
  /\ GetInstructionsForCurrentLine (Append rule s2) = [rule]
  /\ atPageTop (Append rule s2) = false
  /\ lineBroken true (Append rule s2) (AddHr st)
  /\ IsCurrentLineEmpty (AddHr st) = true
  /\ curr_x (AddHr st) = 0.
Proof.
  intros W s0 s1 s2 rule.
  pose proof (wf_StartNewLine true st W) as W0. fold s0 in W0.
  pose proof (StartNewLine_sameSetup true st W) as S0. fold s0 in S0.
  pose proof (StartNewLine_empty true st W) as E0. fold s0 in E0.
  assert (W1 : wf s1).
  { destruct W0 as [H1 H2 H3 H4]. constructor; try assumption.
    intros _. reflexivity. }
  assert (W2 : wf s2).
  { unfold s2. destruct (Qltb _ _); [now apply wf_StartNewPage|exact W1]. }
  assert (E2 : IsCurrentLineEmpty s2 = true).
  { unfold s2. destruct (Qltb _ _); [reflexivity|exact E0]. }
  assert (E : AddHr st = StartNewLine true (Append rule s2)).
  { unfold AddHr. cbv zeta. fold s0. fold s1.
    change (pageSize_dy s1) with (pageSize_dy s0).
    change (lineSpacing s1) with (lineSpacing s0).
    rewrite (same_dy _ _ S0), (same_lineSpacing _ _ S0). fold s2.
    assert (Hr : mkRectF (curr_x s2) (curr_y s2) (pageSize_dx s2)
                   (lineSpacing s2)
                 = mkRectF 0 (curr_y s2) (pageSize_dx st) (lineSpacing st)).
    { unfold s2. destruct (Qltb _ _); simpl;
        now rewrite (same_dx _ _ S0), (same_lineSpacing _ _ S0). }
    rewrite Hr. reflexivity. }
  destruct (wf_page s2 W2) as (i & p & Hp & _).
  assert (W3 : wf (Append rule s2)) by now apply wf_Append.
  assert (L3 : GetInstructionsForCurrentLine (Append rule s2) = [rule]).
  { unfold GetInstructionsForCurrentLine, page, Append. rewrite Hp. simpl.
    unfold IsCurrentLineEmpty, Count, page in E2. rewrite Hp in E2.
    apply Nat.eqb_eq in E2. rewrite E2.
    change (i :: p ++ [rule]) with ((i :: p) ++ [rule]).
    rewrite skipn_app, skipn_all, Nat.sub_diag. reflexivity. }
  assert (T3 : atPageTop (Append rule s2) = false).
  { unfold atPageTop, IsCurrentLineEmpty, Count.
    assert (Hn : (currLineInstrOffset (Append rule s2)
                  =? length (page (Append rule s2)))%nat = false).
    { apply Nat.eqb_neq. intros Hc.
      unfold GetInstructionsForCurrentLine in L3.
      rewrite Hc, skipn_all in L3. discriminate. }
    rewrite Hn. apply andb_false_r. }
  pose proof (StartNewLine_lineBroken true _ W3) as L4. rewrite <- E in L4.
  split; [exact E|]. split.
  { unfold Append, page. rewrite Hp. reflexivity. }
  split.
  { intros Hobs. rewrite E.
    assert (O1 : hasObserver s1 = true).
    { unfold s1, s0.
      change (hasObserver (set_curr_x 0 (StartNewLine true st)))
        with (hasObserver (StartNewLine true st)).
      now rewrite obs_StartNewLine. }
    assert (O2 : hasObserver s2 = true).
    { unfold s2. destruct (Qltb _ _); [now rewrite obs_StartNewPage|exact O1]. }
    rewrite totalRules_StartNewLine;
      [|exact W3|now rewrite obs_Append].
    unfold rule. rewrite totalRules_Append_Line by exact W2. f_equal.
    assert (T1 : totalRules s1 = totalRules st).
    { unfold s1, s0.
      change (totalRules (set_curr_x 0 (StartNewLine true st)))
        with (totalRules (StartNewLine true st)).
      now apply totalRules_StartNewLine. }
    unfold s2. destruct (Qltb _ _); [|exact T1].
    now rewrite totalRules_StartNewPage. }
  split; [now apply StartNewLine_lineBroken|].
  split.
  { unfold s2. destruct (Qltb _ _); [apply StartNewPage_pageTurned|
                                     reflexivity]. }
  split; [exact L3|]. split; [exact T3|]. split; [exact L4|].
  split.
  { rewrite E. now apply StartNewLine_empty. }
  unfold lineBroken in L4. rewrite T3 in L4. exact (proj1 (proj2 L4)).
Qed.

Lemma AddHr_rule_witness :
  let s0 := StartNewLine true demoObserved in
  let s1 := set_curr_x 0 s0 in
  let s2 :=
    if Qltb (pageSize_dy demoObserved) (curr_y s1 + lineSpacing demoObserved)
    then StartNewPage s1 else s1 in
  let rule :=
    Instr.Line (mkRectF 0 (curr_y s2) (pageSize_dx demoObserved)
                  (lineSpacing demoObserved)) in
  hasObserver demoObserved = true
  /\ AddHr demoObserved = StartNewLine true (Append rule s2)
  /\ page (Append rule s2) = page s2 ++ [rule]
  /\ totalRules (AddHr demoObserved) = S (totalRules demoObserved)
  /\ lineBroken true demoObserved s0
  /\ (if Qltb (pageSize_dy demoObserved)
           (curr_y s1 + lineSpacing demoObserved)
      then pageTurned s1 s2 else s2 = s1)
  /\ GetInstructionsForCurrentLine (Append rule s2) = [rule]
  /\ atPageTop (Append rule s2) = false
  /\ lineBroken true (Append rule s2) (AddHr demoObserved)
  /\ IsCurrentLineEmpty (AddHr demoObserved) = true
  /\ curr_x (AddHr demoObserved) = 0.
Proof.
  assert (W : wf demoObserved).
  { constructor.
    - vm_compute. reflexivity.
    - vm_compute. lia.
    - intros H. vm_compute in H. discriminate.
    - vm_compute. constructor. }
  pose proof (AddHr_rule demoObserved W) as H. cbv zeta in H.
  destruct H as (H1 & H2 & H3 & H4).
  cbv zeta. split; [reflexivity|]. split; [exact H1|]. split; [exact H2|].
  split; [apply H3; reflexivity|exact H4].
Defined.

(** C7.  [AddImage] for a bitmap of [w] by [h] pixels: the line is broken,
    not as a paragraph's last line; the image goes to a new page when
    half its height is more than the height left on the page; when it is
    wider than the page or higher than what is left, both sides are
    multiplied by the smaller of the two fit ratios, as [fitImage]
    computes them; it is centred, it is appended as one [Image]
    instruction at the height of the cursor, the cursor goes down by its
    height, and the line is broken again.  That the image then fits the
    page is a matter of the arithmetic. *)
Theorem AddImage_fits (B : Backend) (st : PageLayout) (d : ImageData2)
    (w h : Z) :
  wf st ->
  BitmapFromData B d = Some (w, h) ->
  let s0 := StartNewLine false st in
  let s1 :=
    if Qltb (pageSize_dy st - curr_y s0) (inject_Z h / 2)
    then StartNewPage s0 else s0 in
  let remaining := pageSize_dy st - curr_y s1 in
  let factor :=
    minREAL (pageSize_dx st / inject_Z w) (remaining / inject_Z h) in
  let img := resizeToFit s1 (mkRectF 0 0 (inject_Z w) (inject_Z h)) in
  let bb :=
    mkRectF (curr_x s1 + (pageSize_dx st - Width img) / 2) (curr_y s1)
      (Width img) (Height img) in
  let s2 :=
    set_curr_y (curr_y s1 + Height bb)
      (Append (Instr.Image d bb) (set_curr_x (X bb) s1)) in
  AddImage B d st = StartNewLine false s2
  /\ page s2 = page s1 ++ [Instr.Image d bb]
  /\ lineBroken false st s0
  /\ (if Qltb (pageSize_dy st - curr_y s0) (inject_Z h / 2)
      then pageTurned s0 s1 else s1 = s0)
  /\ (Width bb, Height bb)
     = fitImage Qarith (pageSize_dx st) (pageSize_dy st) (curr_y s1)
         (inject_Z w) (inject_Z h)
  /\ (if Qltb (pageSize_dx st) (inject_Z w) || Qltb remaining (inject_Z h)
      then Width bb = inject_Z w * factor /\ Height bb = inject_Z h * factor
      else Width bb = inject_Z w /\ Height bb = inject_Z h)
  /\ X bb == (pageSize_dx st - Width bb) / 2
  /\ X bb == centreImage Qarith (pageSize_dx st) (Width bb)
  /\ Y bb = curr_y s1
  /\ curr_y s2 = curr_y s1 + Height bb
  /\ lineBroken false s2 (AddImage B d st).
Proof.
  intros W Hbmp s0 s1 remaining factor img bb s2.
  pose proof (wf_StartNewLine false st W) as W0. fold s0 in W0.
  pose proof (StartNewLine_sameSetup false st W) as S0. fold s0 in S0.
  pose proof (StartNewLine_empty false st W) as E0. fold s0 in E0.
  assert (Hdx : pageSize_dx s1 = pageSize_dx st).
  { unfold s1. destruct (Qltb _ _); [rewrite StartNewPage_eq; simpl|];
      apply (same_dx _ _ S0). }
  assert (Hdy : pageSize_dy s1 = pageSize_dy st).
  { unfold s1. destruct (Qltb _ _); [rewrite StartNewPage_eq; simpl|];
      apply (same_dy _ _ S0). }
  assert (W1 : wf s1).
  { unfold s1. destruct (Qltb _ _); [now apply wf_StartNewPage|exact W0]. }
  assert (Hx1 : curr_x s1 == 0).
  { unfold s1. destruct (Qltb _ _); [reflexivity|]. now apply (wf_x s0 W0). }
  destruct (wf_page s1 W1) as (i & p & Hp & _).
  assert (E : AddImage B d st = StartNewLine false s2).
  { unfold AddImage. rewrite Hbmp. fold s0. f_equal.
    unfold placeImage. cbv zeta. cbn [Height Width].
    rewrite (same_dy _ _ S0). fold s1. fold img.
    unfold s2, bb. cbn [X Height Width]. unfold Append. simpl.
    rewrite Hp, Hdx. reflexivity. }
  assert (W2 : wf s2).
  { eapply (wf_appended s1 _ _ W1); unfold s2, Append, page; simpl;
      rewrite Hp; reflexivity. }
  split; [exact E|]. split.
  { unfold s2, Append, page. simpl. rewrite Hp. reflexivity. }
  split; [now apply StartNewLine_lineBroken|].
  split.
  { unfold s1. destruct (Qltb _ _); [apply StartNewPage_pageTurned|
                                     reflexivity]. }
  assert (F : (Width img, Height img)
              = fitImage Qarith (pageSize_dx st) (pageSize_dy st)
                  (curr_y s1) (inject_Z w) (inject_Z h)).
  { unfold img, resizeToFit, fitImage. cbn [Width Height X Y].
    rewrite Hdx, Hdy. cbn [Qarith r_lt r_sub r_div r_mul].
    unfold minREAL. now destruct (Qltb _ _ || Qltb _ _). }
  split; [exact F|]. split.
  { unfold bb, img, resizeToFit. cbn [Width Height X Y].
    rewrite Hdx, Hdy. fold remaining. fold factor.
    destruct (Qltb _ _ || Qltb _ _); now split. }
  split; [unfold bb; cbn [X Width]; rewrite Hx1; lra|].
  split.
  { unfold bb, centreImage. cbn [X Width Qarith r_add r_sub r_div r_ofInt].
    rewrite Hx1. reflexivity. }
  split; [reflexivity|]. split; [reflexivity|].
  rewrite E. now apply StartNewLine_lineBroken.
Qed.

Lemma AddImage_fits_witness :
  let s0 := StartNewLine false demoLine in
  let s1 :=
    if Qltb (pageSize_dy demoLine - curr_y s0) (inject_Z 50 / 2)
    then StartNewPage s0 else s0 in
  let remaining := pageSize_dy demoLine - curr_y s1 in
  let factor :=
    minREAL (pageSize_dx demoLine / inject_Z 200) (remaining / inject_Z 50) in
  let img := resizeToFit s1 (mkRectF 0 0 (inject_Z 200) (inject_Z 50)) in
  let bb :=
    mkRectF (curr_x s1 + (pageSize_dx demoLine - Width img) / 2) (curr_y s1)
      (Width img) (Height img) in
  let s2 :=
    set_curr_y (curr_y s1 + Height bb)
      (Append (Instr.Image demoImage bb) (set_curr_x (X bb) s1)) in
  AddImage demoBackend demoImage demoLine = StartNewLine false s2
  /\ page s2 = page s1 ++ [Instr.Image demoImage bb]
  /\ lineBroken false demoLine s0
  /\ (if Qltb (pageSize_dy demoLine - curr_y s0) (inject_Z 50 / 2)
      then pageTurned s0 s1 else s1 = s0)
  /\ (Width bb, Height bb)
     = fitImage Qarith (pageSize_dx demoLine) (pageSize_dy demoLine)
         (curr_y s1) (inject_Z 200) (inject_Z 50)
  /\ (if Qltb (pageSize_dx demoLine) (inject_Z 200)
         || Qltb remaining (inject_Z 50)
      then Width bb = inject_Z 200 * factor
           /\ Height bb = inject_Z 50 * factor
      else Width bb = inject_Z 200 /\ Height bb = inject_Z 50)
  /\ X bb == (pageSize_dx demoLine - Width bb) / 2
  /\ X bb == centreImage Qarith (pageSize_dx demoLine) (Width bb)
  /\ Y bb = curr_y s1
  /\ curr_y s2 = curr_y s1 + Height bb
  /\ lineBroken false s2 (AddImage demoBackend demoImage demoLine).
Proof.
  apply (AddImage_fits demoBackend demoLine demoImage 200 50).
  - constructor.
    + vm_compute. reflexivity.
    + vm_compute. lia.
    + intros H. vm_compute in H. discriminate.
    + vm_compute. constructor.
  - vm_compute. reflexivity.
Defined.

(** C7, where rounding decides.  A bitmap of 149 by 10 pixels at the top
    of a page 100 wide and 36 high is too wide and is resized.  In exact
    arithmetic its width is then 100.  In binary32, the arithmetic of
    the code, 100 / 149 is rounded up and the width is 100 + 1/131072,
    more than the width of the page, and the image, centred, starts left
    of the page. *)
Theorem AddImage_wider_than_page_binary32 :
  let dx := F32.ofInt 100 in
  let dy := F32.ofInt 36 in
  let size :=
    fitImage F32.arith dx dy (F32.ofInt 0) (F32.ofInt 149) (F32.ofInt 10) in
  r_lt F32.arith dx (fst size) = true
  /\ F32.toQ (fst size) == 100 + (1 # 131072)
  /\ r_lt F32.arith (centreImage F32.arith dx (fst size)) (F32.ofInt 0) = true
  /\ fst (fitImage Qarith 100 36 0 149 10) == 100.
Proof.
  cbv zeta. split; [|split; [|split]].
  - vm_compute. reflexivity.
  - vm_compute. reflexivity.
  - vm_compute. reflexivity.
  - vm_compute. reflexivity.
Qed.

(** C8.  [Next] does not end on every span.  At a tab (or \v, \f), which
    is neither a space nor a line end but is white space for [isspace],
    it returns a word of length zero and does not move: the assertion
    [wi.len > 0] of the code fails there, every further call returns the
    same empty word, and NULL is never returned. *)
Theorem Next_stuck_on_tab (r : chars) :
  WordsIter.Next (ch_tab :: r) = (Some [], ch_tab :: r)
  /\ forall fuel, WordsIter.tokens fuel (ch_tab :: r) = None.
Proof.
  assert (H : WordsIter.Next (ch_tab :: r) = (Some [], ch_tab :: r)).
  { unfold WordsIter.Next, WordsIter.IsNewlineSkip. simpl.
    now rewrite Nat.eqb_refl. }
  split; [exact H|].
  induction fuel as [|k IH]; [reflexivity|].
  cbn [WordsIter.tokens]. rewrite H, IH. reflexivity.
Qed.

(** C9.  [GetFont] has no fallback.  For a triple that is not in the
    cache and whose font cannot be constructed, it returns the handle of
    the failed construction, which is invalid, and adds it to the cache,
    whatever valid fonts the cache holds. *)
Theorem GetFont_returns_failed_font
    (status : chars -> REAL -> FontStyle -> Status)
    (cache : list FontCache.Entry) (nm : chars) (sz : REAL) (fs : FontStyle) :
  find (FontCache.Entry_eqb
          (FontCache.mkEntry nm sz fs (FontCache.newFont status nm sz fs)))
    cache = None ->
  status nm sz fs <> Ok ->
  IsAvailable (fst (FontCache.GetFont status cache nm sz fs)) = false
  /\ snd (FontCache.GetFont status cache nm sz fs)
     = cache ++ [FontCache.mkEntry nm sz fs
                   (fst (FontCache.GetFont status cache nm sz fs))].
Proof.
  intros Hmiss Hfail. unfold FontCache.GetFont. rewrite Hmiss. simpl.
  split; [|reflexivity].
  unfold IsAvailable. simpl. now destruct (status nm sz fs).
Qed.

Lemma GetFont_returns_failed_font_witness :
  let georgia := FontCache.mkEntry (chars_of "Georgia") 10 FontStyleRegular
                   (FontCache.newFont demoFonts (chars_of "Georgia") 10
                      FontStyleRegular) in
  IsAvailable (FontCache.font georgia) = true
  /\ IsAvailable
       (fst (FontCache.GetFont demoFonts [georgia] (chars_of "Arial") 10
               FontStyleRegular)) = false.
Proof.
  split; [reflexivity|].
  apply (GetFont_returns_failed_font demoFonts _ (chars_of "Arial") 10
           FontStyleRegular); [reflexivity|discriminate].
Defined.

(** C10.  At the end of the input, after the last line is flushed, the
    page being filled has at least one instruction, so [Process] always
    starts a new page, which hands that page to the observer: the pages
    handed over are never none.  On an input without tokens the one page
    handed over consists of the [SetFont] instruction alone. *)
Theorem last_page_always_emitted (B : Backend) (li : LayoutInfo)
    (doc : BaseEbookDoc) (toks : list HtmlToken)
    (cache : list FontCache.Entry) :
  let s := flushed B (Some []) doc toks (StartLayout B cache li) in
  (0 < Count s)%nat
  /\ LayoutHtml B li doc toks cache (Some []) = StartNewPage s
  /\ emitted (LayoutHtml B li doc toks cache (Some []))
     = emitted s ++ [page s]
  /\ emitted (LayoutHtml B li doc [] cache (Some []))
     = [[Instr.SetFont
           (fst (FontCache.GetFont (FontCtorStatus B) cache
                   (li_fontName li) (li_fontSize li) FontStyleRegular))]].
Proof.
  cbv zeta. pose proof (wf_LayoutHtml_flushed B li doc toks cache) as Wf.
  split; [|split; [|split]].
  - pose proof (wf_offset _ Wf). lia.
  - unfold LayoutHtml. now apply Process_flushed.
  - unfold LayoutHtml. rewrite (Process_flushed B _ _ _ _ Wf).
    rewrite StartNewPage_eq. unfold emitted, page. simpl.
    destruct (wf_page _ Wf) as (i & p & Hp & _). rewrite Hp.
    pose proof (wf_emitted _ Wf) as He.
    assert (Ho : hasObserver
                   (flushed B (Some []) doc toks (StartLayout B cache li))
                 = true).
    { unfold flushed.
      rewrite obs_StartNewLine
        by (apply wf_processTokens, wf_set_pageObserver;
            [constructor|apply wf_StartLayout]).
      rewrite obs_processTokens
        by (apply wf_set_pageObserver; [constructor|apply wf_StartLayout]).
      reflexivity. }
    unfold hasObserver in Ho.
    destruct (pageObserver _) eqn:Eo; [reflexivity|discriminate].
  - unfold LayoutHtml, Process, StartLayout. simpl.
    destruct (FontCache.GetFont _ _ _ _ _) as [f c]. reflexivity.
Qed.
